(** * ai-code-reviewer: a shallow embedding of [src/main.ts]

    The action fetches the diff of a pull request, asks a chat model to
    review every chunk, posts the findings as one batched review, and
    reports a pylint score.  This development embeds the functions of
    [main.ts] as Rocq functions and proves the properties its specification
    states about them.

    [main.ts] leans on the JavaScript built-ins ([JSON.parse],
    [JSON.stringify], [Number], [parseFloat], [toFixed], [String.replace],
    [split], [trim], a regular expression) and on libraries (octokit, the
    model SDK, parse-diff, minimatch, glob, child_process).  The built-ins
    are modelled after ECMA-262, on strings of UTF-16 code units and
    binary64 numbers; the libraries that talk to the outside are fields of
    the record [World]; what the code does with their answers is modelled
    step by step, exceptions included.

    Layout:
    - Part I    strings;
    - Part II   numbers (IEEE 754 binary64 as [spec_float]);
    - Part III  values, [JSON.parse] and [JSON.stringify];
    - Part IV   effects: the collaborators and the monad of the asynchronous
                functions;
    - Part V    the functions of [main.ts], the notions the statements use
                and sample collaborators;
    - Part VI   lemmas and theorems. *)

From Stdlib Require Import List ZArith NArith Lia Bool String Ascii.
From Stdlib Require Import Floats.SpecFloat.
Import ListNotations.

Set Implicit Arguments.
Set Warnings "-register-all".

(* ================================================================== *)
(** * Part I: strings *)
(* ================================================================== *)

(** A string is a finite sequence of 16-bit code units.  The code units are
    kept as [N]; [wf_string] states the 16-bit bound where a fact needs it. *)
Definition char16 := N.
Definition jsstring := list char16.

Definition wf_char (c : char16) : Prop := (c < 65536)%N.
Definition wf_string (s : jsstring) : Prop := Forall wf_char s.

(** ASCII literals of the source text. *)
Definition lit (s : string) : jsstring :=
  map N_of_ascii (list_ascii_of_string s).

Definition ch (a : ascii) : char16 := N_of_ascii a.

(** Code units that have no printable ASCII literal. *)
Definition c_quote : char16 := 34%N.      (* the double quote *)
Definition c_backslash : char16 := 92%N.
Definition c_apostrophe : char16 := 39%N.
Definition c_backspace : char16 := 8%N.
Definition c_tab : char16 := 9%N.
Definition c_newline : char16 := 10%N.
Definition c_formfeed : char16 := 12%N.
Definition c_return : char16 := 13%N.

Fixpoint jsstring_eqb (a b : jsstring) : bool :=
  match a, b with
  | [], [] => true
  | x :: a', y :: b' => (x =? y)%N && jsstring_eqb a' b'
  | _, _ => false
  end.

Definition is_empty (s : jsstring) : bool :=
  match s with [] => true | _ => false end.

(** [prefix_of p s] is [Some rest] when [s = p ++ rest]. *)
Fixpoint prefix_of (p s : jsstring) : option jsstring :=
  match p with
  | [] => Some s
  | x :: p' =>
      match s with
      | y :: s' => if (x =? y)%N then prefix_of p' s' else None
      | [] => None
      end
  end.

(** [Array.prototype.join] on strings. *)
Fixpoint join (sep : jsstring) (parts : list jsstring) : jsstring :=
  match parts with
  | [] => []
  | [p] => p
  | p :: more => p ++ sep ++ join sep more
  end.

(** WhiteSpace and LineTerminator code units, the set [String.prototype.trim]
    strips (ECMA-262, 22.1.3.32). *)
Definition is_trim_space (c : char16) : bool :=
  ((9 <=? c) && (c <=? 13) || (c =? 32) || (c =? 160) || (c =? 5760)
   || (8192 <=? c) && (c <=? 8202) || (c =? 8232) || (c =? 8233)
   || (c =? 8239) || (c =? 8287) || (c =? 12288) || (c =? 65279))%N.

Fixpoint trimStart (s : jsstring) : jsstring :=
  match s with
  | c :: rest => if is_trim_space c then trimStart rest else s
  | [] => []
  end.

Definition trimEnd (s : jsstring) : jsstring := rev (trimStart (rev s)).

Definition trim (s : jsstring) : jsstring := trimEnd (trimStart s).

(** [s.split(sep)] for a separator of one code unit: the empty string splits
    into the one-element list holding the empty string. *)
Fixpoint split (sep : char16) (s : jsstring) : list jsstring :=
  match s with
  | [] => [[]]
  | c :: rest =>
      if (c =? sep)%N then [] :: split sep rest
      else match split sep rest with
           | cur :: more => (c :: cur) :: more
           | [] => [[c]]
           end
  end.

(** [s.replace(/[class]/g, r)]: every code unit of the class is replaced. *)
Fixpoint replace_class (cls : char16 -> bool) (r : jsstring) (s : jsstring)
  : jsstring :=
  match s with
  | [] => []
  | c :: rest =>
      if cls c then r ++ replace_class cls r rest
      else c :: replace_class cls r rest
  end.

(** [s.replace(/ab/g, r)] for a pattern of two literal code units, scanning
    left to right without overlap. *)
Fixpoint replace_pair (a b : char16) (r : jsstring) (s : jsstring) : jsstring :=
  match s with
  | [] => []
  | c :: rest =>
      match rest with
      | d :: rest' =>
          if ((c =? a) && (d =? b))%N then r ++ replace_pair a b r rest'
          else c :: replace_pair a b r rest
      | [] => [c]
      end
  end.

Definition is_digit (c : char16) : bool := ((48 <=? c) && (c <=? 57))%N.

(** The longest prefix of decimal digits, and what follows it. *)
Fixpoint span_digits (s : jsstring) : jsstring * jsstring :=
  match s with
  | c :: rest =>
      if is_digit c then let (ds, r) := span_digits rest in (c :: ds, r)
      else ([], s)
  | [] => ([], [])
  end.

Definition digit_value (c : char16) : Z := Z.of_N (c - 48).

(** The mathematical value of a run of decimal digits. *)
Definition decimal_value (ds : jsstring) : Z :=
  fold_left (fun acc c => 10 * acc + digit_value c)%Z ds 0%Z.

Fixpoint digits_of_uint (u : Decimal.uint) : jsstring :=
  match u with
  | Decimal.Nil => []
  | Decimal.D0 u => 48%N :: digits_of_uint u
  | Decimal.D1 u => 49%N :: digits_of_uint u
  | Decimal.D2 u => 50%N :: digits_of_uint u
  | Decimal.D3 u => 51%N :: digits_of_uint u
  | Decimal.D4 u => 52%N :: digits_of_uint u
  | Decimal.D5 u => 53%N :: digits_of_uint u
  | Decimal.D6 u => 54%N :: digits_of_uint u
  | Decimal.D7 u => 55%N :: digits_of_uint u
  | Decimal.D8 u => 56%N :: digits_of_uint u
  | Decimal.D9 u => 57%N :: digits_of_uint u
  end.

(** The decimal numeral of a non-negative integer, without leading zeros. *)
Definition decimal_digits (n : Z) : jsstring :=
  digits_of_uint (N.to_uint (Z.to_N n)).

(* ================================================================== *)
(** * Part II: numbers *)
(* ================================================================== *)

(** A Number is an IEEE 754 binary64 value: a signed zero, a signed infinity,
    NaN, or [(-1)^s * m * 2^e] with the mantissa and exponent in canonical
    form ([2^52 <= m < 2^53] for normal numbers, [e = -1074] for subnormal
    ones). *)
Definition number := spec_float.

Definition NaN : number := S754_nan.
Definition Infinity (neg : bool) : number := S754_infinity neg.

Local Open Scope Z_scope.

(** The quotient [a / b] rounded to the nearest integer, ties to even. *)
Definition round_half_even (a b : Z) : Z :=
  let k := a / b in
  match 2 * (a mod b) ?= b with
  | Lt => k
  | Gt => k + 1
  | Eq => if Z.even k then k else k + 1
  end.

(** For [0 < n] and [0 < d], the [e] with [2^e <= n/d < 2^(e+1)]. *)
Definition floor_log2_ratio (n d : Z) : Z :=
  let e0 := Z.log2 n - Z.log2 d in
  let above := if 0 <=? e0 then d * 2 ^ e0 <=? n else d <=? n * 2 ^ (- e0) in
  if above then e0 else e0 - 1.

(** The binary64 value nearest to the rational [n / d] ([0 <= n], [0 < d]),
    ties to even, with the sign [neg]: the rounding every conversion from a
    decimal numeral goes through. *)
Definition binary64_round (neg : bool) (n d : Z) : number :=
  if n <=? 0 then S754_zero neg
  else
    let e := floor_log2_ratio n d in
    let q := Z.max (e - 52) (-1074) in
    let m := if 0 <=? q then round_half_even n (d * 2 ^ q)
             else round_half_even (n * 2 ^ (- q)) d in
    if m =? 0 then S754_zero neg
    else
      let (m', q') := if m =? 2 ^ 53 then (2 ^ 52, q + 1) else (m, q) in
      if 971 <? q' then S754_infinity neg
      else S754_finite neg (Z.to_pos m') q'.

(** The number nearest to [mant * 10^e10]. *)
Definition decimal_to_number (neg : bool) (mant e10 : Z) : number :=
  if 0 <=? e10 then binary64_round neg (mant * 10 ^ e10) 1
  else binary64_round neg mant (10 ^ (- e10)).

Definition number_of_Z (z : Z) : number :=
  binary64_round (z <? 0) (Z.abs z) 1.

(** The integer a number denotes, when it denotes one. *)
Definition integer_value (x : number) : option Z :=
  match x with
  | S754_zero _ => Some 0
  | S754_finite neg m e =>
      let sign := if neg then -1 else 1 in
      if 0 <=? e then Some (sign * (Zpos m * 2 ^ e))
      else if Zpos m mod 2 ^ (- e) =? 0 then Some (sign * (Zpos m / 2 ^ (- e)))
      else None
  | _ => None
  end.

Definition is_positive_integer (x : number) : bool :=
  match integer_value x with
  | Some z => 0 <? z
  | None => false
  end.

Definition is_finite (x : number) : bool :=
  match x with
  | S754_zero _ | S754_finite _ _ _ => true
  | _ => false
  end.

(** ** Numerals: [StringToNumber] and [parseFloat] *)

(** An optional sign. *)
Definition read_sign (s : jsstring) : bool * jsstring :=
  match s with
  | c :: rest =>
      if (c =? ch "-")%N then (true, rest)
      else if (c =? ch "+")%N then (false, rest)
      else (false, s)
  | [] => (false, s)
  end.

(** An ExponentPart [[eE][+-]?digits] at the head of [s]: its value and what
    follows, or [None] when [s] does not start with a complete one. *)
Definition read_exponent (s : jsstring) : option (Z * jsstring) :=
  match s with
  | c :: rest =>
      if ((c =? ch "e") || (c =? ch "E"))%N then
        let (neg, rest1) := read_sign rest in
        let (ds, rest2) := span_digits rest1 in
        if is_empty ds then None
        else Some (if neg then - decimal_value ds else decimal_value ds, rest2)
      else None
  | [] => None
  end.

(** The longest StrUnsignedDecimalLiteral (without [Infinity]) at the head of
    [s]: mantissa, decimal exponent and what follows. *)
Definition read_unsigned_decimal (s : jsstring) : option (Z * Z * jsstring) :=
  let (ip, rest1) := span_digits s in
  let '(fp, rest2, dot) :=
    match rest1 with
    | c :: r =>
        if (c =? ch ".")%N then let (fp, r') := span_digits r in (fp, r', true)
        else ([], rest1, false)
    | [] => ([], rest1, false)
    end in
  if is_empty ip && is_empty fp then None
  else
    let mant := decimal_value (ip ++ fp) in
    let scale := - Z.of_nat (List.length fp) in
    match read_exponent rest2 with
    | Some (e, rest3) => Some (mant, scale + e, rest3)
    | None => Some (mant, scale, rest2)
    end.

(** The longest StrDecimalLiteral at the head of [s]. *)
Definition read_decimal_literal (s : jsstring) : option (number * jsstring) :=
  let (neg, rest) := read_sign s in
  match prefix_of (lit "Infinity") rest with
  | Some rest' => Some (Infinity neg, rest')
  | None =>
      match read_unsigned_decimal rest with
      | Some (mant, e10, rest') => Some (decimal_to_number neg mant e10, rest')
      | None => None
      end
  end.

(** [parseFloat(s)] (ECMA-262, 19.2.4): the longest prefix of the string,
    leading white space skipped, that is a StrDecimalLiteral. *)
Definition parseFloat (s : jsstring) : number :=
  match read_decimal_literal (trimStart s) with
  | Some (x, _) => x
  | None => NaN
  end.

Definition digit_in_radix (radix : N) (c : char16) : option Z :=
  let v :=
    if is_digit c then Some (c - 48)%N
    else if ((97 <=? c) && (c <=? 102))%N then Some (c - 87)%N
    else if ((65 <=? c) && (c <=? 70))%N then Some (c - 55)%N
    else None in
  match v with
  | Some d => if (d <? radix)%N then Some (Z.of_N d) else None
  | None => None
  end.

Fixpoint radix_value (radix : N) (s : jsstring) (acc : Z) : option Z :=
  match s with
  | [] => Some acc
  | c :: rest =>
      match digit_in_radix radix c with
      | Some d => radix_value radix rest (Z.of_N radix * acc + d)
      | None => None
      end
  end.

(** A NonDecimalIntegerLiteral: [0x], [0o] or [0b] and at least one digit. *)
Definition read_non_decimal (s : jsstring) : option number :=
  match s with
  | z :: p :: (_ :: _) as ds =>
      if (z =? ch "0")%N then
        let radix :=
          if ((p =? ch "x") || (p =? ch "X"))%N then Some 16%N
          else if ((p =? ch "o") || (p =? ch "O"))%N then Some 8%N
          else if ((p =? ch "b") || (p =? ch "B"))%N then Some 2%N
          else None in
        match radix with
        | Some r =>
            match radix_value r ds 0 with
            | Some v => Some (binary64_round false v 1)
            | None => None
            end
        | None => None
        end
      else None
  | _ => None
  end.

(** [StringToNumber] (ECMA-262, 7.1.4.1.1): the whole trimmed string must be
    a numeric literal; the empty string is [+0]. *)
Definition StringToNumber (s : jsstring) : number :=
  match trim s with
  | [] => S754_zero false
  | t =>
      match read_non_decimal t with
      | Some x => x
      | None =>
          match read_decimal_literal t with
          | Some (x, []) => x
          | _ => NaN
          end
      end
  end.

(** ** Number to string: [Number::toString] and [toFixed] *)

Definition number_eqb (x y : number) : bool :=
  match x, y with
  | S754_zero a, S754_zero b => Bool.eqb a b
  | S754_infinity a, S754_infinity b => Bool.eqb a b
  | S754_nan, S754_nan => true
  | S754_finite a m e, S754_finite b m' e' =>
      Bool.eqb a b && (m =? m')%positive && (e =? e')
  | _, _ => false
  end.

(** The exact value [m * 2^e] as a ratio of positive integers. *)
Definition ratio_of (m : positive) (e : Z) : Z * Z :=
  if 0 <=? e then (Zpos m * 2 ^ e, 1) else (Zpos m, 2 ^ (- e)).

(** For [0 < a] and [0 < b], the [n] with [10^(n-1) <= a/b < 10^n]. *)
Definition decimal_exponent (a b : Z) : Z :=
  let n0 := Z.of_nat (List.length (decimal_digits a))
            - Z.of_nat (List.length (decimal_digits b)) in
  let above := if 0 <=? n0 then b * 10 ^ n0 <=? a else b <=? a * 10 ^ (- n0) in
  if above then n0 + 1 else n0.

(** The shortest run of digits [s] (of [k] digits, for the least [k] tried
    upwards) with [s * 10^(n-k)] rounding to [x]; of two such, the one
    nearest to [x = a/b], the even one on a tie (ECMA-262, 6.1.6.1.20). *)
Fixpoint shortest_digits (fuel : nat) (x : number) (a b n k : Z) : Z * Z :=
  let (num, den) := if 0 <=? n - k then (a, b * 10 ^ (n - k))
                    else (a * 10 ^ (k - n), b) in
  let lo := num / den in
  let hi := lo + 1 in
  let ok s := number_eqb (decimal_to_number false s (n - k)) x in
  let pick :=
    match ok lo, ok hi with
    | true, true =>
        Some match 2 * (num mod den) ?= den with
             | Lt => lo
             | Gt => hi
             | Eq => if Z.even lo then lo else hi
             end
    | true, false => Some lo
    | false, true => Some hi
    | false, false => None
    end in
  match pick with
  | Some s => if s =? 10 ^ k then (10 ^ (k - 1), n + 1) else (s, n)
  | None =>
      match fuel with
      | O => (lo, n)
      | S fuel' => shortest_digits fuel' x a b n (k + 1)
      end
  end.

Definition zeros (n : Z) : jsstring := repeat 48%N (Z.to_nat n).

Definition sign_prefix (neg : bool) : jsstring :=
  if neg then lit "-" else [].

(** [Number::toString(x)] in radix 10. *)
Definition NumberToString (x : number) : jsstring :=
  match x with
  | S754_nan => lit "NaN"
  | S754_zero _ => lit "0"
  | S754_infinity neg => sign_prefix neg ++ lit "Infinity"
  | S754_finite neg m e =>
      let (a, b) := ratio_of m e in
      let (s, n) :=
        shortest_digits 16 (S754_finite false m e) a b (decimal_exponent a b) 1 in
      let ds := decimal_digits s in
      let k := Z.of_nat (List.length ds) in
      sign_prefix neg ++
      (if (k <=? n) && (n <=? 21) then ds ++ zeros (n - k)
       else if (0 <? n) && (n <=? 21) then
         firstn (Z.to_nat n) ds ++ lit "." ++ skipn (Z.to_nat n) ds
       else if (-6 <? n) && (n <=? 0) then lit "0." ++ zeros (- n) ++ ds
       else
         let e' := n - 1 in
         let exponent :=
           lit "e" ++ (if e' <? 0 then lit "-" else lit "+")
           ++ decimal_digits (Z.abs e') in
         match ds with
         | d :: (_ :: _) as more => d :: lit "." ++ more ++ exponent
         | _ => ds ++ exponent
         end)
  end.

(** [Number.prototype.toFixed(f)] for [0 <= f <= 100] (ECMA-262, 21.1.3.3):
    the nearest multiple of [10^-f], the larger one on a tie. *)
Definition toFixed (f : Z) (x : number) : jsstring :=
  let fixed (n : Z) : jsstring :=
    let ds := decimal_digits n in
    if f =? 0 then ds
    else
      let padded := zeros (f + 1 - Z.of_nat (List.length ds)) ++ ds in
      let cut := (List.length padded - Z.to_nat f)%nat in
      firstn cut padded ++ lit "." ++ skipn cut padded in
  match x with
  | S754_nan | S754_infinity _ => NumberToString x
  | S754_zero _ => fixed 0
  | S754_finite neg m e =>
      let (a, b) := ratio_of m e in
      if 10 ^ 21 * b <=? a then NumberToString x
      else sign_prefix neg ++ fixed ((2 * a * 10 ^ f + b) / (2 * b))
  end.

Local Close Scope Z_scope.
Local Open Scope N_scope.

(* ================================================================== *)
(** * Part III: values and JSON *)
(* ================================================================== *)

(** The values [JSON.parse] builds, and [undefined], which property access
    adds.  An object lists its own properties in creation order, each key
    once. *)
Inductive value : Type :=
| VUndefined
| VNull
| VBool (b : bool)
| VNumber (x : number)
| VString (s : jsstring)
| VArray (elements : list value)
| VObject (properties : list (jsstring * value)).

(** Exceptions: the built-in error classes the code can raise, and the
    failure of a collaborator (a rejected promise, a failed system call). *)
Inductive error : Type :=
| TypeError
| SyntaxError
| Rejected (reason : string).

Inductive result (A : Type) : Type :=
| Ok (a : A)
| Throw (e : error).
Arguments Throw {A} e.

Fixpoint lookup (key : jsstring) (props : list (jsstring * value))
  : option value :=
  match props with
  | [] => None
  | (k, v) :: rest => if jsstring_eqb k key then Some v else lookup key rest
  end.

(** [CreateDataProperty]: an existing key keeps its place and takes the new
    value, a new key goes last. *)
Fixpoint set_property (key : jsstring) (v : value)
  (props : list (jsstring * value)) : list (jsstring * value) :=
  match props with
  | [] => [(key, v)]
  | (k, old) :: rest =>
      if jsstring_eqb k key then (k, v) :: rest
      else (k, old) :: set_property key v rest
  end.

(** [v.key] for a property name that no built-in prototype defines (all the
    names [main.ts] reads are such): [null] and [undefined] have no
    properties, an object answers with its own property, every other value
    with [undefined]. *)
Definition Get (v : value) (key : jsstring) : result value :=
  match v with
  | VUndefined | VNull => Throw TypeError
  | VObject props =>
      match lookup key props with
      | Some x => Ok x
      | None => Ok VUndefined
      end
  | _ => Ok VUndefined
  end.

Definition ToBoolean (v : value) : bool :=
  match v with
  | VUndefined | VNull => false
  | VBool b => b
  | VNumber (S754_zero _) | VNumber S754_nan => false
  | VNumber _ => true
  | VString s => negb (is_empty s)
  | VArray _ | VObject _ => true
  end.

Definition isArray (v : value) : bool :=
  match v with VArray _ => true | _ => false end.

(** [ToString] (ECMA-262, 7.1.17).  An array joins its elements with commas,
    [null] and [undefined] elements as the empty string.  A plain object
    answers [[object Object]] through the inherited [toString], unless an own
    (data) property of that name shadows it: then no method is callable and
    the conversion raises a TypeError. *)
Fixpoint ToString (v : value) : result jsstring :=
  match v with
  | VUndefined => Ok (lit "undefined")
  | VNull => Ok (lit "null")
  | VBool b => Ok (if b then lit "true" else lit "false")
  | VNumber x => Ok (NumberToString x)
  | VString s => Ok s
  | VArray elements =>
      (fix join_elements (l : list value) : result jsstring :=
         match l with
         | [] => Ok []
         | e :: rest =>
             let head :=
               match e with
               | VUndefined | VNull => Ok []
               | _ => ToString e
               end in
             match head with
             | Throw err => Throw err
             | Ok h =>
                 match rest with
                 | [] => Ok h
                 | _ :: _ =>
                     match join_elements rest with
                     | Ok t => Ok (h ++ lit "," ++ t)
                     | Throw err => Throw err
                     end
                 end
             end
         end) elements
  | VObject props =>
      match lookup (lit "toString") props with
      | Some _ => Throw TypeError
      | None => Ok (lit "[object Object]")
      end
  end.

(** [ToNumber] (ECMA-262, 7.1.4), which is what [Number(v)] computes. *)
Definition ToNumber (v : value) : result number :=
  match v with
  | VUndefined => Ok NaN
  | VNull => Ok (S754_zero false)
  | VBool b => Ok (if b then number_of_Z 1 else S754_zero false)
  | VNumber x => Ok x
  | VString s => Ok (StringToNumber s)
  | VArray _ | VObject _ =>
      match ToString v with
      | Ok s => Ok (StringToNumber s)
      | Throw err => Throw err
      end
  end.

(** ** [JSON.parse] *)

Inductive parsed (A : Type) : Type :=
| Parsed (a : A) (rest : jsstring)
| Malformed
| OutOfFuel.
Arguments Malformed {A}.
Arguments OutOfFuel {A}.

Definition map_parsed {A B : Type} (f : A -> B) (p : parsed A) : parsed B :=
  match p with
  | Parsed a rest => Parsed (f a) rest
  | Malformed => Malformed
  | OutOfFuel => OutOfFuel
  end.

Definition is_json_space (c : char16) : bool :=
  (c =? 9) || (c =? 10) || (c =? 13) || (c =? 32).

Fixpoint skip_ws (s : jsstring) : jsstring :=
  match s with
  | c :: rest => if is_json_space c then skip_ws rest else s
  | [] => []
  end.

Definition hex_digit_value (c : char16) : option N :=
  if is_digit c then Some (c - 48)
  else if (97 <=? c) && (c <=? 102) then Some (c - 87)
  else if (65 <=? c) && (c <=? 70) then Some (c - 55)
  else None.

Definition hex4_value (h1 h2 h3 h4 : char16) : option char16 :=
  match hex_digit_value h1, hex_digit_value h2,
        hex_digit_value h3, hex_digit_value h4 with
  | Some a, Some b, Some c, Some d => Some (((a * 16 + b) * 16 + c) * 16 + d)
  | _, _, _, _ => None
  end.

(** The code unit a one-letter escape stands for. *)
Definition unescape (e : char16) : option char16 :=
  if e =? c_quote then Some c_quote
  else if e =? c_backslash then Some c_backslash
  else if e =? ch "/" then Some (ch "/")
  else if e =? ch "b" then Some c_backspace
  else if e =? ch "f" then Some c_formfeed
  else if e =? ch "n" then Some c_newline
  else if e =? ch "r" then Some c_return
  else if e =? ch "t" then Some c_tab
  else None.

(** The characters of a string literal, read after its opening quote up to
    and including the closing one. *)
Fixpoint parse_string_chars (s : jsstring) : parsed jsstring :=
  match s with
  | [] => Malformed
  | c :: rest =>
      if c =? c_quote then Parsed [] rest
      else if c =? c_backslash then
        match rest with
        | [] => Malformed
        | e :: rest1 =>
            if e =? ch "u" then
              match rest1 with
              | h1 :: h2 :: h3 :: h4 :: rest2 =>
                  match hex4_value h1 h2 h3 h4 with
                  | Some u => map_parsed (cons u) (parse_string_chars rest2)
                  | None => Malformed
                  end
              | _ => Malformed
              end
            else
              match unescape e with
              | Some u => map_parsed (cons u) (parse_string_chars rest1)
              | None => Malformed
              end
        end
      else if c <? 32 then Malformed
      else map_parsed (cons c) (parse_string_chars rest)
  end.

(** A JSON number: an optional minus sign, an integer part without leading
    zeros, an optional fraction (a dot and digits) and an optional exponent. *)
Definition parse_number (s : jsstring) : parsed number :=
  let (neg, s1) :=
    match s with
    | c :: r => if c =? ch "-" then (true, r) else (false, s)
    | [] => (false, s)
    end in
  let (ip, s2) :=
    match s1 with
    | c :: r => if c =? ch "0" then ([c], r) else span_digits s1
    | [] => ([], s1)
    end in
  if is_empty ip then Malformed
  else
    let frac :=
      match s2 with
      | c :: r =>
          if c =? ch "." then
            let (fp, r') := span_digits r in
            if is_empty fp then None else Some (fp, r')
          else Some ([], s2)
      | [] => Some ([], s2)
      end in
    match frac with
    | None => Malformed
    | Some (fp, s3) =>
        let mant := decimal_value (ip ++ fp) in
        let scale := (- Z.of_nat (List.length fp))%Z in
        match s3 with
        | c :: _ =>
            if (c =? ch "e") || (c =? ch "E") then
              match read_exponent s3 with
              | Some (e, s4) =>
                  Parsed (decimal_to_number neg mant (scale + e)%Z) s4
              | None => Malformed
              end
            else Parsed (decimal_to_number neg mant scale) s3
        | [] => Parsed (decimal_to_number neg mant scale) s3
        end
    end.

Definition parse_keyword (word : jsstring) (v : value) (s : jsstring)
  : parsed value :=
  match prefix_of word s with
  | Some rest => Parsed v rest
  | None => Malformed
  end.

(** The recursive-descent parser.  [fuel] bounds the number of nested calls;
    [parse_fuel] below always suffices ([parse_value_fuel]). *)
Fixpoint parse_value (fuel : nat) (s : jsstring) {struct fuel} : parsed value :=
  match fuel with
  | O => OutOfFuel
  | S fuel' =>
      match skip_ws s with
      | [] => Malformed
      | c :: rest =>
          if c =? ch "{" then
            match skip_ws rest with
            | c' :: rest' =>
                if c' =? ch "}" then Parsed (VObject []) rest'
                else parse_members fuel' (c' :: rest') []
            | [] => Malformed
            end
          else if c =? ch "[" then
            match skip_ws rest with
            | c' :: rest' =>
                if c' =? ch "]" then Parsed (VArray []) rest'
                else parse_elements fuel' (c' :: rest') []
            | [] => Malformed
            end
          else if c =? c_quote then map_parsed VString (parse_string_chars rest)
          else if c =? ch "t" then parse_keyword (lit "rue") (VBool true) rest
          else if c =? ch "f" then parse_keyword (lit "alse") (VBool false) rest
          else if c =? ch "n" then parse_keyword (lit "ull") VNull rest
          else if (c =? ch "-") || is_digit c then
            map_parsed VNumber (parse_number (c :: rest))
          else Malformed
      end
  end

with parse_elements (fuel : nat) (s : jsstring) (acc : list value)
  {struct fuel} : parsed value :=
  match fuel with
  | O => OutOfFuel
  | S fuel' =>
      match parse_value fuel' s with
      | Parsed v rest =>
          match skip_ws rest with
          | c :: rest' =>
              if c =? ch "," then parse_elements fuel' rest' (acc ++ [v])
              else if c =? ch "]" then Parsed (VArray (acc ++ [v])) rest'
              else Malformed
          | [] => Malformed
          end
      | Malformed => Malformed
      | OutOfFuel => OutOfFuel
      end
  end

with parse_members (fuel : nat) (s : jsstring) (acc : list (jsstring * value))
  {struct fuel} : parsed value :=
  match fuel with
  | O => OutOfFuel
  | S fuel' =>
      match skip_ws s with
      | c :: rest =>
          if c =? c_quote then
            match parse_string_chars rest with
            | Parsed key rest1 =>
                match skip_ws rest1 with
                | c1 :: rest2 =>
                    if c1 =? ch ":" then
                      match parse_value fuel' rest2 with
                      | Parsed v rest3 =>
                          match skip_ws rest3 with
                          | c3 :: rest4 =>
                              if c3 =? ch "," then
                                parse_members fuel' rest4 (set_property key v acc)
                              else if c3 =? ch "}" then
                                Parsed (VObject (set_property key v acc)) rest4
                              else Malformed
                          | [] => Malformed
                          end
                      | Malformed => Malformed
                      | OutOfFuel => OutOfFuel
                      end
                    else Malformed
                | [] => Malformed
                end
            | Malformed => Malformed
            | OutOfFuel => OutOfFuel
            end
          else Malformed
      | [] => Malformed
      end
  end.

Definition parse_fuel (text : jsstring) : nat := S (2 * List.length text).

(** [JSON.parse(text)]: one value, with nothing but white space around it. *)
Definition JSON_parse (text : jsstring) : result value :=
  match parse_value (parse_fuel text) text with
  | Parsed v rest => if is_empty (skip_ws rest) then Ok v else Throw SyntaxError
  | Malformed | OutOfFuel => Throw SyntaxError
  end.

(** ** [JSON.stringify] *)

Definition hex_digit (d : N) : char16 := if d <? 10 then 48 + d else 87 + d.

(** The escape [\uXXXX] of a code unit, in lower-case hexadecimal. *)
Definition unicode_escape (c : char16) : jsstring :=
  [c_backslash; ch "u"; hex_digit (c / 4096); hex_digit ((c / 256) mod 16);
   hex_digit ((c / 16) mod 16); hex_digit (c mod 16)].

Definition is_high_surrogate (c : char16) : bool := (55296 <=? c) && (c <=? 56319).
Definition is_low_surrogate (c : char16) : bool := (56320 <=? c) && (c <=? 57343).

(** How [QuoteJSONString] writes one code unit that is not half of a
    surrogate pair. *)
Definition quote_unit (c : char16) : jsstring :=
  if c =? c_backspace then [c_backslash; ch "b"]
  else if c =? c_tab then [c_backslash; ch "t"]
  else if c =? c_newline then [c_backslash; ch "n"]
  else if c =? c_formfeed then [c_backslash; ch "f"]
  else if c =? c_return then [c_backslash; ch "r"]
  else if c =? c_quote then [c_backslash; c_quote]
  else if c =? c_backslash then [c_backslash; c_backslash]
  else if (c <? 32) || is_high_surrogate c || is_low_surrogate c
       then unicode_escape c
  else [c].

(** The body of [QuoteJSONString] (ECMA-262, 25.5.2.3): the string is read by
    code points, so a high surrogate followed by a low one is copied, and a
    lone surrogate is escaped. *)
Fixpoint quote_chars (s : jsstring) : jsstring :=
  match s with
  | [] => []
  | c :: rest =>
      if is_high_surrogate c then
        match rest with
        | d :: rest' =>
            if is_low_surrogate d then c :: d :: quote_chars rest'
            else unicode_escape c ++ quote_chars rest
        | [] => unicode_escape c
        end
      else quote_unit c ++ quote_chars rest
  end.

Definition QuoteJSONString (s : jsstring) : jsstring :=
  c_quote :: quote_chars s ++ [c_quote].

(** An array index: the canonical numeral of an integer below [2^32 - 1]. *)
Definition array_index (key : jsstring) : option Z :=
  match key with
  | [] => None
  | c :: rest =>
      if forallb is_digit key && ((negb (c =? ch "0")) || is_empty rest)
         && (decimal_value key <=? 4294967294)%Z
      then Some (decimal_value key)
      else None
  end.

Fixpoint insert_by_index {A : Type} (i : Z) (p : jsstring * A)
  (sorted : list (Z * (jsstring * A))) : list (Z * (jsstring * A)) :=
  match sorted with
  | [] => [(i, p)]
  | (j, q) :: rest =>
      if (i <? j)%Z then (i, p) :: sorted
      else (j, q) :: insert_by_index i p rest
  end.

Definition is_array_index (key : jsstring) : bool :=
  match array_index key with Some _ => true | None => false end.

(** [OrdinaryOwnPropertyKeys]: array indices in ascending order, then the
    other keys in creation order. *)
Definition own_properties {A : Type} (props : list (jsstring * A))
  : list (jsstring * A) :=
  let indexed :=
    fold_left (fun acc p =>
                 match array_index (fst p) with
                 | Some i => insert_by_index i p acc
                 | None => acc
                 end) props [] in
  map snd indexed ++ filter (fun p => negb (is_array_index (fst p))) props.

(** [SerializeJSONProperty] without replacer or indentation: [None] is the
    [undefined] that [undefined] itself serializes to.  An array writes
    [null] for such an element, an object leaves such a property out. *)
Fixpoint serialize (v : value) : option jsstring :=
  match v with
  | VUndefined => None
  | VNull => Some (lit "null")
  | VBool b => Some (if b then lit "true" else lit "false")
  | VNumber x => Some (if is_finite x then NumberToString x else lit "null")
  | VString s => Some (QuoteJSONString s)
  | VArray elements =>
      let items :=
        map (fun e => match serialize e with
                      | Some t => t
                      | None => lit "null"
                      end) elements in
      Some (lit "[" ++ join (lit ",") items ++ lit "]")
  | VObject props =>
      let members :=
        (fix go (l : list (jsstring * value)) : list (jsstring * jsstring) :=
           match l with
           | [] => []
           | (k, e) :: rest =>
               match serialize e with
               | Some t => (k, t) :: go rest
               | None => go rest
               end
           end) props in
      let items :=
        map (fun m => QuoteJSONString (fst m) ++ lit ":" ++ snd m)
            (own_properties members) in
      Some (lit "{" ++ join (lit ",") items ++ lit "}")
  end.

Definition JSON_stringify (v : value) : option jsstring := serialize v.

Local Close Scope N_scope.

(* ================================================================== *)
(** * Part IV: effects *)
(* ================================================================== *)

Definition bindR {A B : Type} (r : result A) (k : A -> result B) : result B :=
  match r with
  | Ok a => k a
  | Throw e => Throw e
  end.

Notation "'let?' x ':=' r 'in' k" := (bindR r (fun x => k))
  (at level 10, x name, r at level 100, k at level 200).

(** [xs.map(f)] for a callback that may throw: the first exception ends it. *)
Fixpoint mapR {A B : Type} (f : A -> result B) (xs : list A) : result (list B) :=
  match xs with
  | [] => Ok []
  | x :: rest =>
      let? y := f x in
      let? ys := mapR f rest in
      Ok (y :: ys)
  end.

(** [xs.some(f)] for a callback that may throw: the elements are tried in
    order up to the first one for which [f] answers [true]. *)
Fixpoint someR {A : Type} (f : A -> result bool) (xs : list A) : result bool :=
  match xs with
  | [] => Ok false
  | x :: rest =>
      let? found := f x in
      if found then Ok true else someR f rest
  end.

(** [xs.filter(f)] for a callback that may throw. *)
Fixpoint filterR {A : Type} (f : A -> result bool) (xs : list A)
  : result (list A) :=
  match xs with
  | [] => Ok []
  | x :: rest =>
      let? keep := f x in
      let? kept := filterR f rest in
      Ok (if keep then x :: kept else kept)
  end.

(** ** Data of the pipeline *)

(** A change of a chunk (parse-diff): [ln] on added and deleted lines, [ln2]
    (the new-file line) on context lines. *)
Record Change : Type := {
  ln : option N;
  ln2 : option N;
  change_content : jsstring
}.

Record Chunk : Type := {
  chunk_content : jsstring;
  changes : list Change
}.

(** A file of the parsed diff.  [to] is absent when the diff names no target;
    a deleted file has the target [/dev/null]. *)
Record File : Type := {
  to : option jsstring;
  chunks : list Chunk
}.

Record PRDetails : Type := {
  owner : value;
  repo : value;
  pull_number : value;
  title : jsstring;
  description : jsstring
}.

(** One element of the array [getAIResponse] returns.  The TypeScript type
    promises two strings; at run time the fields hold whatever the model's
    JSON held ([lineNumber] is [undefined] when the finding had none). *)
Record Finding : Type := {
  lineNumber : value;
  reviewComment : value
}.

(** A review comment as [createComment] builds it. *)
Record Comment : Type := {
  body : value;
  path : jsstring;
  line : number
}.

(** The answer of the model API: a list of content blocks. *)
Inductive ContentBlock : Type :=
| TextBlock (text : jsstring)
| OtherBlock.

Record Message : Type := { content : list ContentBlock }.

(** The answer of [octokit.pulls.get]: title and body of the pull request,
    [None] for [null]. *)
Record PullData : Type := {
  pr_title : option jsstring;
  pr_body : option jsstring
}.

(** ** Observable effects *)

Inductive event : Type :=
| ConsoleLog (label : string)
| ConsoleError (label : string)
| PullsGet (owner repo pull_number : value)
| PullsGetDiff (owner repo pull_number : value)
| CompareCommits (owner repo base head : value)
| MessagesCreate (prompt : jsstring)
| GlobFiles
| Exec (command : jsstring)
| IssuesCreateComment (owner repo issue_number : value) (body : jsstring)
| PullsCreateReview (owner repo pull_number : value)
    (comments : list Comment) (event_type : jsstring)
| ProcessExit (code : Z).

Definition trace := list event.

(** ** The collaborators

    Everything [main.ts] reaches outside itself.  An answer may depend on
    what happened before, so every call receives the trace so far. *)
Record World : Type := {
  (* action inputs and environment *)
  input_exclude : jsstring;                 (* core.getInput("exclude") *)
  env_GITHUB_EVENT_PATH : option jsstring;  (* process.env.GITHUB_EVENT_PATH *)
  readFileSync : jsstring -> result jsstring;
  (* source-control host *)
  pulls_get : trace -> value -> value -> value -> result PullData;
  pulls_get_diff : trace -> value -> value -> value -> result (option jsstring);
  compare_commits : trace -> value -> value -> value -> value -> result jsstring;
  issues_createComment : trace -> value -> value -> value -> jsstring -> result unit;
  pulls_createReview :
    trace -> value -> value -> value -> list Comment -> jsstring -> result unit;
  (* model API *)
  messages_create : trace -> jsstring -> result Message;
  (* linter *)
  glob : trace -> result (list jsstring);
  execAsync : trace -> jsstring -> result (jsstring * jsstring);
  (* libraries *)
  parseDiff : jsstring -> result (list File);
  glob_match : jsstring -> jsstring -> bool;
  (* the two fixed texts of the prompt template around the file name *)
  prompt_instructions : jsstring;
  prompt_after_path : jsstring
}.

(** ** The monad of the asynchronous functions

    A computation extends the trace and either returns or throws; [await] is
    sequencing (one flow of control). *)
Definition M (A : Type) : Type := trace -> result A * trace.

Definition ret {A : Type} (a : A) : M A := fun tr => (Ok a, tr).

Definition bind {A B : Type} (c : M A) (k : A -> M B) : M B :=
  fun tr =>
    match c tr with
    | (Ok a, tr') => k a tr'
    | (Throw e, tr') => (Throw e, tr')
    end.

Definition throw {A : Type} (e : error) : M A := fun tr => (Throw e, tr).

Definition lift {A : Type} (r : result A) : M A := fun tr => (r, tr).

Definition emit (e : event) : M unit := fun tr => (Ok tt, tr ++ [e]).

(** A call to a collaborator: the call is recorded, then answered. *)
Definition call {A : Type} (e : event) (answer : trace -> result A) : M A :=
  fun tr => (answer tr, tr ++ [e]).

(** [try { body } catch (e) { handler }]. *)
Definition try_catch {A : Type} (body : M A) (handler : error -> M A) : M A :=
  fun tr =>
    match body tr with
    | (Ok a, tr') => (Ok a, tr')
    | (Throw e, tr') => handler e tr'
    end.

Declare Scope monad_scope.
Delimit Scope monad_scope with monad.
Notation "x <- c ;; k" := (bind c (fun x => k))
  (at level 61, c at next level, right associativity) : monad_scope.
Notation "c ;; k" := (bind c (fun _ => k))
  (at level 61, right associativity) : monad_scope.
Local Open Scope monad_scope.

Definition console_log (label : string) : M unit := emit (ConsoleLog label).
Definition console_error (label : string) : M unit := emit (ConsoleError label).

(** Unfolds the monad in a goal, to run a computation step by step. *)
Ltac run_monad :=
  unfold bind, ret, lift, call, emit, throw, try_catch,
    console_log, console_error in *; simpl in *.

(* ================================================================== *)
(** * Part V: the functions of [main.ts] *)
(* ================================================================== *)

(** The library refuses a pattern of more than 64 * 1024 code units
    ([assertValidPattern]). *)
Definition pattern_too_long (pattern : jsstring) : bool :=
  (65536 <? N.of_nat (List.length pattern))%N.

(** What [minimatch] answers for a pattern it accepts: a pattern that starts
    with [#] is a comment and matches nothing, the empty pattern matches the
    empty path only, and every other pattern goes to the glob engine, which
    is a parameter here ([glob_match]). *)
Definition match_pattern (engine : jsstring -> jsstring -> bool)
  (p pattern : jsstring) : bool :=
  match pattern with
  | [] => is_empty p
  | c :: _ => if (c =? ch "#")%N then false else engine p pattern
  end.

(** [minimatch(p, pattern)] (the library's entry point): the pattern is
    checked first, and one that is too long is a TypeError ([pattern is too
    long]). *)
Definition minimatch (engine : jsstring -> jsstring -> bool)
  (p pattern : jsstring) : result bool :=
  if pattern_too_long pattern then Throw TypeError
  else Ok (match_pattern engine p pattern).

(** [file.to ?? ""]. *)
Definition to_or_empty (file : File) : jsstring :=
  match to file with
  | Some p => p
  | None => []
  end.

(** Lines 381-384: [getInput("exclude").split(",").map(s => s.trim())]. *)
Definition excludePatterns (exclude : jsstring) : list jsstring :=
  map trim (split (ch ",") exclude).

(** Lines 386-390: the exclusion filter.  An exception of [minimatch] leaves
    the callbacks of [some] and [filter]. *)
Definition filterDiff (engine : jsstring -> jsstring -> bool)
  (patterns : list jsstring) (parsedDiff : list File) : result (list File) :=
  filterR (fun file =>
             let? excluded :=
               someR (fun pattern =>
                        minimatch engine (to_or_empty file) pattern)
                     patterns in
             Ok (negb excluded))
          parsedDiff.

(** ** The lint score *)

Definition rating_sentence : jsstring := lit "Your code has been rated at ".

(** A match of [/Your code has been rated at (\d+\.\d+)/] that starts at the
    head of [s]: its capture group.  Both [\d+] are greedy and each is
    followed by something that is no digit, so only the longest runs of
    digits can match and backtracking finds nothing else. *)
Definition match_rating_here (s : jsstring) : option jsstring :=
  match prefix_of rating_sentence s with
  | Some rest =>
      let (ip, r1) := span_digits rest in
      match ip, r1 with
      | _ :: _, c :: r2 =>
          if (c =? ch ".")%N then
            let (fp, _) := span_digits r2 in
            if is_empty fp then None else Some (ip ++ lit "." ++ fp)
          else None
      | _, _ => None
      end
  | None => None
  end.

(** [s.match(regex)] without the [g] flag: the leftmost match. *)
Fixpoint match_rating (s : jsstring) : option jsstring :=
  match match_rating_here s with
  | Some g => Some g
  | None =>
      match s with
      | [] => None
      | _ :: rest => match_rating rest
      end
  end.

Definition parsePylint (pylintOutput : jsstring) : number :=
  match match_rating pylintOutput with
  | Some g => parseFloat g
  | None => S754_zero false
  end.

(** Line 57: the command line of the linter. *)
Definition pylint_command (files : list jsstring) : jsstring :=
  lit "pylint " ++ join (lit " ") files
  ++ lit " --exit-zero  --output-format=text".

(** Line 399: the body of the lint comment. *)
Definition scoreComment (pylintScore : number) : jsstring :=
  lit "The pylint score for this pull request is: "
  ++ toFixed 2 pylintScore ++ lit "/10".

(** ** The comment mapper *)

(** [aiResponses.flatMap(...)]: nothing for a file without target path
    ([undefined] or the empty string), else one comment per finding.
    [Number(...)] may throw (see [ToString]). *)
Definition createComment (file : File) (chunk : Chunk)
  (aiResponses : list Finding) : result (list Comment) :=
  let? parts :=
    mapR (fun aiResponse =>
            match to file with
            | None | Some [] => Ok []
            | Some p =>
                let? n := ToNumber (lineNumber aiResponse) in
                Ok [ {| body := reviewComment aiResponse;
                        path := p;
                        line := n |} ]
            end) aiResponses in
  Ok (List.concat parts).

(** ** The model client adapter *)

Definition is_control (c : char16) : bool :=
  ((c <=? 31) || (127 <=? c) && (c <=? 159))%N.

(** Lines 258-265, the recovery pass: seven replacements in a row. *)
Definition cleanContent (content : jsstring) : jsstring :=
  let s1 := replace_class is_control [] content in
  let s2 := replace_class (N.eqb c_newline) [c_backslash; ch "n"] s1 in
  let s3 := replace_class (N.eqb c_return) [c_backslash; ch "r"] s2 in
  let s4 := replace_class (N.eqb c_tab) [c_backslash; ch "t"] s3 in
  let s5 := replace_class (N.eqb c_formfeed) [c_backslash; ch "f"] s4 in
  let s6 := replace_class (N.eqb c_quote) [c_backslash; c_quote] s5 in
  replace_pair c_backslash c_apostrophe [c_apostrophe] s6.

(** Lines 251-252: the text of the first content block, or the empty string
    when that block is no text; reading [.type] of a missing first block is a
    TypeError. *)
Definition first_text (response : Message) : result jsstring :=
  match content response with
  | [] => Throw TypeError
  | TextBlock text :: _ => Ok text
  | OtherBlock :: _ => Ok []
  end.

(** [JSON.parse(JSON.stringify(v))]: [JSON.parse] converts its argument to a
    string, so the [undefined] that [JSON.stringify(undefined)] returns is
    parsed as the text [undefined], a SyntaxError. *)
Definition json_round_trip (v : value) : result value :=
  match JSON_stringify v with
  | Some text => JSON_parse text
  | None => JSON_parse (lit "undefined")
  end.

(** Lines 287-292: the callback of [parsedContent.reviews.map]. *)
Definition sanitizeReview (review : value) : result Finding :=
  let? n := Get review (lit "lineNumber") in
  let? c := Get review (lit "reviewComment") in
  let? c' := json_round_trip c in
  Ok {| lineNumber := n; reviewComment := c' |}.

Definition elements_of (v : value) : list value :=
  match v with
  | VArray l => l
  | _ => []
  end.

Section Program.

Variable w : World.

(** Lines 254-276: parse, and on failure clean and parse once more.  [None]
    is the [return null] of the inner [catch]. *)
Definition parseWithRecovery (content : jsstring) : M (option value) :=
  try_catch
    (parsedContent <- lift (JSON_parse content) ;;
     ret (Some parsedContent))
    (fun jsonError =>
       console_error "Error parsing initial JSON:" ;;
       console_log "Cleaned content:" ;;
       try_catch
         (parsedContent <- lift (JSON_parse (cleanContent content)) ;;
          ret (Some parsedContent))
         (fun secondJsonError =>
            console_error "Error parsing cleaned JSON:" ;;
            console_error "Cleaned content that failed to parse:" ;;
            ret None)).

(** Lines 278-294: what follows a successful parse. *)
Definition extractReviews (parsedContent : value) : M (option (list Finding)) :=
  reviews <- lift (Get parsedContent (lit "reviews")) ;;
  if negb (ToBoolean reviews) || negb (isArray reviews) then
    console_error "Parsed content does not contain a 'reviews' array:" ;;
    ret None
  else
    sanitizedReviews <- lift (mapR sanitizeReview (elements_of reviews)) ;;
    ret (Some sanitizedReviews).

(** Lines 230-303.  [None] is [null].  Every exception that can reach the
    outer [catch] is an instance of [Error], so its message and stack are
    logged. *)
Definition getAIResponse (prompt : jsstring) : M (option (list Finding)) :=
  try_catch
    (response <- call (MessagesCreate prompt) (fun tr => messages_create w tr prompt) ;;
     content <- lift (first_text response) ;;
     parsed <- parseWithRecovery content ;;
     match parsed with
     | None => ret None
     | Some parsedContent => extractReviews parsedContent
     end)
    (fun error =>
       console_error "Error in API call or processing:" ;;
       console_error "Error message:" ;;
       console_error "Error stack:" ;;
       ret None).

(** ** The prompt *)

(** [`${c.ln ? c.ln : c.ln2} ${c.content}`]. *)
Definition change_line (c : Change) : jsstring :=
  let shown (n : option N) : jsstring :=
    match n with
    | Some k => decimal_digits (Z.of_N k)
    | None => lit "undefined"
    end in
  let number :=
    match ln c with
    | Some 0%N | None => shown (ln2 c)
    | Some k => shown (Some k)
    end in
  number ++ lit " " ++ change_content c.

Definition nl : jsstring := [c_newline].

(** Lines 127-228.  The two long fixed texts of the template are parameters
    of the world; the rest of the template is spelled out. *)
Definition createPrompt (file : File) (chunk : Chunk) (prDetails : PRDetails)
  : jsstring :=
  prompt_instructions w
  ++ (match to file with Some p => p | None => lit "undefined" end)
  ++ prompt_after_path w ++ nl ++ nl
  ++ lit "Pull request title: " ++ title prDetails ++ nl
  ++ lit "Pull request description:" ++ nl ++ nl
  ++ lit "---" ++ nl
  ++ description prDetails ++ nl
  ++ lit "---" ++ nl ++ nl
  ++ lit "Git diff to review:" ++ nl ++ nl
  ++ lit "```diff" ++ nl
  ++ chunk_content chunk ++ nl
  ++ join nl (map change_line (changes chunk)) ++ nl
  ++ lit "```" ++ nl.

(** ** The review loop *)

Definition is_dev_null (file : File) : bool :=
  match to file with
  | Some p => jsstring_eqb p (lit "/dev/null")
  | None => false
  end.

(** Lines 113-122, the inner loop of [analyzeCode] over the chunks of one
    file; [comments] is the array the loop pushes to. *)
Fixpoint analyzeChunks (file : File) (prDetails : PRDetails)
  (cs : list Chunk) (comments : list Comment) : M (list Comment) :=
  match cs with
  | [] => ret comments
  | chunk :: rest =>
      aiResponse <- getAIResponse (createPrompt file chunk prDetails) ;;
      match aiResponse with
      | Some findings =>
          newComments <- lift (createComment file chunk findings) ;;
          analyzeChunks file prDetails rest (comments ++ newComments)
      | None => analyzeChunks file prDetails rest comments
      end
  end.

(** Lines 111-123, the outer loop over the files. *)
Fixpoint analyzeFiles (prDetails : PRDetails) (files : list File)
  (comments : list Comment) : M (list Comment) :=
  match files with
  | [] => ret comments
  | file :: rest =>
      if is_dev_null file then analyzeFiles prDetails rest comments
      else
        comments' <- analyzeChunks file prDetails (chunks file) comments ;;
        analyzeFiles prDetails rest comments'
  end.

Definition analyzeCode (parsedDiff : list File) (prDetails : PRDetails)
  : M (list Comment) :=
  analyzeFiles prDetails parsedDiff [].

(** ** The lint score collector *)

(** Lines 46-65.  Nothing here catches: a rejection of [glob] or of
    [execAsync] leaves the function as an exception. *)
Definition getPylintScore : M number :=
  files <- call GlobFiles (glob w) ;;
  console_log "files" ;;
  match files with
  | [] =>
      console_log "No Python files found in the repository." ;;
      ret (number_of_Z 10)
  | _ :: _ =>
      let command := pylint_command files in
      out <- call (Exec command) (fun tr => execAsync w tr command) ;;
      (if is_empty (snd out) then ret tt else console_error "Pylint error:") ;;
      ret (parsePylint (fst out))
  end.

(** ** The host *)

(** [process.env.GITHUB_EVENT_PATH || ""] (and [?? ""], which differs only
    on values that are no strings). *)
Definition event_path : jsstring :=
  match env_GITHUB_EVENT_PATH w with
  | Some p => p
  | None => []
  end.

(** Lines 72-88. *)
Definition getPRDetails : M PRDetails :=
  text <- lift (readFileSync w event_path) ;;
  payload <- lift (JSON_parse text) ;;
  repository <- lift (Get payload (lit "repository")) ;;
  number <- lift (Get payload (lit "number")) ;;
  repo_owner <- lift (Get repository (lit "owner")) ;;
  login <- lift (Get repo_owner (lit "login")) ;;
  name <- lift (Get repository (lit "name")) ;;
  prResponse <- call (PullsGet login name number)
                     (fun tr => pulls_get w tr login name number) ;;
  ret {| owner := login;
         repo := name;
         pull_number := number;
         title := match pr_title prResponse with Some t => t | None => [] end;
         description := match pr_body prResponse with Some t => t | None => [] end |}.

(** Lines 90-103. *)
Definition getDiff (owner repo pull_number : value) : M (option jsstring) :=
  call (PullsGetDiff owner repo pull_number)
       (fun tr => pulls_get_diff w tr owner repo pull_number).

(** Lines 31-43. *)
Definition addPullRequestComment (owner repo pull_number : value)
  (body : jsstring) : M unit :=
  call (IssuesCreateComment owner repo pull_number body)
       (fun tr => issues_createComment w tr owner repo pull_number body).

(** Lines 326-339. *)
Definition createReviewComment (owner repo pull_number : value)
  (comments : list Comment) : M unit :=
  call (PullsCreateReview owner repo pull_number comments (lit "COMMENT"))
       (fun tr => pulls_createReview w tr owner repo pull_number comments
                    (lit "COMMENT")).

(** ** The orchestrator *)

Definition is_string (v : value) (s : jsstring) : bool :=
  match v with
  | VString t => jsstring_eqb t s
  | _ => false
  end.

(** Lines 348-372: the diff for the event, or [None] when [main] returns on
    an unsupported event. *)
Definition fetchDiff (prDetails : PRDetails) (eventData : value)
  : M (option (option jsstring)) :=
  action <- lift (Get eventData (lit "action")) ;;
  if is_string action (lit "opened") then
    diff <- getDiff (owner prDetails) (repo prDetails) (pull_number prDetails) ;;
    ret (Some diff)
  else if is_string action (lit "synchronize") then
    newBaseSha <- lift (Get eventData (lit "before")) ;;
    newHeadSha <- lift (Get eventData (lit "after")) ;;
    data <- call (CompareCommits (owner prDetails) (repo prDetails)
                    newBaseSha newHeadSha)
                 (fun tr => compare_commits w tr (owner prDetails)
                              (repo prDetails) newBaseSha newHeadSha) ;;
    ret (Some (Some data))
  else
    console_log "Unsupported event:" ;;
    ret None.

(** Lines 393-409: the lint score, its comment, and the review. *)
Definition reportResults (prDetails : PRDetails) (comments : list Comment)
  : M unit :=
  pylintScore <- getPylintScore ;;
  addPullRequestComment (owner prDetails) (repo prDetails)
    (pull_number prDetails) (scoreComment pylintScore) ;;
  match comments with
  | _ :: _ =>
      createReviewComment (owner prDetails) (repo prDetails)
        (pull_number prDetails) comments
  | [] => ret tt
  end.

(** Lines 341-410. *)
Definition main : M unit :=
  prDetails <- getPRDetails ;;
  text <- lift (readFileSync w event_path) ;;
  eventData <- lift (JSON_parse text) ;;
  fetched <- fetchDiff prDetails eventData ;;
  match fetched with
  | None => ret tt
  | Some None | Some (Some []) =>
      console_log "No diff found" ;;
      ret tt
  | Some (Some diff) =>
      parsedDiff <- lift (parseDiff w diff) ;;
      filteredDiff <- lift (filterDiff (glob_match w)
                              (excludePatterns (input_exclude w))
                              parsedDiff) ;;
      comments <- analyzeCode filteredDiff prDetails ;;
      reportResults prDetails comments
  end.

(** Lines 412-415: an exception that leaves [main] is logged and the process
    exits with status 1. *)
Definition action : M unit :=
  try_catch main
    (fun error =>
       console_error "Error:" ;;
       emit (ProcessExit 1)).

(** The trace of one run of the action. *)
Definition run : trace := snd (action []).

End Program.

(** ** Notions the statements below use *)

(** [l1] is [l2] with some elements left out, the others in their order. *)
Inductive subsequence {A : Type} : list A -> list A -> Prop :=
| subsequence_nil : subsequence [] []
| subsequence_skip : forall x l1 l2, subsequence l1 l2 -> subsequence l1 (x :: l2)
| subsequence_keep : forall x l1 l2,
    subsequence l1 l2 -> subsequence (x :: l1) (x :: l2).

(** The file's target path, the empty string when absent, matches one of the
    patterns. *)
Definition matches_some (engine : jsstring -> jsstring -> bool)
  (patterns : list jsstring) (file : File) : Prop :=
  exists pattern,
    In pattern patterns
    /\ minimatch engine (to_or_empty file) pattern = Ok true.

(** A pattern the library accepts: at most 65536 code units. *)
Definition valid_pattern (pattern : jsstring) : Prop :=
  (N.of_nat (List.length pattern) <= 65536)%N.

(** Whether one of the patterns is accepted and matches the file's target
    path, the empty string when absent. *)
Definition excluded (engine : jsstring -> jsstring -> bool)
  (patterns : list jsstring) (file : File) : bool :=
  existsb (fun pattern =>
             negb (pattern_too_long pattern)
             && match_pattern engine (to_or_empty file) pattern)
          patterns.

(** What [getAIResponse] makes of a parsed response (lines 278-294 under the
    outer [catch]): the sanitized findings when [reviews] is an array and
    every element passes, [null] otherwise. *)
Definition reviewsOf (parsedContent : value) : option (list Finding) :=
  match Get parsedContent (lit "reviews") with
  | Ok (VArray elements) =>
      match mapR sanitizeReview elements with
      | Ok findings => Some findings
      | Throw _ => None
      end
  | _ => None
  end.

(** Every event a computation adds to the trace satisfies [P]. *)
Definition emits_only (P : event -> Prop) {A : Type} (c : M A) : Prop :=
  forall tr, exists new, snd (c tr) = tr ++ new /\ Forall P new.

(** The review submissions of a trace: comments and event type of each call
    of [octokit.pulls.createReview], in order. *)
Fixpoint review_submissions (tr : trace) : list (list Comment * jsstring) :=
  match tr with
  | [] => []
  | PullsCreateReview _ _ _ comments event_type :: rest =>
      (comments, event_type) :: review_submissions rest
  | _ :: rest => review_submissions rest
  end.

(** The lint comments of a trace: the body of each call of
    [octokit.issues.createComment]. *)
Fixpoint lint_comments (tr : trace) : list jsstring :=
  match tr with
  | [] => []
  | IssuesCreateComment _ _ _ body :: rest => body :: lint_comments rest
  | _ :: rest => lint_comments rest
  end.

(** The run gets as far as line 392 and [analyzeCode] returns [comments],
    leaving the trace [tr]. *)
Definition reaches_report (w : World) (prDetails : PRDetails)
  (comments : list Comment) (tr : trace) : Prop :=
  exists text eventData diff parsedDiff filteredDiff tr1 tr2,
    getPRDetails w [] = (Ok prDetails, tr1)
    /\ readFileSync w (event_path w) = Ok text
    /\ JSON_parse text = Ok eventData
    /\ fetchDiff w prDetails eventData tr1 = (Ok (Some (Some diff)), tr2)
    /\ diff <> []
    /\ parseDiff w diff = Ok parsedDiff
    /\ filterDiff (glob_match w) (excludePatterns (input_exclude w)) parsedDiff
       = Ok filteredDiff
    /\ analyzeCode w filteredDiff prDetails tr2 = (Ok comments, tr).

(** An event that posts nothing to the pull request. *)
Definition posts_nothing (e : event) : Prop :=
  match e with
  | PullsCreateReview _ _ _ _ _ | IssuesCreateComment _ _ _ _ => False
  | _ => True
  end.

(** An event that is no review submission, or is one of a non-empty batch
    with the event type [COMMENT]. *)
Definition review_well_formed (e : event) : Prop :=
  match e with
  | PullsCreateReview _ _ _ comments event_type =>
      comments <> [] /\ event_type = lit "COMMENT"
  | _ => True
  end.

(** An event that is no review submission. *)
Definition no_review (e : event) : Prop :=
  match e with
  | PullsCreateReview _ _ _ _ _ => False
  | _ => True
  end.

(** [s] does not start with a decimal digit. *)
Definition no_digit_ahead (s : jsstring) : Prop :=
  match s with
  | c :: _ => is_digit c = false
  | [] => True
  end.

(** The report contains a sentence the rating pattern matches: the fixed
    words, digits, a dot, digits. *)
Definition contains_rating (report : jsstring) : Prop :=
  exists pre ip fp post,
    report = pre ++ rating_sentence ++ ip ++ lit "." ++ fp ++ post
    /\ ip <> [] /\ fp <> []
    /\ forallb is_digit ip = true /\ forallb is_digit fp = true.

(** Every double quote of [s] follows a backslash, [prev] being the code
    unit before the first one of [s]. *)
Fixpoint guarded (prev : char16) (s : jsstring) : bool :=
  match s with
  | [] => true
  | c :: rest =>
      (negb (c =? c_quote) || (prev =? c_backslash))%N && guarded c rest
  end.

(** [s] is what remains of a text whose double quotes all follow a backslash,
    after reading up to a code unit that is no backslash. *)
Definition plain (s : jsstring) : Prop := guarded 0%N s = true.

(** A value without any string: no string value and no object member (a
    member has a string for key). *)
Fixpoint string_free (v : value) : bool :=
  match v with
  | VString _ => false
  | VArray elements => forallb string_free elements
  | VObject props => match props with [] => true | _ :: _ => false end
  | _ => true
  end.

(** The prompts of the calls of the model API in a trace, in order. *)
Fixpoint model_calls (tr : trace) : list jsstring :=
  match tr with
  | [] => []
  | MessagesCreate prompt :: rest => prompt :: model_calls rest
  | _ :: rest => model_calls rest
  end.

(** The prompts [analyzeCode] builds for a diff: one for every chunk of every
    file that is not deleted, in the order of the diff. *)
Definition prompts_of (w : World) (prDetails : PRDetails) (files : list File)
  : list jsstring :=
  flat_map (fun file =>
              if is_dev_null file then []
              else map (fun chunk => createPrompt w file chunk prDetails)
                       (chunks file))
           files.

(** An event that is no call of the model API. *)
Definition no_model_call (e : event) : Prop :=
  match e with
  | MessagesCreate _ => False
  | _ => True
  end.


(** What the review loop over [files] may emit: log lines, and calls of the
    model API for chunks of files of [files] that are not deleted. *)
Definition prompt_among (w : World) (prDetails : PRDetails)
  (files : list File) (e : event) : Prop :=
  match e with
  | MessagesCreate prompt =>
      exists file chunk,
        In file files /\ is_dev_null file = false
        /\ In chunk (chunks file)
        /\ prompt = createPrompt w file chunk prDetails
  | ConsoleLog _ | ConsoleError _ => True
  | _ => False
  end.


(** Lines 73-77: the owner login [getPRDetails] reads from the event payload
    before it calls the host. *)
Definition event_login (w : World) : result value :=
  let? text := readFileSync w (event_path w) in
  let? payload := JSON_parse text in
  let? repository := Get payload (lit "repository") in
  let? repo_owner := Get repository (lit "owner") in
  Get repo_owner (lit "login").

(** An event that is no exit of the process. *)
Definition no_exit (e : event) : Prop :=
  match e with
  | ProcessExit _ => False
  | _ => True
  end.

(** An event that is no run of a command. *)
Definition no_exec (e : event) : Prop :=
  match e with
  | Exec _ => False
  | _ => True
  end.

(** The comments of one file: each carries the target path of the file. *)
Definition comments_of_file (file : File) (group : list Comment) : Prop :=
  Forall (fun c => to file = Some (path c)) group.

(** The number of commas of a text. *)
Definition commas (s : jsstring) : nat :=
  List.length (filter (N.eqb (ch ",")) s).

(** [s] does not start with white space. *)
Definition starts_clean (s : jsstring) : Prop :=
  match s with
  | c :: _ => is_trim_space c = false
  | [] => True
  end.

(** The rating of [k] hundredths as pylint prints it, with two decimals. *)
Definition two_decimals (k : Z) : jsstring :=
  decimal_digits (k / 100) ++ lit "."
  ++ decimal_digits ((k / 10) mod 10) ++ decimal_digits (k mod 10).

(** The numeral of the rating [k] is made of digits, and [toFixed(2)] of
    what [parseFloat] reads from it gives the numeral back. *)
Definition rating_prints_back (k : Z) : bool :=
  let ip := decimal_digits (k / 100) in
  let fp := decimal_digits ((k / 10) mod 10) ++ decimal_digits (k mod 10) in
  negb (is_empty ip) && negb (is_empty fp)
  && forallb is_digit ip && forallb is_digit fp
  && jsstring_eqb (toFixed 2 (parseFloat (ip ++ lit "." ++ fp)))
                  (ip ++ lit "." ++ fp).

(** [f] is the finding of the element [review] of the [reviews] array, whose
    comment is a string. *)
Definition finding_of (review : value) (f : Finding) : Prop :=
  Get review (lit "lineNumber") = Ok (lineNumber f)
  /\ exists s, wf_string s
               /\ Get review (lit "reviewComment") = Ok (VString s)
               /\ reviewComment f = VString s.

(** An event that fetches no diff. *)
Definition no_diff_fetch (e : event) : Prop :=
  match e with
  | PullsGetDiff _ _ _ | CompareCommits _ _ _ _ => False
  | _ => True
  end.

(** ** Sample collaborators, for the examples *)

(** An ASCII literal in which every apostrophe stands for a double quote. *)
Definition json_lit (s : string) : jsstring :=
  map (fun c => if (c =? c_apostrophe)%N then c_quote else c) (lit s).

Definition sample_chunk : Chunk :=
  {| chunk_content := lit "@@ -1 +1 @@";
     changes := [ {| ln := Some 1%N; ln2 := None; change_content := lit "+x = 1" |} ] |}.

Definition sample_file : File :=
  {| to := Some (lit "app.py"); chunks := [sample_chunk] |}.

Definition deleted_file : File :=
  {| to := Some (lit "/dev/null"); chunks := [sample_chunk] |}.

Definition sample_diff : list File := [deleted_file; sample_file].

(** A pull request "opened" whose diff is [sample_diff]; the model answers
    every prompt with [answer], the linter run ends as [lint] says. *)
Definition sample_world (answer : result Message)
  (lint : result (jsstring * jsstring)) : World :=
  {| input_exclude := [];
     env_GITHUB_EVENT_PATH := Some (lit "/github/workflow/event.json");
     readFileSync := fun _ =>
       Ok (json_lit "{'action':'opened','number':7,'repository':{'name':'demo','owner':{'login':'octo'}}}");
     pulls_get := fun _ _ _ _ =>
       Ok {| pr_title := Some (lit "Add x"); pr_body := None |};
     pulls_get_diff := fun _ _ _ _ => Ok (Some (lit "diff --git a/app.py b/app.py"));
     compare_commits := fun _ _ _ _ _ => Ok (lit "diff --git a/app.py b/app.py");
     issues_createComment := fun _ _ _ _ _ => Ok tt;
     pulls_createReview := fun _ _ _ _ _ _ => Ok tt;
     messages_create := fun _ _ => answer;
     glob := fun _ => Ok [lit "app.py"];
     execAsync := fun _ _ => lint;
     parseDiff := fun _ => Ok sample_diff;
     glob_match := fun _ _ => false;
     prompt_instructions := lit "Review the file ";
     prompt_after_path := lit "." |}.

Definition text_answer (text : jsstring) : result Message :=
  Ok {| content := [TextBlock text] |}.

Definition one_finding : jsstring :=
  json_lit "{'reviews':[{'lineNumber':'1','reviewComment':'Name the constant.'}]}".

Definition sample_report : jsstring :=
  lit "************* Module app" ++ [c_newline]
  ++ lit "Your code has been rated at 7.50/10 (previous run: 5.00/10, +2.50)".

Definition failing_linter : result (jsstring * jsstring) :=
  Throw (Rejected "Command failed: pylint app.py --exit-zero  --output-format=text").

(** What [sample_world] yields up to line 392 when the model answers
    [one_finding]. *)
Definition sample_prDetails : PRDetails :=
  {| owner := VString (lit "octo");
     repo := VString (lit "demo");
     pull_number := VNumber (number_of_Z 7);
     title := lit "Add x";
     description := [] |}.

Definition sample_comments : list Comment :=
  [ {| body := VString (lit "Name the constant.");
       path := lit "app.py";
       line := number_of_Z 1 |} ].

Definition sample_trace (lint : result (jsstring * jsstring)) : trace :=
  [ PullsGet (owner sample_prDetails) (repo sample_prDetails)
      (pull_number sample_prDetails);
    PullsGetDiff (owner sample_prDetails) (repo sample_prDetails)
      (pull_number sample_prDetails);
    MessagesCreate
      (createPrompt (sample_world (text_answer one_finding) lint)
         sample_file sample_chunk sample_prDetails) ].

(** A finding whose [lineNumber] is the given text. *)
Definition finding_at (lineNumber : string) : Finding :=
  {| lineNumber := VString (lit lineNumber);
     reviewComment := VString (lit "Name the constant.") |}.

(** A finding whose comment holds a raw line break: no JSON text. *)
Definition raw_newline_finding : jsstring :=
  json_lit "{'reviews':[{'lineNumber':'1','reviewComment':'Two"
  ++ [c_newline] ++ json_lit "lines.'}]}".


(** A finding without comment. *)
Definition bare_finding : jsstring :=
  json_lit "{'reviews':[{'lineNumber':'1'}]}".

(** The sample world on another event: the payload carries [action]. *)
Definition sample_world_on (action : string) : World :=
  let w := sample_world (text_answer one_finding) (Ok (sample_report, [])) in
  {| input_exclude := input_exclude w;
     env_GITHUB_EVENT_PATH := env_GITHUB_EVENT_PATH w;
     readFileSync := fun _ =>
       Ok (json_lit "{'action':'" ++ lit action
           ++ json_lit "','number':7,'repository':{'name':'demo','owner':{'login':'octo'}}}");
     pulls_get := pulls_get w;
     pulls_get_diff := pulls_get_diff w;
     compare_commits := compare_commits w;
     issues_createComment := issues_createComment w;
     pulls_createReview := pulls_createReview w;
     messages_create := messages_create w;
     glob := glob w;
     execAsync := execAsync w;
     parseDiff := parseDiff w;
     glob_match := glob_match w;
     prompt_instructions := prompt_instructions w;
     prompt_after_path := prompt_after_path w |}.

(** The model API is down. *)
Definition model_down : result Message :=
  Throw (Rejected "503 Service Unavailable").

(** A finding whose [lineNumber] is an object with a member [toString]. *)
Definition opaque_line_finding : jsstring :=
  json_lit "{'reviews':[{'lineNumber':{'toString':1},'reviewComment':'Name the constant.'}]}".

(** A response whose first block is no text. *)
Definition tool_answer : result Message :=
  Ok {| content := [OtherBlock; TextBlock one_finding] |}.

(** [w] with a host that refuses the lint comment. *)
Definition refusing_comments (w : World) : World :=
  {| input_exclude := input_exclude w;
     env_GITHUB_EVENT_PATH := env_GITHUB_EVENT_PATH w;
     readFileSync := readFileSync w;
     pulls_get := pulls_get w;
     pulls_get_diff := pulls_get_diff w;
     compare_commits := compare_commits w;
     issues_createComment := fun _ _ _ _ _ => Throw (Rejected "403 Forbidden");
     pulls_createReview := pulls_createReview w;
     messages_create := messages_create w;
     glob := glob w;
     execAsync := execAsync w;
     parseDiff := parseDiff w;
     glob_match := glob_match w;
     prompt_instructions := prompt_instructions w;
     prompt_after_path := prompt_after_path w |}.

(** The sample world with another event payload. *)
Definition sample_world_payload (payload : jsstring) : World :=
  let w := sample_world (text_answer one_finding) (Ok (sample_report, [])) in
  {| input_exclude := input_exclude w;
     env_GITHUB_EVENT_PATH := env_GITHUB_EVENT_PATH w;
     readFileSync := fun _ => Ok payload;
     pulls_get := pulls_get w;
     pulls_get_diff := pulls_get_diff w;
     compare_commits := compare_commits w;
     issues_createComment := issues_createComment w;
     pulls_createReview := pulls_createReview w;
     messages_create := messages_create w;
     glob := glob w;
     execAsync := execAsync w;
     parseDiff := parseDiff w;
     glob_match := glob_match w;
     prompt_instructions := prompt_instructions w;
     prompt_after_path := prompt_after_path w |}.

(** [w] with a host that has an empty diff for the pull request. *)
Definition without_diff (w : World) : World :=
  {| input_exclude := input_exclude w;
     env_GITHUB_EVENT_PATH := env_GITHUB_EVENT_PATH w;
     readFileSync := readFileSync w;
     pulls_get := pulls_get w;
     pulls_get_diff := fun _ _ _ _ => Ok (Some []);
     compare_commits := compare_commits w;
     issues_createComment := issues_createComment w;
     pulls_createReview := pulls_createReview w;
     messages_create := messages_create w;
     glob := glob w;
     execAsync := execAsync w;
     parseDiff := parseDiff w;
     glob_match := glob_match w;
     prompt_instructions := prompt_instructions w;
     prompt_after_path := prompt_after_path w |}.

(** [w] with a repository that holds no Python file. *)
Definition without_python (w : World) : World :=
  {| input_exclude := input_exclude w;
     env_GITHUB_EVENT_PATH := env_GITHUB_EVENT_PATH w;
     readFileSync := readFileSync w;
     pulls_get := pulls_get w;
     pulls_get_diff := pulls_get_diff w;
     compare_commits := compare_commits w;
     issues_createComment := issues_createComment w;
     pulls_createReview := pulls_createReview w;
     messages_create := messages_create w;
     glob := fun _ => Ok [];
     execAsync := execAsync w;
     parseDiff := parseDiff w;
     glob_match := glob_match w;
     prompt_instructions := prompt_instructions w;
     prompt_after_path := prompt_after_path w |}.

(** A file without target path. *)
Definition nameless_file : File := {| to := None; chunks := [sample_chunk] |}.

(** The payload of a push to the pull request. *)
Definition synchronize_payload : jsstring :=
  json_lit "{'action':'synchronize','before':'1f2e','after':'9a8b','number':7,'repository':{'name':'demo','owner':{'login':'octo'}}}".

(** A pattern of 65537 code units. *)
Definition long_pattern : jsstring :=
  N.iter 65537 (cons (ch "a")) [].

(* ================================================================== *)
(** * Part VI: lemmas and theorems *)
(* ================================================================== *)

(** ** The models of the built-ins on known values *)

Example parseFloat_rating :
  parseFloat (lit "7.50") = S754_finite false 8444249301319680 (-50).
Proof. vm_compute. reflexivity. Qed.

Example StringToNumber_values :
  map (fun s => integer_value (StringToNumber (lit s)))
      ["12"; " 12 "; "007"; "-3"; "1e3"; "0x1F"; ""; "2.5"; "12px"; "Infinity"]%string
  = [Some 12; Some 12; Some 7; Some (-3); Some 1000; Some 31; Some 0;
     None; None; None]%Z.
Proof. vm_compute. reflexivity. Qed.

Example StringToNumber_rounds_to_nearest :
  StringToNumber (lit "0.1") = S754_finite false 7205759403792794 (-56)
  /\ StringToNumber (lit "9007199254740993") = number_of_Z 9007199254740992
  /\ StringToNumber (lit "1.7976931348623159e308") = Infinity false
  /\ StringToNumber (lit "5e-324") = S754_finite false 1 (-1074)
  /\ StringToNumber (lit "2e-324") = S754_zero false.
Proof. repeat split; vm_compute; reflexivity. Qed.

Example binary64_round_agrees_with_SFdiv :
  binary64_round false 1 3
  = SFdiv 53 1024 (binary_normalize 53 1024 1 0 false)
                  (binary_normalize 53 1024 3 0 false).
Proof. vm_compute. reflexivity. Qed.

Example NumberToString_values :
  map (fun s => NumberToString (StringToNumber (lit s)))
      ["7.50"; "0.1"; "1e21"; "123456789012345680000"; "1e-7"; "0.000001";
       "-1.5"; "1e23"; "0.30000000000000004"]%string
  = map lit
      ["7.5"; "0.1"; "1e+21"; "123456789012345680000"; "1e-7"; "0.000001";
       "-1.5"; "1e+23"; "0.30000000000000004"]%string.
Proof. vm_compute. reflexivity. Qed.

Example toFixed_values :
  map (fun s => toFixed 2 (parseFloat (lit s)))
      ["7.50"; "10"; "0"; "1.005"; "0.125"; "9.999"; "1e21"]%string
  = map lit ["7.50"; "10.00"; "0.00"; "1.00"; "0.13"; "10.00"; "1e+21"]%string.
Proof. vm_compute. reflexivity. Qed.

Example JSON_parse_values :
  JSON_parse (json_lit "{'b':[1,true,null],'a':'x\u0041\n','b':2}")
  = Ok (VObject [(lit "b", VNumber (number_of_Z 2));
                 (lit "a", VString (lit "xA" ++ [c_newline]))])
  /\ JSON_parse (lit " [ ] ") = Ok (VArray [])
  /\ map JSON_parse
         [lit "not json"; []; lit "[1,]"; lit "01"; lit "1."; lit "{a:1}";
          json_lit "'a" ++ [c_newline] ++ json_lit "b'"; lit "null x"]
     = repeat (Throw SyntaxError) 8.
Proof. repeat split; vm_compute; reflexivity. Qed.

Example JSON_stringify_values :
  JSON_stringify (VObject [(lit "b", VArray [VUndefined; VNumber (Infinity false)]);
                           (lit "10", VNull); (lit "u", VUndefined);
                           (lit "2", VString [c_quote; c_tab; 1%N])])
  = Some (json_lit "{'2':'\'\t\u0001','10':null,'b':[null,null]}")
  /\ JSON_stringify VUndefined = None.
Proof. split; vm_compute; reflexivity. Qed.

Example cleanContent_escapes_every_quote :
  cleanContent (json_lit "{'reviews':[]}" ++ [c_newline])
  = lit "{\" ++ [c_quote] ++ lit "reviews\" ++ [c_quote] ++ lit ":[]}".
Proof. vm_compute. reflexivity. Qed.

Example ToNumber_values :
  ToNumber (VArray [VString (lit "5")]) = Ok (number_of_Z 5)
  /\ ToNumber (VArray []) = Ok (S754_zero false)
  /\ ToNumber (VObject []) = Ok NaN
  /\ ToNumber (VObject [(lit "toString", VNull)]) = Throw TypeError
  /\ ToNumber VUndefined = Ok NaN.
Proof. repeat split; vm_compute; reflexivity. Qed.

Example split_trim_values :
  excludePatterns (lit "*.md, dist/** ,") = [lit "*.md"; lit "dist/**"; []]
  /\ excludePatterns [] = [[]].
Proof. split; vm_compute; reflexivity. Qed.

(** ** Prefixes and runs of digits *)

Lemma prefix_of_app p s : prefix_of p (p ++ s) = Some s.
Proof.
  induction p as [|x p IH]; simpl; [reflexivity|].
  now rewrite N.eqb_refl.
Qed.

Lemma prefix_of_Some p s rest : prefix_of p s = Some rest -> s = p ++ rest.
Proof.
  revert s. induction p as [|x p IH]; intros s; simpl.
  - intros H. now injection H as ->.
  - destruct s as [|y s]; [discriminate|].
    destruct (x =? y)%N eqn:E; [|discriminate].
    apply N.eqb_eq in E. subst y. intros H. now rewrite (IH _ H).
Qed.

Lemma span_digits_app ds rest :
  forallb is_digit ds = true -> no_digit_ahead rest ->
  span_digits (ds ++ rest) = (ds, rest).
Proof.
  intros Hd Hr. induction ds as [|d ds IH]; simpl in *.
  - destruct rest as [|c rest]; [reflexivity|]. simpl in *. now rewrite Hr.
  - apply andb_true_iff in Hd as [H1 H2]. now rewrite H1, (IH H2).
Qed.

Lemma span_digits_spec s ds rest :
  span_digits s = (ds, rest) ->
  s = ds ++ rest /\ forallb is_digit ds = true.
Proof.
  revert ds rest. induction s as [|c s IH]; intros ds rest; simpl.
  - intros H. injection H as <- <-. now split.
  - destruct (is_digit c) eqn:Ec.
    + destruct (span_digits s) as [ds' r']. intros H. injection H as <- <-.
      destruct (IH _ _ eq_refl) as [-> Hd]. simpl. now rewrite Ec.
    + intros H. injection H as <- <-. now split.
Qed.

(** ** Strings through [JSON.stringify] and [JSON.parse] *)

Lemma hex_digit_value_hex_digit d :
  (d < 16)%N -> hex_digit_value (hex_digit d) = Some d.
Proof.
  intros H.
  assert (Hall : forallb (fun d => match hex_digit_value (hex_digit d) with
                                   | Some d' => (d' =? d)%N
                                   | None => false
                                   end)
                         (map N.of_nat (seq 0 16)) = true)
    by (vm_compute; reflexivity).
  rewrite forallb_forall in Hall.
  assert (Hin : In d (map N.of_nat (seq 0 16))).
  { rewrite <- (N2Nat.id d). apply in_map, in_seq. lia. }
  specialize (Hall d Hin).
  destruct (hex_digit_value (hex_digit d)) as [d'|]; [|discriminate].
  apply N.eqb_eq in Hall. now subst.
Qed.

Lemma hex4_value_unicode_escape c :
  wf_char c ->
  hex4_value (hex_digit (c / 4096)) (hex_digit ((c / 256) mod 16))
             (hex_digit ((c / 16) mod 16)) (hex_digit (c mod 16)) = Some c.
Proof.
  unfold wf_char. intros H. unfold hex4_value.
  rewrite !hex_digit_value_hex_digit;
    try (apply N.mod_lt; discriminate);
    try (apply N.Div0.div_lt_upper_bound; lia).
  f_equal.
  pose proof (N.div_mod c 16 ltac:(discriminate)) as E1.
  pose proof (N.div_mod (c / 16) 16 ltac:(discriminate)) as E2.
  pose proof (N.div_mod (c / 256) 16 ltac:(discriminate)) as E3.
  rewrite N.Div0.div_div in E2, E3.
  change (16 * 16)%N with 256%N in E2. change (256 * 16)%N with 4096%N in E3.
  rewrite (N.mul_comm (c / 4096) 16), <- E3.
  rewrite (N.mul_comm (c / 256) 16), <- E2.
  rewrite (N.mul_comm (c / 16) 16), <- E1. reflexivity.
Qed.

Lemma parse_string_chars_escape c rest :
  wf_char c ->
  parse_string_chars (unicode_escape c ++ rest)
  = map_parsed (cons c) (parse_string_chars rest).
Proof.
  intros H. unfold unicode_escape. simpl.
  now rewrite (hex4_value_unicode_escape H).
Qed.

Lemma parse_string_chars_plain c rest :
  (32 <= c)%N -> c <> c_quote -> c <> c_backslash ->
  parse_string_chars (c :: rest)
  = map_parsed (cons c) (parse_string_chars rest).
Proof.
  intros H1 H2 H3. simpl.
  destruct (N.eqb_spec c c_quote); [contradiction|].
  destruct (N.eqb_spec c c_backslash); [contradiction|].
  destruct (N.ltb_spec c 32); [lia | reflexivity].
Qed.

Lemma parse_string_chars_quote_unit c rest :
  wf_char c ->
  parse_string_chars (quote_unit c ++ rest)
  = map_parsed (cons c) (parse_string_chars rest).
Proof.
  intros H. unfold quote_unit.
  repeat match goal with
         | |- context [(c =? ?k)%N] =>
             destruct (N.eqb_spec c k); [subst c; reflexivity|]
         end.
  destruct ((c <? 32)%N || is_high_surrogate c || is_low_surrogate c) eqn:E.
  - now apply parse_string_chars_escape.
  - apply orb_false_iff in E as [E _]. apply orb_false_iff in E as [E _].
    apply N.ltb_ge in E. now apply parse_string_chars_plain.
Qed.

Lemma surrogate_plain c :
  is_high_surrogate c = true \/ is_low_surrogate c = true ->
  (32 <= c)%N /\ c <> c_quote /\ c <> c_backslash.
Proof.
  unfold is_high_surrogate, is_low_surrogate, c_quote, c_backslash.
  intros [H|H]; apply andb_true_iff in H as [H1 H2];
    apply N.leb_le in H1; lia.
Qed.

Lemma quote_chars_pair c d s :
  is_high_surrogate c = true -> is_low_surrogate d = true ->
  quote_chars (c :: d :: s) = c :: d :: quote_chars s.
Proof. intros Hc Hd. simpl. now rewrite Hc, Hd. Qed.

Lemma quote_chars_lone_high c s :
  is_high_surrogate c = true ->
  match s with d :: _ => is_low_surrogate d = false | [] => True end ->
  quote_chars (c :: s) = unicode_escape c ++ quote_chars s.
Proof.
  intros Hc Hs. simpl quote_chars at 1. rewrite Hc.
  destruct s as [|d s]; [now rewrite app_nil_r | now rewrite Hs].
Qed.

Lemma quote_chars_other c s :
  is_high_surrogate c = false ->
  quote_chars (c :: s) = quote_unit c ++ quote_chars s.
Proof. intros Hc. simpl. now rewrite Hc. Qed.

Lemma parse_string_chars_quote_chars_bounded n :
  forall s, (List.length s <= n)%nat -> wf_string s ->
  forall rest,
    parse_string_chars (quote_chars s ++ c_quote :: rest) = Parsed s rest.
Proof.
  induction n as [|n IH]; intros s Hn Hwf rest.
  - destruct s; [reflexivity | simpl in Hn; lia].
  - destruct s as [|c s]; [reflexivity|].
    inversion Hwf as [|c' s' Hc Hs]; subst. simpl in Hn.
    destruct (is_high_surrogate c) eqn:Eh.
    + destruct s as [|d s].
      * rewrite quote_chars_lone_high, <- app_assoc by easy.
        rewrite parse_string_chars_escape by assumption. reflexivity.
      * destruct (is_low_surrogate d) eqn:El.
        -- inversion Hs as [|d' s'' Hd Hs']; subst. simpl in Hn.
           destruct (surrogate_plain c (or_introl Eh)) as (C1 & C2 & C3).
           destruct (surrogate_plain d (or_intror El)) as (D1 & D2 & D3).
           rewrite quote_chars_pair by assumption.
           change ((c :: d :: quote_chars s) ++ c_quote :: rest)
             with (c :: d :: (quote_chars s ++ c_quote :: rest)).
           rewrite (parse_string_chars_plain _ C1 C2 C3).
           rewrite (parse_string_chars_plain _ D1 D2 D3).
           rewrite IH by (assumption || lia). reflexivity.
        -- rewrite quote_chars_lone_high, <- app_assoc by easy.
           rewrite parse_string_chars_escape by assumption.
           rewrite IH by (assumption || (simpl in *; lia)). reflexivity.
    + rewrite quote_chars_other, <- app_assoc by assumption.
      rewrite parse_string_chars_quote_unit by assumption.
      rewrite IH by (assumption || lia). reflexivity.
Qed.

(** Reading back what [QuoteJSONString] wrote gives the string. *)
Lemma parse_string_chars_quote_chars s :
  wf_string s ->
  forall rest,
    parse_string_chars (quote_chars s ++ c_quote :: rest) = Parsed s rest.
Proof.
  intros Hwf. now apply (parse_string_chars_quote_chars_bounded (n := List.length s)).
Qed.

Lemma parse_value_string fuel rest :
  parse_value (S fuel) (c_quote :: rest)
  = map_parsed VString (parse_string_chars rest).
Proof. reflexivity. Qed.

Lemma JSON_parse_QuoteJSONString s :
  wf_string s -> JSON_parse (QuoteJSONString s) = Ok (VString s).
Proof.
  intros H. unfold JSON_parse, parse_fuel, QuoteJSONString.
  rewrite parse_value_string, (parse_string_chars_quote_chars H).
  reflexivity.
Qed.

Lemma json_round_trip_string s :
  wf_string s -> json_round_trip (VString s) = Ok (VString s).
Proof. apply JSON_parse_QuoteJSONString. Qed.

(** C9.  The defensive pass [JSON.parse(JSON.stringify(...))] returns every
    string unchanged, whatever control characters, quotes, backslashes or
    lone surrogates it holds; hence a second pass changes nothing either,
    and a finding whose [reviewComment] is a string keeps it as it is. *)
Theorem C9_string_round_trip :
  forall s : jsstring,
    wf_string s ->
    json_round_trip (VString s) = Ok (VString s)
    /\ (let? v := json_round_trip (VString s) in json_round_trip v)
       = Ok (VString s)
    /\ (forall review n,
           Get review (lit "lineNumber") = Ok n ->
           Get review (lit "reviewComment") = Ok (VString s) ->
           sanitizeReview review
           = Ok {| lineNumber := n; reviewComment := VString s |}).
Proof.
  intros s H. pose proof (json_round_trip_string H) as R.
  split; [exact R|]. split.
  - rewrite R. simpl. exact R.
  - intros review n Hn Hc. unfold sanitizeReview.
    rewrite Hn, Hc. simpl. now rewrite R.
Qed.

(** A bell, a quote, a newline, a backslash, a lone high surrogate and [A]. *)
Lemma C9_witness :
  json_round_trip (VString [7; 34; 10; 92; 55357; 65]%N)
  = Ok (VString [7; 34; 10; 92; 55357; 65]%N).
Proof.
  apply (@C9_string_round_trip [7; 34; 10; 92; 55357; 65]%N).
  repeat constructor.
Defined.

(** ** [JSON.parse]: the fuel suffices *)

Lemma skip_ws_length s : (List.length (skip_ws s) <= List.length s)%nat.
Proof.
  induction s as [|c s IH]; simpl; [lia|].
  destruct (is_json_space c); simpl; lia.
Qed.

Lemma skip_ws_cons s c rest :
  skip_ws s = c :: rest -> (List.length rest < List.length s)%nat.
Proof.
  intros H. pose proof (skip_ws_length s) as L. rewrite H in L. simpl in L. lia.
Qed.

Lemma map_parsed_Parsed {A B : Type} (f : A -> B) p b rest :
  map_parsed f p = Parsed b rest -> exists a, p = Parsed a rest /\ b = f a.
Proof.
  destruct p; simpl; intros H; try discriminate.
  injection H as <- <-. eauto.
Qed.

Lemma parse_string_chars_cons c rest :
  parse_string_chars (c :: rest)
  = if (c =? c_quote)%N then Parsed [] rest
    else if (c =? c_backslash)%N then
      match rest with
      | [] => Malformed
      | e :: rest1 =>
          if (e =? ch "u")%N then
            match rest1 with
            | h1 :: h2 :: h3 :: h4 :: rest2 =>
                match hex4_value h1 h2 h3 h4 with
                | Some u => map_parsed (cons u) (parse_string_chars rest2)
                | None => Malformed
                end
            | _ => Malformed
            end
          else
            match unescape e with
            | Some u => map_parsed (cons u) (parse_string_chars rest1)
            | None => Malformed
            end
      end
    else if (c <? 32)%N then Malformed
    else map_parsed (cons c) (parse_string_chars rest).
Proof. reflexivity. Qed.

Lemma parse_string_chars_length s t rest :
  parse_string_chars s = Parsed t rest ->
  (List.length rest < List.length s)%nat.
Proof.
  remember (List.length s) as n eqn:Hn. revert s t rest Hn.
  induction n as [n IH] using lt_wf_ind. intros s t rest Hn H.
  destruct s as [|c s]; [discriminate|].
  rewrite parse_string_chars_cons in H. simpl in Hn.
  destruct (c =? c_quote)%N.
  { injection H as _ <-. lia. }
  destruct (c =? c_backslash)%N.
  - destruct s as [|e s1]; [discriminate|].
    destruct (e =? ch "u")%N.
    + destruct s1 as [|h1 [|h2 [|h3 [|h4 s2]]]]; try discriminate.
      destruct (hex4_value h1 h2 h3 h4); [|discriminate].
      apply map_parsed_Parsed in H as (t' & H & _).
      apply (IH (List.length s2)) in H; simpl in *; lia.
    + destruct (unescape e); [|discriminate].
      apply map_parsed_Parsed in H as (t' & H & _).
      apply (IH (List.length s1)) in H; simpl in *; lia.
  - destruct (c <? 32)%N; [discriminate|].
    apply map_parsed_Parsed in H as (t' & H & _).
    apply (IH (List.length s)) in H; simpl in *; lia.
Qed.

Lemma span_digits_length s ds rest :
  span_digits s = (ds, rest) ->
  List.length s = (List.length ds + List.length rest)%nat.
Proof.
  intros H. apply span_digits_spec in H as [-> _]. apply length_app.
Qed.

Lemma read_exponent_length s e rest :
  read_exponent s = Some (e, rest) ->
  (List.length rest < List.length s)%nat.
Proof.
  unfold read_exponent. destruct s as [|c s]; [discriminate|].
  destruct ((c =? ch "e") || (c =? ch "E"))%N; [|discriminate].
  destruct (read_sign s) as [neg r1] eqn:Es.
  destruct (span_digits r1) as [ds r2] eqn:Ed.
  destruct (is_empty ds); [discriminate|].
  intros H. injection H as _ <-.
  apply span_digits_length in Ed.
  assert (List.length r1 <= List.length s)%nat.
  { unfold read_sign in Es. destruct s as [|x s']; [now injection Es as _ <-|].
    destruct (x =? ch "-")%N; [injection Es as _ <-; simpl; lia|].
    destruct (x =? ch "+")%N; injection Es as _ <-; simpl; lia. }
  simpl. lia.
Qed.

Lemma parse_number_length s x rest :
  parse_number s = Parsed x rest ->
  (List.length rest < List.length s)%nat.
Proof.
  unfold parse_number.
  destruct (match s with
            | [] => (false, s)
            | c :: r => if (c =? ch "-")%N then (true, r) else (false, s)
            end) as [neg s1] eqn:E1.
  assert (L1 : (List.length s1 <= List.length s)%nat).
  { destruct s as [|c r]; [now injection E1 as _ <-|].
    destruct (c =? ch "-")%N; injection E1 as _ <-; simpl; lia. }
  destruct (match s1 with
            | [] => ([], s1)
            | c :: r => if (c =? ch "0")%N then ([c], r) else span_digits s1
            end) as [ip s2] eqn:E2.
  assert (L2 : (List.length s1 = List.length ip + List.length s2)%nat).
  { destruct s1 as [|c r]; [now injection E2 as <- <-|].
    destruct (c =? ch "0")%N; [injection E2 as <- <-; reflexivity|].
    now apply span_digits_length. }
  destruct ip as [|i ip]; [discriminate|]. simpl is_empty. cbv iota.
  destruct (match s2 with
            | [] => Some ([], s2)
            | c :: r =>
                if (c =? ch ".")%N
                then let (fp, r') := span_digits r in
                     if is_empty fp then None else Some (fp, r')
                else Some ([], s2)
            end) as [[fp s3]|] eqn:E3; [|discriminate].
  assert (L3 : (List.length s3 <= List.length s2)%nat).
  { destruct s2 as [|c r]; [now injection E3 as _ <-|].
    destruct (c =? ch ".")%N; [|now injection E3 as _ <-].
    destruct (span_digits r) as [fp' r'] eqn:Ef.
    destruct (is_empty fp'); [discriminate|]. injection E3 as _ <-.
    apply span_digits_length in Ef. simpl. lia. }
  simpl in L2.
  destruct s3 as [|c r3].
  - intros H. injection H as _ <-. simpl in *. lia.
  - destruct ((c =? ch "e") || (c =? ch "E"))%N.
    + destruct (read_exponent (c :: r3)) as [[e s4]|] eqn:E4; [|discriminate].
      intros H. injection H as _ <-.
      apply read_exponent_length in E4. lia.
    + intros H. injection H as _ <-. lia.
Qed.

Lemma parse_keyword_length word v s v' rest :
  parse_keyword word v s = Parsed v' rest ->
  (List.length rest <= List.length s)%nat.
Proof.
  unfold parse_keyword. destruct (prefix_of word s) as [r|] eqn:E; [|discriminate].
  intros H. injection H as _ <-. apply prefix_of_Some in E. subst s.
  rewrite length_app. lia.
Qed.

Lemma parse_value_S fuel s :
  parse_value (S fuel) s
  = match skip_ws s with
    | [] => Malformed
    | c :: rest =>
        if (c =? ch "{")%N then
          match skip_ws rest with
          | c' :: rest' =>
              if (c' =? ch "}")%N then Parsed (VObject []) rest'
              else parse_members fuel (c' :: rest') []
          | [] => Malformed
          end
        else if (c =? ch "[")%N then
          match skip_ws rest with
          | c' :: rest' =>
              if (c' =? ch "]")%N then Parsed (VArray []) rest'
              else parse_elements fuel (c' :: rest') []
          | [] => Malformed
          end
        else if (c =? c_quote)%N then
          map_parsed VString (parse_string_chars rest)
        else if (c =? ch "t")%N then parse_keyword (lit "rue") (VBool true) rest
        else if (c =? ch "f")%N then parse_keyword (lit "alse") (VBool false) rest
        else if (c =? ch "n")%N then parse_keyword (lit "ull") VNull rest
        else if ((c =? ch "-") || is_digit c)%N then
          map_parsed VNumber (parse_number (c :: rest))
        else Malformed
    end.
Proof. reflexivity. Qed.

Lemma parse_elements_S fuel s acc :
  parse_elements (S fuel) s acc
  = match parse_value fuel s with
    | Parsed v rest =>
        match skip_ws rest with
        | c :: rest' =>
            if (c =? ch ",")%N then parse_elements fuel rest' (acc ++ [v])
            else if (c =? ch "]")%N then Parsed (VArray (acc ++ [v])) rest'
            else Malformed
        | [] => Malformed
        end
    | Malformed => Malformed
    | OutOfFuel => OutOfFuel
    end.
Proof. reflexivity. Qed.

Lemma parse_members_S fuel s acc :
  parse_members (S fuel) s acc
  = match skip_ws s with
    | c :: rest =>
        if (c =? c_quote)%N then
          match parse_string_chars rest with
          | Parsed key rest1 =>
              match skip_ws rest1 with
              | c1 :: rest2 =>
                  if (c1 =? ch ":")%N then
                    match parse_value fuel rest2 with
                    | Parsed v rest3 =>
                        match skip_ws rest3 with
                        | c3 :: rest4 =>
                            if (c3 =? ch ",")%N then
                              parse_members fuel rest4 (set_property key v acc)
                            else if (c3 =? ch "}")%N then
                              Parsed (VObject (set_property key v acc)) rest4
                            else Malformed
                        | [] => Malformed
                        end
                    | Malformed => Malformed
                    | OutOfFuel => OutOfFuel
                    end
                  else Malformed
              | [] => Malformed
              end
          | Malformed => Malformed
          | OutOfFuel => OutOfFuel
          end
        else Malformed
    | [] => Malformed
    end.
Proof. reflexivity. Qed.

(** Whatever the parser accepts, it has read at least one code unit. *)
Lemma parse_consumes fuel :
  (forall s v rest,
      parse_value fuel s = Parsed v rest ->
      (List.length rest < List.length s)%nat)
  /\ (forall s acc v rest,
         parse_elements fuel s acc = Parsed v rest ->
         (List.length rest < List.length s)%nat)
  /\ (forall s acc v rest,
         parse_members fuel s acc = Parsed v rest ->
         (List.length rest < List.length s)%nat).
Proof.
  induction fuel as [|fuel (IHv & IHe & IHm)].
  { repeat split; intros; discriminate. }
  split; [|split].
  - intros s v rest H. rewrite parse_value_S in H.
    destruct (skip_ws s) as [|c r] eqn:Es; [discriminate|].
    apply skip_ws_cons in Es.
    destruct (c =? ch "{")%N.
    { destruct (skip_ws r) as [|c' r'] eqn:Er; [discriminate|].
      pose proof (skip_ws_length r) as L. rewrite Er in L.
      destruct (c' =? ch "}")%N.
      - injection H as _ <-. simpl in L. lia.
      - apply IHm in H. lia. }
    destruct (c =? ch "[")%N.
    { destruct (skip_ws r) as [|c' r'] eqn:Er; [discriminate|].
      pose proof (skip_ws_length r) as L. rewrite Er in L.
      destruct (c' =? ch "]")%N.
      - injection H as _ <-. simpl in L. lia.
      - apply IHe in H. lia. }
    destruct (c =? c_quote)%N.
    { apply map_parsed_Parsed in H as (t & H & _).
      apply parse_string_chars_length in H. lia. }
    destruct (c =? ch "t")%N; [apply parse_keyword_length in H; lia|].
    destruct (c =? ch "f")%N; [apply parse_keyword_length in H; lia|].
    destruct (c =? ch "n")%N; [apply parse_keyword_length in H; lia|].
    destruct ((c =? ch "-") || is_digit c)%N; [|discriminate].
    apply map_parsed_Parsed in H as (x & H & _).
    apply parse_number_length in H. simpl in H. lia.
  - intros s acc v rest H. rewrite parse_elements_S in H.
    destruct (parse_value fuel s) as [v1 r1| |] eqn:Ev; try discriminate.
    apply IHv in Ev.
    destruct (skip_ws r1) as [|c r2] eqn:Es; [discriminate|].
    apply skip_ws_cons in Es.
    destruct (c =? ch ",")%N; [apply IHe in H; lia|].
    destruct (c =? ch "]")%N; [|discriminate].
    injection H as _ <-. lia.
  - intros s acc v rest H. rewrite parse_members_S in H.
    destruct (skip_ws s) as [|c r] eqn:Es; [discriminate|].
    apply skip_ws_cons in Es.
    destruct (c =? c_quote)%N; [|discriminate].
    destruct (parse_string_chars r) as [key r1| |] eqn:Ek; try discriminate.
    apply parse_string_chars_length in Ek.
    destruct (skip_ws r1) as [|c1 r2] eqn:E1; [discriminate|].
    apply skip_ws_cons in E1.
    destruct (c1 =? ch ":")%N; [|discriminate].
    destruct (parse_value fuel r2) as [v1 r3| |] eqn:Ev; try discriminate.
    apply IHv in Ev.
    destruct (skip_ws r3) as [|c3 r4] eqn:E3; [discriminate|].
    apply skip_ws_cons in E3.
    destruct (c3 =? ch ",")%N; [apply IHm in H; lia|].
    destruct (c3 =? ch "}")%N; [|discriminate].
    injection H as _ <-. lia.
Qed.

Lemma map_parsed_OutOfFuel {A B : Type} (f : A -> B) p :
  map_parsed f p = OutOfFuel -> p = OutOfFuel.
Proof. destruct p; simpl; intros H; try discriminate; reflexivity. Qed.

Lemma parse_string_chars_fuel s : parse_string_chars s <> OutOfFuel.
Proof.
  remember (List.length s) as n eqn:Hn. revert s Hn.
  induction n as [n IH] using lt_wf_ind. intros s Hn.
  destruct s as [|c s]; [discriminate|].
  rewrite parse_string_chars_cons. simpl in Hn.
  destruct (c =? c_quote)%N; [discriminate|].
  destruct (c =? c_backslash)%N.
  - destruct s as [|e s1]; [discriminate|].
    destruct (e =? ch "u")%N.
    + destruct s1 as [|h1 [|h2 [|h3 [|h4 s2]]]]; try discriminate.
      destruct (hex4_value h1 h2 h3 h4); [|discriminate].
      intros H. apply map_parsed_OutOfFuel in H. revert H.
      apply (IH (List.length s2)); simpl in *; lia.
    + destruct (unescape e); [|discriminate].
      intros H. apply map_parsed_OutOfFuel in H. revert H.
      apply (IH (List.length s1)); simpl in *; lia.
  - destruct (c <? 32)%N; [discriminate|].
    intros H. apply map_parsed_OutOfFuel in H. revert H.
    apply (IH (List.length s)); simpl in *; lia.
Qed.

Lemma parse_number_fuel s : parse_number s <> OutOfFuel.
Proof.
  unfold parse_number.
  repeat match goal with
         | |- context [match ?x with _ => _ end] => destruct x
         | |- context [if ?b then _ else _] => destruct b
         end; discriminate.
Qed.

Lemma parse_keyword_fuel word v s : parse_keyword word v s <> OutOfFuel.
Proof. unfold parse_keyword. destruct (prefix_of word s); discriminate. Qed.

(** With fuel above twice the length of the text, the parser never stops
    for lack of fuel. *)
Lemma parse_never_out_of_fuel fuel :
  (forall s, (2 * List.length s < fuel)%nat -> parse_value fuel s <> OutOfFuel)
  /\ (forall s acc, (2 * List.length s + 1 < fuel)%nat ->
                    parse_elements fuel s acc <> OutOfFuel)
  /\ (forall s acc, (2 * List.length s + 1 < fuel)%nat ->
                    parse_members fuel s acc <> OutOfFuel).
Proof.
  induction fuel as [|fuel (IHv & IHe & IHm)].
  { repeat split; intros; lia. }
  destruct (parse_consumes fuel) as (Cv & _ & _).
  split; [|split].
  - intros s Hs. rewrite parse_value_S.
    destruct (skip_ws s) as [|c r] eqn:Es; [discriminate|].
    apply skip_ws_cons in Es.
    destruct (c =? ch "{")%N.
    { destruct (skip_ws r) as [|c' r'] eqn:Er; [discriminate|].
      pose proof (skip_ws_length r) as L. rewrite Er in L.
      destruct (c' =? ch "}")%N; [discriminate|]. apply IHm. lia. }
    destruct (c =? ch "[")%N.
    { destruct (skip_ws r) as [|c' r'] eqn:Er; [discriminate|].
      pose proof (skip_ws_length r) as L. rewrite Er in L.
      destruct (c' =? ch "]")%N; [discriminate|]. apply IHe. lia. }
    destruct (c =? c_quote)%N.
    { intros H. apply map_parsed_OutOfFuel in H.
      now apply parse_string_chars_fuel in H. }
    destruct (c =? ch "t")%N; [apply parse_keyword_fuel|].
    destruct (c =? ch "f")%N; [apply parse_keyword_fuel|].
    destruct (c =? ch "n")%N; [apply parse_keyword_fuel|].
    destruct ((c =? ch "-") || is_digit c)%N; [|discriminate].
    intros H. apply map_parsed_OutOfFuel in H.
    now apply parse_number_fuel in H.
  - intros s acc Hs. rewrite parse_elements_S.
    destruct (parse_value fuel s) as [v1 r1| |] eqn:Ev.
    + apply Cv in Ev.
      destruct (skip_ws r1) as [|c r2] eqn:Es; [discriminate|].
      apply skip_ws_cons in Es.
      destruct (c =? ch ",")%N; [apply IHe; lia|].
      destruct (c =? ch "]")%N; discriminate.
    + discriminate.
    + exfalso. revert Ev. apply IHv. lia.
  - intros s acc Hs. rewrite parse_members_S.
    destruct (skip_ws s) as [|c r] eqn:Es; [discriminate|].
    apply skip_ws_cons in Es.
    destruct (c =? c_quote)%N; [|discriminate].
    destruct (parse_string_chars r) as [key r1| |] eqn:Ek; [|discriminate|].
    + apply parse_string_chars_length in Ek.
      destruct (skip_ws r1) as [|c1 r2] eqn:E1; [discriminate|].
      apply skip_ws_cons in E1.
      destruct (c1 =? ch ":")%N; [|discriminate].
      destruct (parse_value fuel r2) as [v1 r3| |] eqn:Ev.
      * apply Cv in Ev.
        destruct (skip_ws r3) as [|c3 r4] eqn:E3; [discriminate|].
        apply skip_ws_cons in E3.
        destruct (c3 =? ch ",")%N; [apply IHm; lia|].
        destruct (c3 =? ch "}")%N; discriminate.
      * discriminate.
      * exfalso. revert Ev. apply IHv. lia.
    + now apply parse_string_chars_fuel in Ek.
Qed.

(** [JSON.parse] therefore raises its SyntaxError only on a text that is no
    JSON text: [parse_fuel] is enough for every text. *)
Lemma parse_value_fuel text :
  parse_value (parse_fuel text) text <> OutOfFuel.
Proof.
  destruct (parse_never_out_of_fuel (parse_fuel text)) as [H _].
  apply H. unfold parse_fuel. lia.
Qed.

(** More fuel changes nothing: what the parser accepts or rejects with some
    fuel, it accepts or rejects the same way with more. *)
Lemma parse_fuel_monotone fuel :
  (forall s extra, parse_value fuel s <> OutOfFuel ->
                   parse_value (fuel + extra) s = parse_value fuel s)
  /\ (forall s acc extra, parse_elements fuel s acc <> OutOfFuel ->
                          parse_elements (fuel + extra) s acc
                          = parse_elements fuel s acc)
  /\ (forall s acc extra, parse_members fuel s acc <> OutOfFuel ->
                          parse_members (fuel + extra) s acc
                          = parse_members fuel s acc).
Proof.
  induction fuel as [|fuel (IHv & IHe & IHm)].
  { repeat split; intros; simpl in *; congruence. }
  split; [|split].
  - intros s extra. change (S fuel + extra)%nat with (S (fuel + extra)).
    rewrite !parse_value_S.
    destruct (skip_ws s) as [|c r]; [reflexivity|].
    destruct (c =? ch "{")%N.
    { destruct (skip_ws r) as [|c' r']; [reflexivity|].
      destruct (c' =? ch "}")%N; [reflexivity|]. apply IHm. }
    destruct (c =? ch "[")%N; [|reflexivity].
    destruct (skip_ws r) as [|c' r']; [reflexivity|].
    destruct (c' =? ch "]")%N; [reflexivity|]. apply IHe.
  - intros s acc extra. change (S fuel + extra)%nat with (S (fuel + extra)).
    rewrite !parse_elements_S.
    destruct (parse_value fuel s) as [v1 r1| |] eqn:Ev.
    + rewrite IHv, Ev by congruence.
      destruct (skip_ws r1) as [|c r2]; [reflexivity|].
      destruct (c =? ch ",")%N; [apply IHe|]. reflexivity.
    + rewrite IHv, Ev by congruence. reflexivity.
    + congruence.
  - intros s acc extra. change (S fuel + extra)%nat with (S (fuel + extra)).
    rewrite !parse_members_S.
    destruct (skip_ws s) as [|c r]; [reflexivity|].
    destruct (c =? c_quote)%N; [|reflexivity].
    destruct (parse_string_chars r) as [key r1| |]; try reflexivity.
    destruct (skip_ws r1) as [|c1 r2]; [reflexivity|].
    destruct (c1 =? ch ":")%N; [|reflexivity].
    destruct (parse_value fuel r2) as [v1 r3| |] eqn:Ev.
    + rewrite IHv, Ev by congruence.
      destruct (skip_ws r3) as [|c3 r4]; [reflexivity|].
      destruct (c3 =? ch ",")%N; [apply IHm|]. reflexivity.
    + rewrite IHv, Ev by congruence. reflexivity.
    + congruence.
Qed.

(** ** Integers as numbers *)

Local Open Scope Z_scope.

Lemma round_half_even_1 a : round_half_even a 1 = a.
Proof.
  unfold round_half_even. rewrite Z.div_1_r, Z.mod_1_r. reflexivity.
Qed.

(** Integers below [2^53] are binary64 values: rounding keeps them. *)
Lemma binary64_round_integer n :
  0 < n < 2 ^ 53 ->
  integer_value (binary64_round false n 1) = Some n.
Proof.
  intros [Hpos Hlt].
  pose proof (Z.log2_spec n Hpos) as [Hlo Hhi].
  pose proof (Z.log2_nonneg n) as Hl0.
  assert (Hl : Z.log2 n <= 52).
  { assert (Z.log2 n < 53); [|lia].
    apply Z.log2_lt_pow2; assumption. }
  unfold binary64_round.
  destruct (Z.leb_spec n 0) as [|_]; [lia|].
  assert (He : floor_log2_ratio n 1 = Z.log2 n).
  { unfold floor_log2_ratio. change (Z.log2 1) with 0. rewrite Z.sub_0_r.
    destruct (Z.leb_spec 0 (Z.log2 n)) as [_|]; [|lia].
    destruct (Z.leb_spec (1 * 2 ^ Z.log2 n) n) as [_|]; [reflexivity | lia]. }
  rewrite He.
  rewrite Z.max_l by lia.
  set (l := Z.log2 n) in *.
  assert (Hm : (if 0 <=? l - 52 then round_half_even n (1 * 2 ^ (l - 52))
                else round_half_even (n * 2 ^ (- (l - 52))) 1)
               = n * 2 ^ (52 - l)).
  { destruct (Z.leb_spec 0 (l - 52)).
    - replace l with 52 by lia. simpl (2 ^ (52 - 52)). simpl (1 * 2 ^ (52 - 52)).
      rewrite round_half_even_1. lia.
    - rewrite round_half_even_1. f_equal. f_equal. lia. }
  rewrite Hm.
  assert (Hp : 0 < 2 ^ (52 - l)) by (apply Z.pow_pos_nonneg; lia).
  assert (Hmpos : 0 < n * 2 ^ (52 - l)) by lia.
  assert (Hmlt : n * 2 ^ (52 - l) < 2 ^ 53).
  { replace (2 ^ 53) with (2 ^ (l + 1) * 2 ^ (52 - l)).
    - apply Z.mul_lt_mono_pos_r; [exact Hp|]. replace (l + 1) with (Z.succ l) by lia.
      exact Hhi.
    - rewrite <- Z.pow_add_r by lia. f_equal. lia. }
  destruct (Z.eqb_spec (n * 2 ^ (52 - l)) 0) as [|_]; [lia|].
  destruct (Z.eqb_spec (n * 2 ^ (52 - l)) (2 ^ 53)) as [|_]; [lia|].
  destruct (Z.ltb_spec 971 (l - 52)) as [|_]; [lia|].
  unfold integer_value.
  rewrite Z2Pos.id by exact Hmpos.
  destruct (Z.leb_spec 0 (l - 52)).
  - replace l with 52 by lia. simpl (2 ^ (52 - 52)). simpl (2 ^ (52 - 52)).
    f_equal. lia.
  - replace (- (l - 52)) with (52 - l) by lia.
    rewrite Z.mod_mul by lia. simpl (0 =? 0).
    rewrite Z.div_mul by lia. f_equal. lia.
Qed.

Local Close Scope Z_scope.

(** A property of the ten digits, checked on each of them. *)
Lemma digit_forall (Q : char16 -> bool) :
  forallb Q (map N.of_nat (seq 48 10)) = true ->
  forall c, is_digit c = true -> Q c = true.
Proof.
  intros Hall c Hc. rewrite forallb_forall in Hall. apply Hall.
  unfold is_digit in Hc. apply andb_true_iff in Hc as [H1 H2].
  apply N.leb_le in H1, H2.
  rewrite <- (N2Nat.id c). apply in_map, in_seq. unfold char16 in *. lia.
Qed.

Lemma trimStart_head c s :
  is_trim_space c = false -> trimStart (c :: s) = c :: s.
Proof. intros H. simpl. now rewrite H. Qed.

Lemma digit_not_space c : is_digit c = true -> is_trim_space c = false.
Proof.
  intros H. apply negb_true_iff.
  now apply (digit_forall (fun c => negb (is_trim_space c))).
Qed.

Lemma trim_digits ds : forallb is_digit ds = true -> trim ds = ds.
Proof.
  intros H. unfold trim, trimEnd.
  assert (Hs : forall s, forallb is_digit s = true -> trimStart s = s).
  { intros [|c s] Hd; [reflexivity|]. simpl in Hd.
    apply andb_true_iff in Hd as [Hc _].
    apply trimStart_head. now apply digit_not_space. }
  rewrite (Hs ds H), Hs, rev_involutive; [reflexivity|].
  rewrite forallb_forall in *. intros x Hx. apply H. now apply in_rev.
Qed.

Lemma read_non_decimal_digits ds :
  forallb is_digit ds = true -> read_non_decimal ds = None.
Proof.
  intros H. destruct ds as [|z [|p [|x r]]]; try reflexivity.
  simpl in H. apply andb_true_iff in H as [_ H].
  apply andb_true_iff in H as [Hp _].
  unfold read_non_decimal.
  destruct (z =? ch "0")%N; [|reflexivity].
  pose proof (digit_forall
                (fun p => negb ((p =? ch "x") || (p =? ch "X") || (p =? ch "o")
                                || (p =? ch "O") || (p =? ch "b")
                                || (p =? ch "B"))%N) eq_refl p Hp) as Hq.
  apply negb_true_iff in Hq. repeat (apply orb_false_iff in Hq as [Hq ?]).
  repeat match goal with E : (_ =? _)%N = false |- _ => rewrite E; clear E end.
  reflexivity.
Qed.

Lemma read_decimal_literal_digits ds :
  ds <> [] -> forallb is_digit ds = true ->
  read_decimal_literal ds
  = Some (binary64_round false (decimal_value ds) 1, []).
Proof.
  intros Hne H. destruct ds as [|c r]; [contradiction|].
  assert (Hc : is_digit c = true) by (simpl in H; now apply andb_true_iff in H).
  pose proof (digit_forall
                (fun c => negb ((c =? ch "-") || (c =? ch "+")
                                || (ch "I" =? c))%N) eq_refl c Hc) as Hq.
  apply negb_true_iff in Hq. repeat (apply orb_false_iff in Hq as [Hq ?]).
  unfold read_decimal_literal, read_sign.
  repeat match goal with E : (_ =? _)%N = false |- _ => rewrite E end.
  change (prefix_of (lit "Infinity") (c :: r))
    with (if (ch "I" =? c)%N then prefix_of (lit "nfinity") r else None).
  rewrite H0.
  unfold read_unsigned_decimal.
  rewrite <- (app_nil_r (c :: r)) at 1.
  rewrite (span_digits_app (c :: r) [] H I).
  cbv iota beta. simpl is_empty. cbv iota. simpl andb. cbv iota.
  rewrite app_nil_r. simpl read_exponent. cbv iota.
  unfold decimal_to_number. simpl List.length. simpl Z.of_nat.
  simpl (0 <=? - 0)%Z. cbv iota. simpl (10 ^ (- 0))%Z.
  now rewrite Z.mul_1_r.
Qed.

(** The number a run of decimal digits converts to: its value, rounded. *)
Lemma StringToNumber_digits ds :
  ds <> [] -> forallb is_digit ds = true ->
  StringToNumber ds = binary64_round false (decimal_value ds) 1.
Proof.
  intros Hne H. unfold StringToNumber. rewrite (trim_digits ds H).
  destruct ds as [|c r] eqn:E; [contradiction|]. rewrite <- E in *.
  rewrite (read_non_decimal_digits ds H).
  rewrite (read_decimal_literal_digits Hne H). now rewrite E.
Qed.

(** ** The model client adapter *)

Lemma parseWithRecovery_direct content v tr :
  JSON_parse content = Ok v ->
  parseWithRecovery content tr = (Ok (Some v), tr).
Proof.
  intros H. unfold parseWithRecovery. run_monad. now rewrite H.
Qed.

Lemma parseWithRecovery_recovered content e v tr :
  JSON_parse content = Throw e ->
  JSON_parse (cleanContent content) = Ok v ->
  parseWithRecovery content tr
  = (Ok (Some v),
     (tr ++ [ConsoleError "Error parsing initial JSON:"])
     ++ [ConsoleLog "Cleaned content:"]).
Proof.
  intros H1 H2. unfold parseWithRecovery. run_monad. now rewrite H1, H2.
Qed.

Lemma parseWithRecovery_failed content e1 e2 tr :
  JSON_parse content = Throw e1 ->
  JSON_parse (cleanContent content) = Throw e2 ->
  fst (parseWithRecovery content tr) = Ok None.
Proof.
  intros H1 H2. unfold parseWithRecovery. run_monad. now rewrite H1, H2.
Qed.

(** What [parseWithRecovery] hands on: the value of the first parse that
    succeeds. *)
Lemma parseWithRecovery_fst content tr :
  fst (parseWithRecovery content tr)
  = Ok match JSON_parse content with
       | Ok v => Some v
       | Throw _ =>
           match JSON_parse (cleanContent content) with
           | Ok v => Some v
           | Throw _ => None
           end
       end.
Proof.
  unfold parseWithRecovery. run_monad.
  destruct (JSON_parse content); [reflexivity|].
  destruct (JSON_parse (cleanContent content)); reflexivity.
Qed.

Lemma extractReviews_fst parsedContent tr :
  match fst (extractReviews parsedContent tr) with
  | Ok r => r
  | Throw _ => None
  end = reviewsOf parsedContent.
Proof.
  unfold extractReviews, reviewsOf. run_monad.
  destruct (Get parsedContent (lit "reviews")) as [reviews|]; [|reflexivity].
  destruct reviews as [ | |b|x|s|elements|props]; simpl;
    rewrite ?orb_true_r; try reflexivity.
  destruct (mapR sanitizeReview elements); reflexivity.
Qed.

(** The outer [catch] turns every exception of the body into [null]. *)
Lemma getAIResponse_returns w prompt tr :
  exists r tr', getAIResponse w prompt tr = (Ok r, tr').
Proof.
  unfold getAIResponse, try_catch.
  match goal with
  | |- context [match ?body with _ => _ end] => destruct body as [[r|e] tr']
  end.
  - now exists r, tr'.
  - run_monad. eauto.
Qed.

Lemma getAIResponse_rejected w prompt tr e :
  messages_create w tr prompt = Throw e ->
  fst (getAIResponse w prompt tr) = Ok None.
Proof.
  intros H. unfold getAIResponse. run_monad. now rewrite H.
Qed.

(** The answer of [getAIResponse] for a response whose first block holds
    [content]. *)
Lemma getAIResponse_fst w prompt tr response content :
  messages_create w tr prompt = Ok response ->
  first_text response = Ok content ->
  fst (getAIResponse w prompt tr)
  = Ok match JSON_parse content with
       | Ok v => reviewsOf v
       | Throw _ =>
           match JSON_parse (cleanContent content) with
           | Ok v => reviewsOf v
           | Throw _ => None
           end
       end.
Proof.
  intros Hr Hc. unfold getAIResponse, try_catch, bind at 1, call.
  rewrite Hr. unfold bind at 1, lift. rewrite Hc.
  unfold bind at 1.
  pose proof (parseWithRecovery_fst content (tr ++ [MessagesCreate prompt])) as Hp.
  destruct (parseWithRecovery content (tr ++ [MessagesCreate prompt]))
    as [[parsed|e] tr1]; simpl in Hp; [|discriminate].
  injection Hp as ->.
  assert (Hx : forall v,
             fst (let (r, tr') := extractReviews v tr1 in
                  match r with
                  | Ok a => (Ok a, tr')
                  | Throw e =>
                      (console_error "Error in API call or processing:" ;;
                       console_error "Error message:" ;;
                       console_error "Error stack:" ;;
                       ret None)%monad tr'
                  end) = Ok (reviewsOf v)).
  { intros v. rewrite <- (extractReviews_fst v tr1).
    destruct (extractReviews v tr1) as [[r|e] tr2]; reflexivity. }
  destruct (JSON_parse content) as [v|e1].
  - apply (Hx v).
  - destruct (JSON_parse (cleanContent content)) as [v|e2].
    + apply (Hx v).
    + reflexivity.
Qed.

(** C2.  [getAIResponse] always returns: whatever the model API and the
    parsers do, no exception leaves it.  It returns [null] when the network
    call throws, when the text fails both the direct parse and the parse of
    the cleaned text, and when the parsed value has no [reviews] array. *)
Theorem C2_adapter_never_throws :
  forall (w : World) (prompt : jsstring) (tr : trace),
    (exists r tr', getAIResponse w prompt tr = (Ok r, tr'))
    /\ (forall e,
           messages_create w tr prompt = Throw e ->
           fst (getAIResponse w prompt tr) = Ok None)
    /\ (forall response content,
           messages_create w tr prompt = Ok response ->
           first_text response = Ok content ->
           (forall e1 e2,
               JSON_parse content = Throw e1 ->
               JSON_parse (cleanContent content) = Throw e2 ->
               fst (getAIResponse w prompt tr) = Ok None)
           /\ (forall parsedContent,
                  JSON_parse content = Ok parsedContent
                  \/ (exists e, JSON_parse content = Throw e
                                /\ JSON_parse (cleanContent content)
                                   = Ok parsedContent) ->
                  (forall elements,
                      Get parsedContent (lit "reviews") <> Ok (VArray elements)) ->
                  fst (getAIResponse w prompt tr) = Ok None)).
Proof.
  intros w prompt tr. split; [apply getAIResponse_returns|].
  split; [intros e; apply getAIResponse_rejected|].
  intros response content Hr Hc.
  rewrite (getAIResponse_fst _ _ _ Hr Hc). split.
  - intros e1 e2 -> ->. reflexivity.
  - intros v Hv Hno.
    assert (Hnone : reviewsOf v = None).
    { unfold reviewsOf.
      destruct (Get v (lit "reviews")) as [[ | | | | |elements| ]|]; try reflexivity.
      now destruct (Hno elements). }
    destruct Hv as [-> | (e & -> & ->)]; now rewrite Hnone.
Qed.

(** Scenario C of the specification: the model answers [not json]. *)
Lemma C2_not_json_witness :
  fst (getAIResponse (sample_world (text_answer (lit "not json")) (Ok ([], [])))
         (lit "prompt") []) = Ok None.
Proof.
  destruct (C2_adapter_never_throws
              (sample_world (text_answer (lit "not json")) (Ok ([], [])))
              (lit "prompt") []) as (_ & _ & H).
  destruct (H {| content := [TextBlock (lit "not json")] |} (lit "not json")
              eq_refl eq_refl) as [H1 _].
  apply (H1 SyntaxError SyntaxError); vm_compute; reflexivity.
Defined.

(** ** The recovery pass

    [cleanContent] puts a backslash before every double quote.  A backslash
    is no part of JSON outside a string literal, and no string literal can
    start at a quote that follows one: the cleaned text parses only when it
    holds no string at all, and such a value has no [reviews] array. *)

Lemma guarded_any_prev s prev prev' :
  prev <> c_backslash -> guarded prev s = true -> guarded prev' s = true.
Proof.
  destruct s as [|c s]; [reflexivity|]. simpl. intros Hp H.
  apply andb_true_iff in H as [H1 H2]. rewrite H2, andb_true_r.
  apply orb_true_iff in H1 as [H1 | H1]; [now rewrite H1|].
  apply N.eqb_eq in H1. contradiction.
Qed.

Lemma plain_head c s : plain (c :: s) -> c <> c_quote.
Proof.
  unfold plain. simpl. intros H. apply andb_true_iff in H as [H _].
  rewrite orb_false_r in H. apply negb_true_iff, N.eqb_neq in H. exact H.
Qed.

Lemma plain_tail c s : plain (c :: s) -> c <> c_backslash -> plain s.
Proof.
  unfold plain. simpl. intros H Hc. apply andb_true_iff in H as [_ H].
  exact (@guarded_any_prev s c 0%N Hc H).
Qed.

Lemma plain_drop pre rest :
  Forall (fun c => c <> c_backslash) pre -> plain (pre ++ rest) -> plain rest.
Proof.
  induction 1 as [|c pre Hc _ IH]; [trivial|]. simpl. intros H.
  apply IH. now apply (plain_tail H).
Qed.

Lemma replace_class_cons cls r c s :
  replace_class cls r (c :: s)
  = if cls c then r ++ replace_class cls r s else c :: replace_class cls r s.
Proof. reflexivity. Qed.

Lemma guarded_escape_quotes s prev :
  guarded prev (replace_class (N.eqb c_quote) [c_backslash; c_quote] s) = true.
Proof.
  revert prev. induction s as [|c s IH]; intros prev; [reflexivity|].
  rewrite replace_class_cons. destruct (N.eqb_spec c_quote c) as [<-|Hc].
  - simpl. apply IH.
  - change (guarded prev (c :: ?x))
      with ((negb (c =? c_quote) || (prev =? c_backslash))%N && guarded c x).
    rewrite IH, andb_true_r.
    destruct (N.eqb_spec c c_quote) as [->|_]; [contradiction | reflexivity].
Qed.

Lemma replace_pair_cons2 a b r c d s :
  replace_pair a b r (c :: d :: s)
  = if ((c =? a) && (d =? b))%N then r ++ replace_pair a b r s
    else c :: replace_pair a b r (d :: s).
Proof. reflexivity. Qed.

Lemma guarded_cons prev c s :
  guarded prev (c :: s)
  = ((negb (c =? c_quote) || (prev =? c_backslash))%N && guarded c s).
Proof. reflexivity. Qed.

Lemma guarded_replace_pair_bounded n :
  forall s prev,
    (List.length s <= n)%nat ->
    guarded prev s = true ->
    guarded prev (replace_pair c_backslash c_apostrophe [c_apostrophe] s) = true.
Proof.
  induction n as [|n IH]; intros s prev Hn H.
  - destruct s; [reflexivity | simpl in Hn; lia].
  - destruct s as [|c [|d s]]; [reflexivity | exact H |].
    simpl in Hn. rewrite replace_pair_cons2.
    rewrite guarded_cons in H. apply andb_true_iff in H as [Hc H].
    destruct ((c =? c_backslash) && (d =? c_apostrophe))%N eqn:E.
    + apply andb_true_iff in E as [_ Ed]. apply N.eqb_eq in Ed. subst d.
      rewrite guarded_cons in H. apply andb_true_iff in H as [_ H].
      change ([c_apostrophe] ++ ?x) with (c_apostrophe :: x).
      rewrite guarded_cons. apply andb_true_iff. split; [reflexivity|].
      apply IH; [lia | exact H].
    + rewrite guarded_cons, Hc. apply IH; [simpl; lia | exact H].
Qed.

Lemma plain_cleanContent content : plain (cleanContent content).
Proof.
  unfold plain, cleanContent.
  eapply guarded_replace_pair_bounded; [apply le_n|].
  apply guarded_escape_quotes.
Qed.

Lemma plain_skip_ws s : plain s -> plain (skip_ws s).
Proof.
  induction s as [|c s IH]; [trivial|]. simpl. intros H.
  destruct (is_json_space c) eqn:E; [|exact H].
  apply IH, (plain_tail H). intros ->. discriminate.
Qed.

Lemma digits_no_backslash ds :
  forallb is_digit ds = true -> Forall (fun c => c <> c_backslash) ds.
Proof.
  intros H. rewrite forallb_forall in H. apply Forall_forall.
  intros c Hc ->. specialize (H _ Hc). discriminate.
Qed.

Lemma span_digits_consumed s ds rest :
  span_digits s = (ds, rest) ->
  s = ds ++ rest /\ Forall (fun c => c <> c_backslash) ds.
Proof.
  intros H. apply span_digits_spec in H as [-> H].
  split; [reflexivity | now apply digits_no_backslash].
Qed.

Lemma read_sign_consumed s neg rest :
  read_sign s = (neg, rest) ->
  exists pre, s = pre ++ rest /\ Forall (fun c => c <> c_backslash) pre.
Proof.
  unfold read_sign. destruct s as [|c s].
  - intros H. injection H as _ <-. now exists [].
  - destruct (N.eqb_spec c (ch "-")) as [->|_].
    { intros H. injection H as _ <-. exists [ch "-"].
      split; [reflexivity|]. repeat constructor. discriminate. }
    destruct (N.eqb_spec c (ch "+")) as [->|_].
    { intros H. injection H as _ <-. exists [ch "+"].
      split; [reflexivity|]. repeat constructor. discriminate. }
    intros H. injection H as _ <-. now exists [].
Qed.

Lemma read_exponent_consumed s e rest :
  read_exponent s = Some (e, rest) ->
  exists pre, s = pre ++ rest /\ Forall (fun c => c <> c_backslash) pre.
Proof.
  unfold read_exponent. destruct s as [|c s]; [discriminate|].
  destruct ((c =? ch "e") || (c =? ch "E"))%N eqn:Ec; [|discriminate].
  destruct (read_sign s) as [neg r1] eqn:Es.
  destruct (span_digits r1) as [ds r2] eqn:Ed.
  destruct (is_empty ds); [discriminate|].
  intros H. injection H as _ <-.
  apply read_sign_consumed in Es as (p1 & -> & F1).
  apply span_digits_consumed in Ed as (-> & F2).
  exists (c :: p1 ++ ds). split; [simpl; now rewrite <- app_assoc|].
  constructor; [|apply Forall_app; now split].
  intros ->. discriminate.
Qed.

(** A number token holds no backslash. *)
Lemma parse_number_consumed s x rest :
  parse_number s = Parsed x rest ->
  exists pre, s = pre ++ rest /\ Forall (fun c => c <> c_backslash) pre.
Proof.
  unfold parse_number.
  destruct (match s with
            | [] => (false, s)
            | c :: r => if (c =? ch "-")%N then (true, r) else (false, s)
            end) as [neg s1] eqn:E1.
  assert (L1 : exists p1, s = p1 ++ s1
                          /\ Forall (fun c => c <> c_backslash) p1).
  { destruct s as [|c r]; [injection E1 as _ <-; now exists []|].
    destruct (N.eqb_spec c (ch "-")) as [->|_]; injection E1 as _ <-.
    - exists [ch "-"]. split; [reflexivity|]. repeat constructor. discriminate.
    - now exists []. }
  destruct (match s1 with
            | [] => ([], s1)
            | c :: r => if (c =? ch "0")%N then ([c], r) else span_digits s1
            end) as [ip s2] eqn:E2.
  assert (L2 : s1 = ip ++ s2 /\ Forall (fun c => c <> c_backslash) ip).
  { destruct s1 as [|c r]; [injection E2 as <- <-; now split|].
    destruct (N.eqb_spec c (ch "0")) as [->|_].
    - injection E2 as <- <-. split; [reflexivity|].
      repeat constructor. discriminate.
    - now apply span_digits_consumed. }
  destruct ip as [|i ip]; [discriminate|]. simpl is_empty. cbv iota.
  destruct (match s2 with
            | [] => Some ([], s2)
            | c :: r =>
                if (c =? ch ".")%N
                then let (fp, r') := span_digits r in
                     if is_empty fp then None else Some (fp, r')
                else Some ([], s2)
            end) as [[fp s3]|] eqn:E3; [|discriminate].
  assert (L3 : exists p3, s2 = p3 ++ s3
                          /\ Forall (fun c => c <> c_backslash) p3).
  { destruct s2 as [|c r]; [injection E3 as _ <-; now exists []|].
    destruct (N.eqb_spec c (ch ".")) as [->|_].
    - destruct (span_digits r) as [fp' r'] eqn:Ef.
      destruct (is_empty fp'); [discriminate|]. injection E3 as _ <-.
      apply span_digits_consumed in Ef as (-> & F).
      exists (ch "." :: fp'). split; [reflexivity|].
      constructor; [discriminate | exact F].
    - injection E3 as _ <-. now exists []. }
  destruct L1 as (p1 & -> & F1). destruct L2 as (-> & F2).
  destruct L3 as (p3 & -> & F3).
  assert (Hdone : forall x',
             Parsed x' s3 = Parsed x rest ->
             exists pre, p1 ++ (i :: ip) ++ p3 ++ s3 = pre ++ rest
                         /\ Forall (fun c => c <> c_backslash) pre).
  { intros x' H. injection H as _ <-. exists (p1 ++ (i :: ip) ++ p3).
    split; [now rewrite <- !app_assoc|].
    repeat (apply Forall_app; split); assumption. }
  destruct s3 as [|c r3]; [apply Hdone|].
  destruct ((c =? ch "e") || (c =? ch "E"))%N; [|apply Hdone].
  destruct (read_exponent (c :: r3)) as [[e s4]|] eqn:E4; [|discriminate].
  intros H. injection H as _ <-.
  apply read_exponent_consumed in E4 as (p4 & E4 & F4). rewrite E4.
  exists (p1 ++ (i :: ip) ++ p3 ++ p4).
  split; [now rewrite <- !app_assoc|].
  repeat (apply Forall_app; split); assumption.
Qed.

Lemma parse_keyword_plain word v s v' rest :
  Forall (fun c => c <> c_backslash) word ->
  plain s ->
  parse_keyword word v s = Parsed v' rest ->
  v' = v /\ plain rest.
Proof.
  unfold parse_keyword. intros Hw Hs.
  destruct (prefix_of word s) as [r|] eqn:E; [|discriminate].
  intros H. injection H as <- <-. split; [reflexivity|].
  apply prefix_of_Some in E. subst s. exact (@plain_drop word r Hw Hs).
Qed.

(** On a text whose quotes all follow a backslash the parser accepts values
    without strings only, and never an object member. *)
Lemma parse_plain fuel :
  (forall s v rest,
      plain s -> parse_value fuel s = Parsed v rest ->
      string_free v = true /\ plain rest)
  /\ (forall s acc v rest,
         plain s -> forallb string_free acc = true ->
         parse_elements fuel s acc = Parsed v rest ->
         string_free v = true /\ plain rest)
  /\ (forall s acc v rest,
         plain s -> parse_members fuel s acc = Parsed v rest -> False).
Proof.
  induction fuel as [|fuel (IHv & IHe & IHm)].
  { repeat split; intros; discriminate. }
  split; [|split].
  - intros s v rest Hs H. rewrite parse_value_S in H.
    apply plain_skip_ws in Hs.
    destruct (skip_ws s) as [|c r]; [discriminate|].
    pose proof (plain_head Hs) as Hq.
    destruct (N.eqb_spec c (ch "{")) as [->|_].
    { assert (Hr : plain (skip_ws r))
        by (apply plain_skip_ws, (plain_tail Hs); discriminate).
      destruct (skip_ws r) as [|c' r']; [discriminate|].
      destruct (N.eqb_spec c' (ch "}")) as [->|_].
      - injection H as <- <-. split; [reflexivity|].
        apply (plain_tail Hr). discriminate.
      - destruct (IHm _ _ _ _ Hr H). }
    destruct (N.eqb_spec c (ch "[")) as [->|_].
    { assert (Hr : plain (skip_ws r))
        by (apply plain_skip_ws, (plain_tail Hs); discriminate).
      destruct (skip_ws r) as [|c' r']; [discriminate|].
      destruct (N.eqb_spec c' (ch "]")) as [->|_].
      - injection H as <- <-. split; [reflexivity|].
        apply (plain_tail Hr). discriminate.
      - exact (IHe (c' :: r') [] v rest Hr eq_refl H). }
    destruct (N.eqb_spec c c_quote) as [->|_]; [contradiction|].
    destruct (N.eqb_spec c (ch "t")) as [->|_].
    { apply parse_keyword_plain in H as [-> Hp]; [now split| |].
      - repeat constructor; discriminate.
      - apply (plain_tail Hs). discriminate. }
    destruct (N.eqb_spec c (ch "f")) as [->|_].
    { apply parse_keyword_plain in H as [-> Hp]; [now split| |].
      - repeat constructor; discriminate.
      - apply (plain_tail Hs). discriminate. }
    destruct (N.eqb_spec c (ch "n")) as [->|_].
    { apply parse_keyword_plain in H as [-> Hp]; [now split| |].
      - repeat constructor; discriminate.
      - apply (plain_tail Hs). discriminate. }
    destruct ((c =? ch "-") || is_digit c)%N; [|discriminate].
    apply map_parsed_Parsed in H as (x & H & ->).
    apply parse_number_consumed in H as (pre & E & F).
    split; [reflexivity|]. rewrite E in Hs. exact (@plain_drop pre rest F Hs).
  - intros s acc v rest Hs Hacc H. rewrite parse_elements_S in H.
    destruct (parse_value fuel s) as [v1 r1| |] eqn:Ev; try discriminate.
    destruct (IHv _ _ _ Hs Ev) as [Hv1 Hr1].
    apply plain_skip_ws in Hr1.
    destruct (skip_ws r1) as [|c r2]; [discriminate|].
    assert (Hacc' : forallb string_free (acc ++ [v1]) = true).
    { rewrite forallb_app, Hacc. simpl. now rewrite Hv1. }
    destruct (N.eqb_spec c (ch ",")) as [->|_].
    { apply (IHe _ _ _ _ (plain_tail Hr1 ltac:(discriminate)) Hacc' H). }
    destruct (N.eqb_spec c (ch "]")) as [->|_]; [|discriminate].
    injection H as <- <-. split; [exact Hacc'|].
    apply (plain_tail Hr1). discriminate.
  - intros s acc v rest Hs H. rewrite parse_members_S in H.
    apply plain_skip_ws in Hs.
    destruct (skip_ws s) as [|c r]; [discriminate|].
    pose proof (plain_head Hs) as Hq.
    destruct (N.eqb_spec c c_quote) as [->|_]; [contradiction | discriminate].
Qed.

Lemma string_free_no_reviews v : string_free v = true -> reviewsOf v = None.
Proof.
  destruct v as [ | | | | |elements|[|p props]]; try reflexivity; discriminate.
Qed.

(** Whatever the cleaned text parses to has no [reviews] array. *)
Lemma cleaned_content_has_no_reviews content v :
  JSON_parse (cleanContent content) = Ok v -> reviewsOf v = None.
Proof.
  unfold JSON_parse.
  destruct (parse_value _ _) as [v' rest| |] eqn:E; try discriminate.
  destruct (is_empty (skip_ws rest)); [|discriminate].
  intros H. injection H as <-.
  destruct (parse_plain (parse_fuel (cleanContent content))) as (Hv & _ & _).
  apply string_free_no_reviews.
  exact (proj1 (Hv _ _ _ (plain_cleanContent content) E)).
Qed.

(** X1.  The retry never recovers a finding: a response text that fails the
    direct parse makes [getAIResponse] return [null]. *)
Lemma recovery_never_yields_findings w prompt tr response content e :
  messages_create w tr prompt = Ok response ->
  first_text response = Ok content ->
  JSON_parse content = Throw e ->
  fst (getAIResponse w prompt tr) = Ok None.
Proof.
  intros Hr Hc Hp. rewrite (getAIResponse_fst _ _ _ Hr Hc), Hp.
  destruct (JSON_parse (cleanContent content)) as [v|e2] eqn:E; [|reflexivity].
  now rewrite (cleaned_content_has_no_reviews _ E).
Qed.

(** The sample finding with a raw line break in its comment is lost. *)
Lemma recovery_witness :
  fst (getAIResponse
         (sample_world (text_answer raw_newline_finding) (Ok ([], [])))
         (lit "prompt") []) = Ok None.
Proof.
  apply (@recovery_never_yields_findings
           (sample_world (text_answer raw_newline_finding) (Ok ([], [])))
           (lit "prompt") []
           {| content := [TextBlock raw_newline_finding] |}
           raw_newline_finding SyntaxError);
    vm_compute; reflexivity.
Defined.

(** ** Findings without comment *)

Lemma mapR_Throw {A B : Type} (f : A -> result B) xs x e :
  In x xs -> f x = Throw e -> exists e', mapR f xs = Throw e'.
Proof.
  induction xs as [|y xs IH]; [contradiction|]. intros [->|Hin] Hx; simpl.
  - rewrite Hx. simpl. eauto.
  - destruct (f y); simpl; [|eauto].
    destruct (IH Hin Hx) as [e' ->]. simpl. eauto.
Qed.

(** X2.  One finding without [reviewComment] voids the whole response:
    [JSON.stringify(undefined)] is [undefined], which [JSON.parse] rejects,
    and the outer [catch] returns [null]. *)
Lemma finding_without_comment_voids_response parsedContent elements review :
  Get parsedContent (lit "reviews") = Ok (VArray elements) ->
  In review elements ->
  Get review (lit "reviewComment") = Ok VUndefined ->
  reviewsOf parsedContent = None.
Proof.
  intros Hr Hin Hc. unfold reviewsOf. rewrite Hr.
  assert (Hs : exists e, sanitizeReview review = Throw e).
  { unfold sanitizeReview.
    destruct (Get review (lit "lineNumber")); simpl; [|eauto].
    rewrite Hc. simpl. exists SyntaxError. reflexivity. }
  destruct Hs as [e Hs].
  destruct (mapR_Throw sanitizeReview elements review Hin Hs) as [e' ->].
  reflexivity.
Qed.

Lemma bare_finding_witness :
  fst (getAIResponse (sample_world (text_answer bare_finding) (Ok ([], [])))
         (lit "prompt") []) = Ok None.
Proof.
  rewrite (@getAIResponse_fst
             (sample_world (text_answer bare_finding) (Ok ([], [])))
             (lit "prompt") [] {| content := [TextBlock bare_finding] |}
             bare_finding eq_refl eq_refl).
  replace (JSON_parse bare_finding)
    with (Ok (VObject [(lit "reviews",
                        VArray [VObject [(lit "lineNumber", VString (lit "1"))]])]))
    by (vm_compute; reflexivity).
  cbv iota beta.
  rewrite (@finding_without_comment_voids_response
             (VObject [(lit "reviews",
                        VArray [VObject [(lit "lineNumber", VString (lit "1"))]])])
             [VObject [(lit "lineNumber", VString (lit "1"))]]
             (VObject [(lit "lineNumber", VString (lit "1"))])
             eq_refl (or_introl eq_refl) eq_refl).
  reflexivity.
Defined.


(** ** The exclusion filter *)

Lemma pattern_too_long_valid pattern :
  pattern_too_long pattern = false <-> valid_pattern pattern.
Proof. unfold pattern_too_long, valid_pattern. apply N.ltb_ge. Qed.

Lemma minimatch_true engine p pattern :
  minimatch engine p pattern = Ok true
  <-> negb (pattern_too_long pattern) && match_pattern engine p pattern = true.
Proof.
  unfold minimatch. destruct (pattern_too_long pattern); simpl.
  - split; discriminate.
  - split; intros H; [now injection H | now rewrite H].
Qed.

Lemma excluded_matches_some engine patterns file :
  excluded engine patterns file = true <-> matches_some engine patterns file.
Proof.
  unfold excluded, matches_some. rewrite existsb_exists.
  split; intros (pattern & Hin & H); exists pattern;
    (split; [exact Hin|]); now apply minimatch_true.
Qed.

Lemma not_excluded_matches_none engine patterns file :
  excluded engine patterns file = false <-> ~ matches_some engine patterns file.
Proof.
  rewrite <- excluded_matches_some. now rewrite not_true_iff_false.
Qed.

(** What [some] answers, when it answers. *)
Lemma someR_minimatch_Ok engine file patterns found :
  someR (fun pattern => minimatch engine (to_or_empty file) pattern) patterns
  = Ok found ->
  found = excluded engine patterns file.
Proof.
  unfold excluded. induction patterns as [|pattern rest IH]; simpl.
  - intros H. now injection H.
  - unfold minimatch. destruct (pattern_too_long pattern); simpl;
      [discriminate|].
    destruct (match_pattern engine (to_or_empty file) pattern); simpl.
    + intros H. now injection H.
    + exact IH.
Qed.

(** [some] answers when every pattern is accepted. *)
Lemma someR_minimatch_valid engine file patterns :
  Forall valid_pattern patterns ->
  someR (fun pattern => minimatch engine (to_or_empty file) pattern) patterns
  = Ok (excluded engine patterns file).
Proof.
  unfold excluded. induction 1 as [|pattern rest Hp _ IH]; simpl.
  - reflexivity.
  - unfold minimatch. apply pattern_too_long_valid in Hp. rewrite Hp. simpl.
    destruct (match_pattern engine (to_or_empty file) pattern); simpl;
      [reflexivity | exact IH].
Qed.

Lemma someR_minimatch_throws engine file patterns e :
  someR (fun pattern => minimatch engine (to_or_empty file) pattern) patterns
  = Throw e ->
  e = TypeError.
Proof.
  induction patterns as [|pattern rest IH]; simpl; [discriminate|].
  unfold minimatch. destruct (pattern_too_long pattern); simpl.
  - intros H. now injection H.
  - destruct (match_pattern engine (to_or_empty file) pattern); simpl;
      [discriminate | exact IH].
Qed.

(** [some] reaches a pattern that is too long when no pattern matches. *)
Lemma someR_minimatch_too_long engine file patterns pattern :
  In pattern patterns -> pattern_too_long pattern = true ->
  excluded engine patterns file = false ->
  someR (fun pattern => minimatch engine (to_or_empty file) pattern) patterns
  = Throw TypeError.
Proof.
  unfold excluded. induction patterns as [|q rest IH]; [contradiction|].
  intros Hin Hlong. simpl. unfold minimatch.
  destruct (pattern_too_long q) eqn:Eq; simpl; [reflexivity|].
  destruct Hin as [-> | Hin]; [congruence|].
  destruct (match_pattern engine (to_or_empty file) q); simpl;
    [discriminate|]. now apply IH.
Qed.

(** The list the filter returns, when it returns. *)
Lemma filterDiff_Ok engine patterns parsedDiff :
  forall filtered,
    filterDiff engine patterns parsedDiff = Ok filtered ->
    filtered = filter (fun file => negb (excluded engine patterns file))
                      parsedDiff.
Proof.
  unfold filterDiff. induction parsedDiff as [|file rest IH]; simpl.
  - intros filtered H. now injection H.
  - intros filtered.
    destruct (someR _ patterns) as [found|e] eqn:Es; simpl; [|discriminate].
    apply someR_minimatch_Ok in Es. subst found.
    destruct (filterR _ rest) as [kept|e]; simpl; [|discriminate].
    intros H. injection H as <-. rewrite <- (IH kept eq_refl).
    reflexivity.
Qed.

(** The filter returns when every pattern is accepted. *)
Lemma filterDiff_valid engine patterns parsedDiff :
  Forall valid_pattern patterns ->
  filterDiff engine patterns parsedDiff
  = Ok (filter (fun file => negb (excluded engine patterns file)) parsedDiff).
Proof.
  intros Hv. unfold filterDiff.
  induction parsedDiff as [|file rest IH]; simpl; [reflexivity|].
  rewrite (someR_minimatch_valid engine file Hv). simpl. rewrite IH. simpl.
  reflexivity.
Qed.

Lemma filterDiff_throws engine patterns parsedDiff e :
  filterDiff engine patterns parsedDiff = Throw e -> e = TypeError.
Proof.
  unfold filterDiff. induction parsedDiff as [|file rest IH]; simpl;
    [discriminate|].
  destruct (someR _ patterns) as [found|e'] eqn:Es; simpl.
  - destruct (filterR _ rest) as [kept|e'']; simpl; [discriminate|].
    intros H. injection H as <-. now apply IH.
  - intros H. injection H as <-. exact (someR_minimatch_throws _ _ _ Es).
Qed.

(** The filter throws when it holds a file that no pattern matches and a
    pattern that is too long. *)
Lemma filterDiff_too_long engine patterns parsedDiff file pattern :
  In file parsedDiff -> excluded engine patterns file = false ->
  In pattern patterns -> pattern_too_long pattern = true ->
  filterDiff engine patterns parsedDiff = Throw TypeError.
Proof.
  intros Hfile Hno Hin Hlong.
  destruct (filterDiff engine patterns parsedDiff) as [filtered|e] eqn:E;
    [|now rewrite (filterDiff_throws _ _ _ E)].
  exfalso. revert filtered E. unfold filterDiff.
  induction parsedDiff as [|x rest IH]; [contradiction|]. simpl.
  intros filtered.
  destruct Hfile as [-> | Hfile].
  - now rewrite (@someR_minimatch_too_long engine file patterns pattern
                   Hin Hlong Hno).
  - destruct (someR _ patterns) as [found|e]; simpl; [|discriminate].
    destruct (filterR _ rest) as [kept|e] eqn:Er; simpl; [|discriminate].
    intros _. exact (IH Hfile kept eq_refl).
Qed.

Lemma filterDiff_In engine patterns parsedDiff filtered file :
  filterDiff engine patterns parsedDiff = Ok filtered ->
  In file filtered
  <-> In file parsedDiff /\ ~ matches_some engine patterns file.
Proof.
  intros H. rewrite (filterDiff_Ok _ _ _ H), filter_In.
  rewrite negb_true_iff, not_excluded_matches_none. reflexivity.
Qed.

Lemma filter_subsequence {A : Type} (keep : A -> bool) (l : list A) :
  subsequence (filter keep l) l.
Proof.
  induction l as [|x l IH]; simpl.
  - constructor.
  - destruct (keep x); constructor; exact IH.
Qed.

(** C8 (amended).  For patterns of at most 65536 code units the exclusion
    filter returns, and it drops exactly the files whose target path (the
    empty string when absent) matches at least one pattern: position by
    position a matching file disappears and any other file stays, so the
    kept files are those that match no pattern, in their original order.
    The same holds of whatever list the filter returns.  It returns none
    when a pattern is longer and the diff holds a file that no pattern
    matches: [minimatch] then throws a TypeError, which leaves the filter. *)
Theorem C8_exclusion_filter :
  forall (engine : jsstring -> jsstring -> bool) (patterns : list jsstring)
         (parsedDiff : list File),
    (Forall valid_pattern patterns ->
     exists filtered,
       filterDiff engine patterns parsedDiff = Ok filtered
       /\ (forall before file after,
              parsedDiff = before ++ file :: after ->
              exists kept_before kept_after,
                filterDiff engine patterns before = Ok kept_before
                /\ filterDiff engine patterns after = Ok kept_after
                /\ (matches_some engine patterns file ->
                    filtered = kept_before ++ kept_after)
                /\ (~ matches_some engine patterns file ->
                    filtered = kept_before ++ file :: kept_after)))
    /\ (forall filtered,
           filterDiff engine patterns parsedDiff = Ok filtered ->
           (forall file,
               In file filtered
               <-> In file parsedDiff /\ ~ matches_some engine patterns file)
           /\ subsequence filtered parsedDiff)
    /\ (forall file pattern,
           In file parsedDiff ->
           ~ matches_some engine patterns file ->
           In pattern patterns ->
           ~ valid_pattern pattern ->
           filterDiff engine patterns parsedDiff = Throw TypeError).
Proof.
  intros engine patterns parsedDiff. split; [|split].
  - intros Hv. rewrite (filterDiff_valid engine parsedDiff Hv).
    eexists. split; [reflexivity|].
    intros before file after ->.
    rewrite (filterDiff_valid engine before Hv),
      (filterDiff_valid engine after Hv).
    do 2 eexists. split; [reflexivity|]. split; [reflexivity|].
    rewrite filter_app. simpl. split; intros H.
    + apply excluded_matches_some in H. now rewrite H.
    + apply not_excluded_matches_none in H. now rewrite H.
  - intros filtered H. split.
    + intros file. now apply filterDiff_In.
    + rewrite (filterDiff_Ok _ _ _ H). apply filter_subsequence.
  - intros file pattern Hfile Hno Hin Hlong.
    apply (@filterDiff_too_long engine patterns parsedDiff file pattern);
      try assumption.
    + now apply not_excluded_matches_none.
    + destruct (pattern_too_long pattern) eqn:E; [reflexivity|].
      now apply pattern_too_long_valid in E.
Qed.

(** Two patterns on the sample diff: [app.py] is dropped. *)
Lemma C8_witness :
  exists filtered,
    filterDiff (fun p pattern => jsstring_eqb p pattern)
      [lit "app.py"; lit "*.md"] sample_diff = Ok filtered
    /\ (forall before file after,
           sample_diff = before ++ file :: after ->
           exists kept_before kept_after,
             filterDiff (fun p pattern => jsstring_eqb p pattern)
               [lit "app.py"; lit "*.md"] before = Ok kept_before
             /\ filterDiff (fun p pattern => jsstring_eqb p pattern)
                  [lit "app.py"; lit "*.md"] after = Ok kept_after
             /\ (matches_some (fun p pattern => jsstring_eqb p pattern)
                   [lit "app.py"; lit "*.md"] file ->
                 filtered = kept_before ++ kept_after)
             /\ (~ matches_some (fun p pattern => jsstring_eqb p pattern)
                     [lit "app.py"; lit "*.md"] file ->
                 filtered = kept_before ++ file :: kept_after)).
Proof.
  destruct (C8_exclusion_filter (fun p pattern => jsstring_eqb p pattern)
              [lit "app.py"; lit "*.md"] sample_diff) as [H _].
  apply H. repeat constructor; unfold valid_pattern; vm_compute; discriminate.
Defined.

(** C8 as stated fails: one pattern of 65537 code units and the sample file,
    which the pattern does not match.  [minimatch] throws a TypeError, so
    the filter returns no list and the file is not kept. *)
Lemma C8_counterexample :
  In sample_file [sample_file]
  /\ excluded (fun _ _ => false) [long_pattern] sample_file = false
  /\ minimatch (fun _ _ => false) (lit "app.py") long_pattern = Throw TypeError
  /\ filterDiff (fun _ _ => false) [long_pattern] [sample_file]
     = Throw TypeError.
Proof.
  split; [now left|]. repeat split; vm_compute; reflexivity.
Qed.

Lemma excludePatterns_empty : excludePatterns [] = [[]].
Proof. reflexivity. Qed.

Lemma matches_some_empty_pattern engine file :
  matches_some engine [[]] file <-> to_or_empty file = [].
Proof.
  unfold matches_some. split.
  - intros (pattern & [<- | []] & H). apply minimatch_true in H.
    simpl in H. destruct (to_or_empty file); [reflexivity | discriminate].
  - intros H. exists []. split; [now left|]. apply minimatch_true.
    now rewrite H.
Qed.

(** C10.  With an empty [exclude] input the pattern list is the one empty
    pattern; the filter then returns, drops every file without target path
    and keeps every file whose target path is a non-empty string. *)
Theorem C10_empty_exclude_input :
  excludePatterns [] = [[]]
  /\ forall (engine : jsstring -> jsstring -> bool) (parsedDiff : list File),
       exists filtered,
         filterDiff engine (excludePatterns []) parsedDiff = Ok filtered
         /\ forall file : File,
              In file parsedDiff ->
              (to file = None -> ~ In file filtered)
              /\ (forall p, to file = Some p -> p <> [] -> In file filtered).
Proof.
  split; [reflexivity|].
  intros engine parsedDiff. rewrite excludePatterns_empty.
  assert (Hv : Forall valid_pattern [[]])
    by (repeat constructor; unfold valid_pattern; vm_compute; discriminate).
  pose proof (filterDiff_valid engine parsedDiff Hv) as E.
  eexists. split; [exact E|].
  intros file Hin. split.
  - intros Hto Hkept. apply (filterDiff_In _ _ _ file E) in Hkept as [_ Hno].
    apply Hno, matches_some_empty_pattern. unfold to_or_empty. now rewrite Hto.
  - intros p Hto Hp. apply (filterDiff_In _ _ _ file E). split; [exact Hin|].
    rewrite matches_some_empty_pattern. unfold to_or_empty. now rewrite Hto.
Qed.

(** ** The comment mapper and the review loop *)

Lemma jsstring_eqb_eq a b : jsstring_eqb a b = true <-> a = b.
Proof.
  revert b. induction a as [|x a IH]; intros [|y b]; simpl;
    try (split; [discriminate | discriminate]); [tauto|].
  rewrite andb_true_iff, N.eqb_eq, IH. split.
  - now intros [-> ->].
  - intros H. injection H as -> ->. now split.
Qed.

(** One comment per finding, in order, when the file has a target path;
    none otherwise. *)
Lemma createComment_spec file chunk findings comments :
  createComment file chunk findings = Ok comments ->
  match to file with
  | None | Some [] => comments = []
  | Some p =>
      Forall2 (fun f c => body c = reviewComment f
                          /\ path c = p
                          /\ ToNumber (lineNumber f) = Ok (line c))
              findings comments
  end.
Proof.
  unfold createComment.
  destruct (to file) as [[|x p]|].
  - intros H.
    assert (E : forall fs, mapR (fun _ : Finding => Ok (@nil Comment)) fs
                           = Ok (map (fun _ => []) fs)).
    { induction fs as [|f fs IH]; simpl; [reflexivity | now rewrite IH]. }
    rewrite E in H. simpl in H. injection H as <-.
    induction findings; simpl; [reflexivity | assumption].
  - revert comments. induction findings as [|f fs IH]; intros comments; simpl.
    + intros H. injection H as <-. constructor.
    + destruct (ToNumber (lineNumber f)) as [n|e] eqn:En; simpl; [|discriminate].
      destruct (mapR _ fs) as [parts|e]; simpl in *; [|discriminate].
      intros H. injection H as <-. constructor; [now simpl|].
      now apply IH.
  - intros H.
    assert (E : forall fs, mapR (fun _ : Finding => Ok (@nil Comment)) fs
                           = Ok (map (fun _ => []) fs)).
    { induction fs as [|f fs IH]; simpl; [reflexivity | now rewrite IH]. }
    rewrite E in H. simpl in H. injection H as <-.
    induction findings; simpl; [reflexivity | assumption].
Qed.

Lemma createComment_paths file chunk findings comments :
  createComment file chunk findings = Ok comments ->
  Forall (fun c => to file = Some (path c) /\ path c <> []) comments.
Proof.
  intros H. apply createComment_spec in H.
  destruct (to file) as [[|x p]|]; try (subst; constructor).
  induction H as [|f c fs cs (_ & Hp & _) _ IH]; constructor; [|exact IH].
  rewrite Hp. split; [reflexivity | discriminate].
Qed.

Section ReviewLoop.

Variable w : World.
Variable prDetails : PRDetails.
Variable P : Comment -> Prop.

Lemma analyzeChunks_Forall file :
  (forall c, to file = Some (path c) -> path c <> [] -> P c) ->
  forall cs comments tr result tr',
    Forall P comments ->
    analyzeChunks w file prDetails cs comments tr = (Ok result, tr') ->
    Forall P result.
Proof.
  intros HP. induction cs as [|chunk rest IH];
    intros comments tr result tr' Hacc; simpl.
  - unfold ret. intros H. now injection H as <- _.
  - unfold bind at 1.
    destruct (getAIResponse w _ tr) as [[[findings|]|e] tr1]; [| |discriminate].
    + unfold bind at 1, lift.
      destruct (createComment file chunk findings) as [new|e] eqn:Ec;
        [|discriminate].
      apply IH. apply Forall_app. split; [exact Hacc|].
      apply createComment_paths in Ec.
      eapply Forall_impl; [|exact Ec]. intros c [H1 H2]. now apply HP.
    + now apply IH.
Qed.

Lemma analyzeFiles_Forall :
  forall files comments tr result tr',
    (forall file c, In file files -> is_dev_null file = false ->
                    to file = Some (path c) -> path c <> [] -> P c) ->
    Forall P comments ->
    analyzeFiles w prDetails files comments tr = (Ok result, tr') ->
    Forall P result.
Proof.
  induction files as [|file rest IH]; intros comments tr result tr' HP Hacc;
    simpl.
  - unfold ret. intros H. now injection H as <- _.
  - destruct (is_dev_null file) eqn:Ed.
    + apply IH; [|exact Hacc]. intros f c Hin. apply HP. now right.
    + unfold bind at 1.
      destruct (analyzeChunks w file prDetails (chunks file) comments tr)
        as [[comments'|e] tr1] eqn:Ea; [|discriminate].
      apply IH.
      * intros f c Hin. apply HP. now right.
      * eapply analyzeChunks_Forall; [|exact Hacc|exact Ea].
        intros c. apply HP; [now left | exact Ed].
Qed.

End ReviewLoop.

(** A deleted file is passed over: no model call, no comment. *)
Lemma analyzeFiles_deleted w prDetails file rest comments tr :
  to file = Some (lit "/dev/null") ->
  analyzeFiles w prDetails (file :: rest) comments tr
  = analyzeFiles w prDetails rest comments tr.
Proof.
  intros H. simpl. unfold is_dev_null. rewrite H.
  now replace (jsstring_eqb (lit "/dev/null") (lit "/dev/null")) with true
    by (symmetry; now apply jsstring_eqb_eq).
Qed.

(** C5.  Every comment [analyzeCode] returns carries the target path of a
    file of the diff it was given (the retained files), and that path is not
    the deleted-file sentinel [/dev/null]; a file with the sentinel path is
    passed over without any effect. *)
Theorem C5_deleted_files_yield_no_comments :
  forall (w : World) (prDetails : PRDetails),
    (forall parsedDiff tr comments tr',
        analyzeCode w parsedDiff prDetails tr = (Ok comments, tr') ->
        forall c, In c comments ->
                  exists file, In file parsedDiff
                               /\ to file = Some (path c)
                               /\ path c <> lit "/dev/null")
    /\ (forall file rest comments tr,
           to file = Some (lit "/dev/null") ->
           analyzeFiles w prDetails (file :: rest) comments tr
           = analyzeFiles w prDetails rest comments tr).
Proof.
  intros w prDetails. split; [|intros; now apply analyzeFiles_deleted].
  intros parsedDiff tr comments tr' H c Hc.
  unfold analyzeCode in H.
  eapply analyzeFiles_Forall
    with (P := fun c => exists file, In file parsedDiff
                                     /\ to file = Some (path c)
                                     /\ path c <> lit "/dev/null") in H.
  - rewrite Forall_forall in H. now apply H.
  - intros file c' Hin Hd Hto _. exists file. repeat split; try assumption.
    intros Hp. unfold is_dev_null in Hd. rewrite Hto, Hp in Hd.
    now replace (jsstring_eqb (lit "/dev/null") (lit "/dev/null")) with true
      in Hd by (symmetry; now apply jsstring_eqb_eq).
  - constructor.
Qed.

(** The sample diff holds a deleted file and [app.py]: the one comment is
    on [app.py]. *)
Lemma C5_witness :
  exists file, In file sample_diff
               /\ to file = Some (lit "app.py")
               /\ lit "app.py" <> lit "/dev/null".
Proof.
  destruct (C5_deleted_files_yield_no_comments
              (sample_world (text_answer one_finding) (Ok (sample_report, [])))
              sample_prDetails) as [H _].
  apply (H sample_diff []
           sample_comments
           [MessagesCreate
              (createPrompt
                 (sample_world (text_answer one_finding) (Ok (sample_report, [])))
                 sample_file sample_chunk sample_prDetails)]
           eq_refl
           {| body := VString (lit "Name the constant.");
              path := lit "app.py";
              line := number_of_Z 1 |}).
  now left.
Defined.

(** C4 (amended).  The [line] of a comment is [Number(lineNumber)] of its
    finding, taken as it comes: nothing checks that it is positive or an
    integer (nor that it lies in the chunk).  It is the positive integer the
    text denotes when [lineNumber] is a run of decimal digits with a value
    between 1 and [2^53 - 1]. *)
Theorem C4_line_is_unchecked_Number :
  forall (file : File) (chunk : Chunk) (findings : list Finding)
         (comments : list Comment),
    createComment file chunk findings = Ok comments ->
    forall c, In c comments ->
      exists f,
        In f findings
        /\ body c = reviewComment f
        /\ ToNumber (lineNumber f) = Ok (line c)
        /\ (forall ds,
               lineNumber f = VString ds ->
               ds <> [] -> forallb is_digit ds = true ->
               (0 < decimal_value ds < 2 ^ 53)%Z ->
               integer_value (line c) = Some (decimal_value ds)
               /\ is_positive_integer (line c) = true).
Proof.
  intros file chunk findings comments H c Hc.
  apply createComment_spec in H.
  destruct (to file) as [[|x p]|]; try (subst; contradiction).
  induction H as [|f c' fs cs (Hb & Hp & Hn) _ IH]; [contradiction|].
  destruct Hc as [<- | Hc].
  - exists f. split; [now left|]. split; [exact Hb|]. split; [exact Hn|].
    intros ds Hds Hne Hdigits Hrange.
    rewrite Hds in Hn. simpl in Hn.
    rewrite (StringToNumber_digits Hne Hdigits) in Hn. injection Hn as <-.
    split; [now apply binary64_round_integer|].
    unfold is_positive_integer.
    rewrite (binary64_round_integer Hrange). now apply Z.ltb_lt.
  - destruct (IH Hc) as (f' & Hin & Hrest). exists f'. split; [now right|].
    exact Hrest.
Qed.

(** The sample finding sits on line 1. *)
Lemma C4_witness :
  exists f,
    In f [finding_at "1"]
    /\ VString (lit "Name the constant.") = reviewComment f
    /\ ToNumber (lineNumber f) = Ok (number_of_Z 1)
    /\ (forall ds,
           lineNumber f = VString ds ->
           ds <> [] -> forallb is_digit ds = true ->
           (0 < decimal_value ds < 2 ^ 53)%Z ->
           integer_value (number_of_Z 1) = Some (decimal_value ds)
           /\ is_positive_integer (number_of_Z 1) = true).
Proof.
  apply (@C4_line_is_unchecked_Number sample_file sample_chunk
           [finding_at "1"] sample_comments eq_refl
           {| body := VString (lit "Name the constant.");
              path := lit "app.py";
              line := number_of_Z 1 |}).
  now left.
Defined.

(** C4 as stated fails: findings whose [lineNumber] is [0], [-3], [2.5] and
    [soon] give comments on the lines 0, -3, 2.5 and NaN, none of them a
    positive integer. *)
Lemma C4_counterexample :
  createComment sample_file sample_chunk
    [finding_at "0"; finding_at "-3"; finding_at "2.5"; finding_at "soon"]
  = Ok (map (fun n => {| body := VString (lit "Name the constant.");
                         path := lit "app.py";
                         line := n |})
            [S754_zero false; number_of_Z (-3); binary64_round false 5 2; NaN])
  /\ map is_positive_integer
         [S754_zero false; number_of_Z (-3); binary64_round false 5 2; NaN]
     = [false; false; false; false].
Proof. split; vm_compute; reflexivity. Qed.

(** ** What the computations emit *)

Section EmitsOnly.

Variable P : event -> Prop.

Lemma emits_only_ret {A : Type} (a : A) : emits_only P (ret a).
Proof. intros tr. exists []. now rewrite app_nil_r. Qed.

Lemma emits_only_lift {A : Type} (r : result A) : emits_only P (lift r).
Proof. intros tr. exists []. now rewrite app_nil_r. Qed.

Lemma emits_only_emit (e : event) : P e -> emits_only P (emit e).
Proof. intros H tr. exists [e]. split; [reflexivity | now constructor]. Qed.

Lemma emits_only_call {A : Type} (e : event) (answer : trace -> result A) :
  P e -> emits_only P (call e answer).
Proof. intros H tr. exists [e]. split; [reflexivity | now constructor]. Qed.

Lemma emits_only_bind {A B : Type} (c : M A) (k : A -> M B) :
  emits_only P c -> (forall a, emits_only P (k a)) -> emits_only P (bind c k).
Proof.
  intros Hc Hk tr. destruct (Hc tr) as (new1 & E1 & F1). unfold bind.
  destruct (c tr) as [[a|e] tr1]; simpl in E1; subst tr1.
  - destruct (Hk a (tr ++ new1)) as (new2 & E2 & F2).
    exists (new1 ++ new2). rewrite E2, app_assoc. split; [reflexivity|].
    apply Forall_app; now split.
  - now exists new1.
Qed.

Lemma emits_only_try_catch {A : Type} (c : M A) (h : error -> M A) :
  emits_only P c -> (forall e, emits_only P (h e)) ->
  emits_only P (try_catch c h).
Proof.
  intros Hc Hh tr. destruct (Hc tr) as (new1 & E1 & F1). unfold try_catch.
  destruct (c tr) as [[a|e] tr1]; simpl in E1; subst tr1.
  - now exists new1.
  - destruct (Hh e (tr ++ new1)) as (new2 & E2 & F2).
    exists (new1 ++ new2). rewrite E2, app_assoc. split; [reflexivity|].
    apply Forall_app; now split.
Qed.

End EmitsOnly.

Lemma emits_only_weaken (P Q : event -> Prop) {A : Type} (c : M A) :
  (forall e, P e -> Q e) -> emits_only P c -> emits_only Q c.
Proof.
  intros HPQ Hc tr. destruct (Hc tr) as (new & E & F).
  exists new. split; [exact E|]. eapply Forall_impl; eauto.
Qed.

(** Breaks a computation down to its calls and leaves one goal for each
    event it emits. *)
Ltac emits_step :=
  first
    [ apply emits_only_ret
    | apply emits_only_lift
    | apply emits_only_bind; [|intros ?]
    | apply emits_only_try_catch; [|intros ?]
    | apply emits_only_emit
    | apply emits_only_call
    | match goal with
      | |- emits_only _ (if ?b then _ else _) => destruct b
      | |- emits_only _ (match ?x with _ => _ end) => destruct x
      end ].

Ltac emits := repeat emits_step; try exact I.

Lemma getAIResponse_emits w prompt :
  emits_only posts_nothing (getAIResponse w prompt).
Proof.
  unfold getAIResponse, parseWithRecovery, extractReviews,
    console_log, console_error.
  emits.
Qed.

Lemma analyzeChunks_emits w file prDetails cs :
  forall comments,
    emits_only posts_nothing (analyzeChunks w file prDetails cs comments).
Proof.
  induction cs as [|chunk rest IH]; intros comments; simpl.
  - apply emits_only_ret.
  - apply emits_only_bind; [apply getAIResponse_emits|].
    intros [findings|]; [|apply IH].
    apply emits_only_bind; [apply emits_only_lift|]. intros ?. apply IH.
Qed.

Lemma analyzeCode_emits w parsedDiff prDetails :
  emits_only posts_nothing (analyzeCode w parsedDiff prDetails).
Proof.
  unfold analyzeCode. generalize (@nil Comment).
  induction parsedDiff as [|file rest IH]; intros comments; simpl.
  - apply emits_only_ret.
  - destruct (is_dev_null file); [apply IH|].
    apply emits_only_bind; [apply analyzeChunks_emits|]. intros ?. apply IH.
Qed.

Lemma getPylintScore_emits w : emits_only posts_nothing (getPylintScore w).
Proof.
  unfold getPylintScore, console_log, console_error. emits.
Qed.

Lemma getPRDetails_emits w : emits_only posts_nothing (getPRDetails w).
Proof. unfold getPRDetails. emits. Qed.

Lemma fetchDiff_emits w prDetails eventData :
  emits_only posts_nothing (fetchDiff w prDetails eventData).
Proof. unfold fetchDiff, getDiff, console_log. emits. Qed.

Lemma posts_nothing_well_formed e : posts_nothing e -> review_well_formed e.
Proof. destruct e; simpl; tauto. Qed.

Lemma reportResults_emits w prDetails comments :
  emits_only review_well_formed (reportResults w prDetails comments).
Proof.
  unfold reportResults.
  apply emits_only_bind.
  { eapply emits_only_weaken;
      [apply posts_nothing_well_formed | apply getPylintScore_emits]. }
  intros score. unfold addPullRequestComment, createReviewComment.
  apply emits_only_bind; [apply emits_only_call; exact I|]. intros _.
  destruct comments as [|c cs]; [apply emits_only_ret|].
  apply emits_only_call. split; [discriminate | reflexivity].
Qed.

Lemma main_emits w : emits_only review_well_formed (main w).
Proof.
  assert (W : forall A (c : M A),
             emits_only posts_nothing c -> emits_only review_well_formed c).
  { intros A c. apply emits_only_weaken, posts_nothing_well_formed. }
  unfold main.
  apply emits_only_bind; [apply W, getPRDetails_emits|]. intros prDetails.
  apply emits_only_bind; [apply emits_only_lift|]. intros text.
  apply emits_only_bind; [apply emits_only_lift|]. intros eventData.
  apply emits_only_bind; [apply W, fetchDiff_emits|].
  intros [[[|c diff]|]|]; unfold console_log; try (emits; fail).
  apply emits_only_bind; [apply emits_only_lift|]. intros parsedDiff.
  apply emits_only_bind; [apply emits_only_lift|]. intros filteredDiff.
  apply emits_only_bind; [apply W, analyzeCode_emits|]. intros comments.
  apply reportResults_emits.
Qed.

Lemma action_emits w : emits_only review_well_formed (action w).
Proof.
  unfold action. apply emits_only_try_catch; [apply main_emits|].
  intros e. unfold console_error. emits.
Qed.

(** ** Traces *)

Lemma review_submissions_app tr1 tr2 :
  review_submissions (tr1 ++ tr2)
  = review_submissions tr1 ++ review_submissions tr2.
Proof.
  induction tr1 as [|e tr1 IH]; [reflexivity|].
  destruct e; simpl; rewrite IH; reflexivity.
Qed.

Lemma lint_comments_app tr1 tr2 :
  lint_comments (tr1 ++ tr2) = lint_comments tr1 ++ lint_comments tr2.
Proof.
  induction tr1 as [|e tr1 IH]; [reflexivity|].
  destruct e; simpl; rewrite IH; reflexivity.
Qed.

Lemma posts_nothing_silent new :
  Forall posts_nothing new ->
  review_submissions new = [] /\ lint_comments new = [].
Proof.
  induction 1 as [|e new He _ [IH1 IH2]]; [now split|].
  destruct e; simpl in *; try contradiction; now split.
Qed.

Lemma review_well_formed_submissions new :
  Forall review_well_formed new ->
  Forall (fun s => fst s <> [] /\ snd s = lit "COMMENT") (review_submissions new).
Proof.
  induction 1 as [|e new He _ IH]; [constructor|].
  destruct e; simpl in *; try exact IH. now constructor.
Qed.

(** ** The orchestrator *)

Lemma reaches_report_silent w prDetails comments tr :
  reaches_report w prDetails comments tr ->
  review_submissions tr = [] /\ lint_comments tr = [].
Proof.
  intros (text & eventData & diff & parsedDiff & filteredDiff & tr1 & tr2
          & H1 & _ & _ & H2 & _ & _ & _ & H3).
  destruct (getPRDetails_emits w []) as (n1 & E1 & F1).
  rewrite H1 in E1. simpl in E1. subst tr1.
  destruct (fetchDiff_emits w prDetails eventData n1) as (n2 & E2 & F2).
  rewrite H2 in E2. simpl in E2. subst tr2.
  match type of H3 with
  | analyzeCode _ ?fd _ _ = _ =>
      destruct (analyzeCode_emits w fd prDetails (n1 ++ n2)) as (n3 & E3 & F3)
  end.
  rewrite H3 in E3. simpl in E3. subst tr.
  apply posts_nothing_silent. repeat (apply Forall_app; split); assumption.
Qed.

Lemma main_reaches_report w prDetails comments tr :
  reaches_report w prDetails comments tr ->
  main w [] = reportResults w prDetails comments tr.
Proof.
  intros (text & eventData & diff & parsedDiff & filteredDiff & tr1 & tr2
          & H1 & H2 & H3 & H4 & H5 & H6 & Hf & H7).
  unfold main, bind at 1. rewrite H1.
  unfold bind at 1, lift. rewrite H2.
  unfold bind at 1. rewrite H3.
  unfold bind at 1. rewrite H4.
  destruct diff as [|c diff]; [contradiction|].
  unfold bind at 1. rewrite H6.
  unfold bind at 1. rewrite Hf.
  unfold bind at 1. rewrite H7. reflexivity.
Qed.

Lemma run_of_report w prDetails comments tr :
  reaches_report w prDetails comments tr ->
  run w = match reportResults w prDetails comments tr with
          | (Ok _, tr') => tr'
          | (Throw _, tr') => tr' ++ [ConsoleError "Error:"; ProcessExit 1]
          end.
Proof.
  intros H. unfold run, action, try_catch.
  rewrite (main_reaches_report H).
  destruct (reportResults w prDetails comments tr) as [[[]|e] tr'];
    [reflexivity|].
  unfold console_error, emit, bind. simpl. now rewrite <- app_assoc.
Qed.

(** ** The lint score collector *)

Lemma getPylintScore_no_files w tr :
  glob w tr = Ok [] ->
  getPylintScore w tr
  = (Ok (number_of_Z 10),
     tr ++ [GlobFiles; ConsoleLog "files";
            ConsoleLog "No Python files found in the repository."]).
Proof.
  intros H. unfold getPylintScore. run_monad. rewrite H.
  now rewrite <- !app_assoc.
Qed.

Lemma getPylintScore_rejected w tr files e :
  glob w tr = Ok files -> files <> [] ->
  execAsync w (tr ++ [GlobFiles; ConsoleLog "files"]) (pylint_command files)
  = Throw e ->
  getPylintScore w tr
  = (Throw e, tr ++ [GlobFiles; ConsoleLog "files"; Exec (pylint_command files)]).
Proof.
  intros Hg Hf He. unfold getPylintScore. run_monad. rewrite Hg.
  destruct files as [|f files]; [contradiction|].
  rewrite <- !app_assoc. simpl. rewrite He. reflexivity.
Qed.

Lemma getPylintScore_resolved w tr files stdout stderr :
  glob w tr = Ok files -> files <> [] ->
  execAsync w (tr ++ [GlobFiles; ConsoleLog "files"]) (pylint_command files)
  = Ok (stdout, stderr) ->
  getPylintScore w tr
  = (Ok (parsePylint stdout),
     tr ++ [GlobFiles; ConsoleLog "files"; Exec (pylint_command files)]
        ++ (if is_empty stderr then [] else [ConsoleError "Pylint error:"])).
Proof.
  intros Hg Hf He. unfold getPylintScore. run_monad. rewrite Hg.
  destruct files as [|f files]; [contradiction|].
  rewrite <- !app_assoc. simpl. rewrite He. simpl.
  destruct (is_empty stderr); simpl; now rewrite <- ?app_assoc.
Qed.

(** ** The rating pattern *)

(** The pattern matches at the head of a rating sentence, and captures the
    whole numeral. *)
Lemma match_rating_here_sentence ip fp post :
  ip <> [] -> fp <> [] ->
  forallb is_digit ip = true -> forallb is_digit fp = true ->
  no_digit_ahead post ->
  match_rating_here (rating_sentence ++ ip ++ lit "." ++ fp ++ post)
  = Some (ip ++ lit "." ++ fp).
Proof.
  intros Hi Hf Di Df Hp. unfold match_rating_here.
  rewrite prefix_of_app.
  rewrite (span_digits_app ip (lit "." ++ fp ++ post) Di) by reflexivity.
  destruct ip as [|i ip]; [contradiction|].
  change (lit "." ++ fp ++ post) with (ch "." :: fp ++ post). cbv iota.
  rewrite N.eqb_refl, (span_digits_app fp post Df Hp).
  destruct fp; [contradiction | reflexivity].
Qed.

Lemma match_rating_here_Some s g :
  match_rating_here s = Some g ->
  exists ip fp post,
    s = rating_sentence ++ ip ++ lit "." ++ fp ++ post
    /\ ip <> [] /\ fp <> []
    /\ forallb is_digit ip = true /\ forallb is_digit fp = true.
Proof.
  unfold match_rating_here.
  destruct (prefix_of rating_sentence s) as [rest|] eqn:Ep; [|discriminate].
  apply prefix_of_Some in Ep. subst s.
  destruct (span_digits rest) as [ip r1] eqn:E1.
  apply span_digits_spec in E1 as [-> Di].
  destruct ip as [|i ip]; [discriminate|].
  destruct r1 as [|c r2]; [discriminate|].
  destruct (c =? ch ".")%N eqn:Ec; [|discriminate].
  apply N.eqb_eq in Ec. subst c.
  destruct (span_digits r2) as [fp post] eqn:E2.
  apply span_digits_spec in E2 as [-> Df].
  destruct fp as [|f fp]; [discriminate|]. intros _.
  exists (i :: ip), (f :: fp), post. repeat split; try assumption;
    discriminate.
Qed.

Lemma match_rating_unfold s :
  match_rating s
  = match match_rating_here s with
    | Some g => Some g
    | None =>
        match s with
        | [] => None
        | _ :: rest => match_rating rest
        end
    end.
Proof. destruct s; reflexivity. Qed.

Lemma match_rating_Some s g : match_rating s = Some g -> contains_rating s.
Proof.
  induction s as [|c s IH]; rewrite match_rating_unfold.
  - destruct (match_rating_here []) eqn:E; [|discriminate]. intros _.
    apply match_rating_here_Some in E as (ip & fp & post & E & H).
    exists [], ip, fp, post. now split.
  - destruct (match_rating_here (c :: s)) eqn:E.
    + intros _. apply match_rating_here_Some in E as (ip & fp & post & E & H).
      exists [], ip, fp, post. now split.
    + intros H. destruct (IH H) as (pre & ip & fp & post & -> & H').
      exists (c :: pre), ip, fp, post. now split.
Qed.

(** Where no match starts inside [pre], the leftmost match of [pre ++ s] is
    the leftmost match of [s]. *)
Lemma match_rating_skip pre s :
  (forall i, (i < List.length pre)%nat ->
             match_rating_here (skipn i (pre ++ s)) = None) ->
  match_rating (pre ++ s) = match_rating s.
Proof.
  induction pre as [|c pre IH]; intros H; [reflexivity|].
  change ((c :: pre) ++ s) with (c :: (pre ++ s)).
  assert (H0 : match_rating_here (c :: pre ++ s) = None).
  { apply (H 0%nat). simpl. lia. }
  rewrite match_rating_unfold, H0. apply IH.
  intros i Hi. apply (H (S i)). simpl. lia.
Qed.

Lemma match_rating_head s g :
  match_rating_here s = Some g -> match_rating s = Some g.
Proof. intros H. now rewrite match_rating_unfold, H. Qed.

(** C6 (amended).  The lint score collector returns 10 when no file is found
    (and does not run the linter); [parsePylint] returns 7.5 for a report
    whose leftmost rating sentence is [Your code has been rated at 7.50], no
    digit following; and it returns 0 for a report that contains no rating
    sentence. *)
Theorem C6_lint_score :
  (forall (w : World) (tr : trace),
      glob w tr = Ok [] ->
      getPylintScore w tr
      = (Ok (number_of_Z 10),
         tr ++ [GlobFiles; ConsoleLog "files";
                ConsoleLog "No Python files found in the repository."]))
  /\ (forall pre post : jsstring,
         (forall i, (i < List.length pre)%nat ->
                    match_rating_here
                      (skipn i (pre ++ lit "Your code has been rated at 7.50"
                                    ++ post)) = None) ->
         no_digit_ahead post ->
         parsePylint (pre ++ lit "Your code has been rated at 7.50" ++ post)
         = binary64_round false 15 2)
  /\ (forall report : jsstring,
         ~ contains_rating report ->
         parsePylint report = S754_zero false).
Proof.
  split; [exact getPylintScore_no_files|]. split.
  - intros pre post Hpre Hpost. unfold parsePylint.
    rewrite (match_rating_skip _ _ Hpre).
    rewrite (@match_rating_head _ (lit "7.50")); [vm_compute; reflexivity|].
    apply (@match_rating_here_sentence (lit "7") (lit "50") post);
      try discriminate; try reflexivity; exact Hpost.
  - intros report Hno. unfold parsePylint.
    destruct (match_rating report) as [g|] eqn:E; [|reflexivity].
    destruct Hno. eapply match_rating_Some, E.
Qed.

(** The report of the sample linter run. *)
Lemma C6_witness : parsePylint sample_report = binary64_round false 15 2.
Proof.
  destruct C6_lint_score as (_ & H & _).
  apply (H (lit "************* Module app" ++ [c_newline])
           (lit "/10 (previous run: 5.00/10, +2.50)")).
  - intros i Hi.
    do 25 (destruct i as [|i]; [vm_compute; reflexivity|]).
    simpl in Hi. lia.
  - reflexivity.
Defined.

(** C6 as stated fails: this report contains the sentence
    [Your code has been rated at 7.50], and [parsePylint] returns 3, the
    rating of the sentence before it. *)
Lemma C6_counterexample :
  (exists pre post,
      lit "Your code has been rated at 3.00/10" ++ [c_newline]
      ++ lit "Your code has been rated at 7.50/10"
      = pre ++ lit "Your code has been rated at 7.50" ++ post)
  /\ parsePylint (lit "Your code has been rated at 3.00/10" ++ [c_newline]
                  ++ lit "Your code has been rated at 7.50/10")
     = number_of_Z 3
  /\ number_eqb (number_of_Z 3) (binary64_round false 15 2) = false.
Proof.
  split.
  - exists (lit "Your code has been rated at 3.00/10" ++ [c_newline]), (lit "/10").
    reflexivity.
  - split; vm_compute; reflexivity.
Qed.

(** ** Lint comment and review *)

Lemma no_review_silent new :
  Forall no_review new -> review_submissions new = [].
Proof.
  induction 1 as [|e new He _ IH]; [reflexivity|].
  destruct e; simpl in *; try contradiction; exact IH.
Qed.

Lemma posts_nothing_no_review e : posts_nothing e -> no_review e.
Proof. destruct e; simpl; tauto. Qed.

Lemma reportResults_no_comments w prDetails tr :
  exists new,
    snd (reportResults w prDetails [] tr) = tr ++ new /\ Forall no_review new.
Proof.
  assert (H : emits_only no_review (reportResults w prDetails [])).
  { unfold reportResults, addPullRequestComment.
    apply emits_only_bind.
    - eapply emits_only_weaken;
        [apply posts_nothing_no_review | apply getPylintScore_emits].
    - intros score. apply emits_only_bind; [now apply emits_only_call|].
      intros _. apply emits_only_ret. }
  apply H.
Qed.

(** The sample run up to line 392. *)
Lemma sample_reaches_report lint :
  reaches_report (sample_world (text_answer one_finding) lint)
    sample_prDetails sample_comments (sample_trace lint).
Proof.
  unfold reaches_report.
  do 7 eexists.
  split; [vm_compute; reflexivity|].
  split; [vm_compute; reflexivity|].
  split; [vm_compute; reflexivity|].
  split; [vm_compute; reflexivity|].
  split; [discriminate|].
  split; [vm_compute; reflexivity|].
  split; [vm_compute; reflexivity|].
  vm_compute. reflexivity.
Qed.

Lemma emits_silent {A : Type} (c : M A) tr r tr' :
  emits_only posts_nothing c -> c tr = (r, tr') ->
  review_submissions tr = [] -> review_submissions tr' = [].
Proof.
  intros Hc E Htr. destruct (Hc tr) as (new & E' & F).
  rewrite E in E'. simpl in E'. subst tr'.
  rewrite review_submissions_app, Htr. now destruct (posts_nothing_silent F).
Qed.

(** A run either ends before line 393 without having posted anything, or
    reaches the report with the comments [analyzeCode] returned. *)
Lemma main_cases w :
  (exists r tr, main w [] = (r, tr) /\ review_submissions tr = [])
  \/ (exists prDetails comments tr, reaches_report w prDetails comments tr).
Proof.
  unfold main, reaches_report.
  destruct (getPRDetails w []) as [[prDetails|e] tr1] eqn:E1.
  2: { left. exists (Throw e), tr1. unfold bind at 1. rewrite E1.
       split; [reflexivity|].
       exact (@emits_silent _ _ _ _ _ (getPRDetails_emits w) E1 eq_refl). }
  pose proof (@emits_silent _ _ _ _ _ (getPRDetails_emits w) E1 eq_refl) as S1.
  unfold bind at 1. rewrite E1.
  destruct (readFileSync w (event_path w)) as [text|e] eqn:E2.
  2: { left. exists (Throw e), tr1. now split. }
  unfold bind at 1, lift.
  destruct (JSON_parse text) as [eventData|e] eqn:E3.
  2: { left. exists (Throw e), tr1. now split. }
  unfold bind at 1.
  destruct (fetchDiff w prDetails eventData tr1) as [[fetched|e] tr2] eqn:E4.
  2: { left. exists (Throw e), tr2. unfold bind at 1. rewrite E4.
       split; [reflexivity|].
       exact (@emits_silent _ _ _ _ _ (fetchDiff_emits w prDetails eventData) E4 S1). }
  pose proof (@emits_silent _ _ _ _ _ (fetchDiff_emits w prDetails eventData) E4 S1) as S2.
  unfold bind at 1. rewrite E4.
  destruct fetched as [[[|c diff]|]|].
  - left. eexists _, _. split; [reflexivity|].
    unfold console_log, emit, bind, ret. simpl.
    now rewrite review_submissions_app, S2.
  - destruct (parseDiff w (c :: diff)) as [parsedDiff|e] eqn:E6.
    2: { left. exists (Throw e), tr2. now split. }
    unfold bind at 1, lift.
    destruct (filterDiff (glob_match w) (excludePatterns (input_exclude w))
                parsedDiff) as [filteredDiff|e] eqn:Ef.
    2: { left. exists (Throw e), tr2. now split. }
    unfold bind at 1.
    match goal with
    | |- context [analyzeCode w ?fd prDetails] =>
        destruct (analyzeCode w fd prDetails tr2) as [[comments|e] tr3] eqn:E7
    end.
    + right. exists prDetails, comments, tr3, text, eventData, (c :: diff),
        parsedDiff, filteredDiff, tr1, tr2.
      repeat split; try assumption. discriminate.
    + left. exists (Throw e), tr3. unfold bind at 1. rewrite E7.
      split; [reflexivity|].
      exact (@emits_silent _ _ _ _ _ (analyzeCode_emits w _ prDetails) E7 S2).
  - left. eexists _, _. split; [reflexivity|].
    unfold console_log, emit, bind, ret. simpl.
    now rewrite review_submissions_app, S2.
  - left. eexists _, _. split; [reflexivity|]. exact S2.
Qed.

(** Where a run's review comes from: a run submits nothing, or it reached
    the report with a non-empty list of comments and submitted exactly that
    list, once, with the event type [COMMENT]. *)
Lemma run_review_origin w :
  review_submissions (run w) = []
  \/ exists prDetails comments tr,
       reaches_report w prDetails comments tr
       /\ comments <> []
       /\ review_submissions (run w) = [(comments, lit "COMMENT")].
Proof.
  destruct (main_cases w) as [(r & tr & E & S) | (prDetails & comments & tr & R)].
  - left. unfold run, action, try_catch. rewrite E.
    destruct r as [[]|e]; [exact S|].
    unfold console_error, emit, bind. simpl.
    now rewrite !review_submissions_app, S.
  - pose proof (reaches_report_silent R) as [S _].
    pose proof (run_of_report R) as Erun.
    destruct comments as [|c cs].
    + left. rewrite Erun. clear Erun.
      destruct (reportResults_no_comments w prDetails tr) as (new & E & F).
      destruct (reportResults w prDetails [] tr) as [[[]|e] tr']; simpl in E;
        subst tr'; rewrite ?review_submissions_app, S, (no_review_silent F);
        reflexivity.
    + unfold reportResults, bind at 1 in Erun.
      destruct (getPylintScore w tr) as [[score|e] tr1] eqn:E1.
      2: { left. rewrite Erun, review_submissions_app.
           now rewrite (@emits_silent _ _ _ _ _ (getPylintScore_emits w) E1 S). }
      pose proof (@emits_silent _ _ _ _ _ (getPylintScore_emits w) E1 S) as S1.
      unfold bind, addPullRequestComment, call in Erun.
      destruct (issues_createComment w tr1 (owner prDetails) (repo prDetails)
                  (pull_number prDetails) (scoreComment score)) as [[]|err].
      2: { left. now rewrite Erun, !review_submissions_app, S1. }
      right. exists prDetails, (c :: cs), tr.
      split; [exact R|]. split; [discriminate|].
      unfold createReviewComment, call in Erun.
      match type of Erun with
      | context [pulls_createReview ?a ?b ?c ?d ?e ?f ?g] =>
          destruct (pulls_createReview a b c d e f g) as [[]|err]
      end; rewrite Erun, !review_submissions_app, S1; reflexivity.
Qed.

(** C7 (amended).  No run ever submits an empty review or one with another
    event type than [COMMENT]; a run that submits anything has accumulated a
    non-empty list of comments and submits exactly that list, once; a run
    that accumulated no comment submits none.  A run that accumulated
    comments submits them if and only if it gets as far as line 402: when
    the lint score collector throws, or the host refuses the lint comment,
    nothing is submitted; when both succeed, the comments are submitted as
    exactly one batch. *)
Theorem C7_review_submitted_iff_comments :
  forall w : World,
    Forall (fun s => fst s <> [] /\ snd s = lit "COMMENT")
           (review_submissions (run w))
    /\ (review_submissions (run w) = []
        \/ exists prDetails comments tr,
             reaches_report w prDetails comments tr
             /\ comments <> []
             /\ review_submissions (run w) = [(comments, lit "COMMENT")])
    /\ forall prDetails comments tr,
         reaches_report w prDetails comments tr ->
         (comments = [] -> review_submissions (run w) = [])
         /\ (forall e tr1,
                getPylintScore w tr = (Throw e, tr1) ->
                review_submissions (run w) = [])
         /\ (forall score tr1 e,
                getPylintScore w tr = (Ok score, tr1) ->
                issues_createComment w tr1 (owner prDetails) (repo prDetails)
                  (pull_number prDetails) (scoreComment score) = Throw e ->
                review_submissions (run w) = [])
         /\ (forall score tr1,
                getPylintScore w tr = (Ok score, tr1) ->
                issues_createComment w tr1 (owner prDetails) (repo prDetails)
                  (pull_number prDetails) (scoreComment score) = Ok tt ->
                review_submissions (run w)
                = match comments with
                  | [] => []
                  | _ :: _ => [(comments, lit "COMMENT")]
                  end).
Proof.
  intros w. split.
  { destruct (action_emits w []) as (new & E & F).
    unfold run. rewrite E. simpl. now apply review_well_formed_submissions. }
  split; [apply run_review_origin|].
  intros prDetails comments tr Hreach.
  pose proof (reaches_report_silent Hreach) as [Hsilent _].
  rewrite (run_of_report Hreach). split; [|split; [|split]].
  - intros ->.
    destruct (reportResults_no_comments w prDetails tr) as (new & E & F).
    destruct (reportResults w prDetails [] tr) as [[[]|e] tr']; simpl in E;
      subst tr'; rewrite ?review_submissions_app, Hsilent,
        (no_review_silent F); reflexivity.
  - intros e tr1 Hscore.
    pose proof (@emits_silent _ _ _ _ _ (getPylintScore_emits w) Hscore Hsilent)
      as Htr1.
    unfold reportResults, bind at 1. rewrite Hscore.
    now rewrite review_submissions_app, Htr1.
  - intros score tr1 e Hscore Hpost.
    pose proof (@emits_silent _ _ _ _ _ (getPylintScore_emits w) Hscore Hsilent)
      as Htr1.
    unfold reportResults, bind at 1. rewrite Hscore.
    unfold bind at 1, addPullRequestComment, call. rewrite Hpost.
    now rewrite !review_submissions_app, Htr1.
  - intros score tr1 Hscore Hpost.
    pose proof (@emits_silent _ _ _ _ _ (getPylintScore_emits w) Hscore Hsilent)
      as Htr1.
    unfold reportResults, bind at 1. rewrite Hscore.
    unfold bind, addPullRequestComment, call. rewrite Hpost.
    destruct comments as [|c cs].
    + simpl. now rewrite review_submissions_app, Htr1.
    + unfold createReviewComment, call.
      match goal with
      | |- context [pulls_createReview ?a ?b ?c ?d ?e ?f ?g] =>
          destruct (pulls_createReview a b c d e f g) as [[]|err]
      end; rewrite !review_submissions_app, Htr1; reflexivity.
Qed.

(** The sample run: one finding, one review of one comment. *)
Lemma C7_witness :
  review_submissions
    (run (sample_world (text_answer one_finding) (Ok (sample_report, []))))
  = [(sample_comments, lit "COMMENT")].
Proof.
  destruct (C7_review_submitted_iff_comments
              (sample_world (text_answer one_finding) (Ok (sample_report, []))))
    as [_ [_ H]].
  destruct (H _ _ _ (sample_reaches_report (Ok (sample_report, []))))
    as (_ & _ & _ & H').
  eapply H'; vm_compute; reflexivity.
Defined.

(** C7 as stated fails: the sample run accumulates one comment, the linter
    call rejects, and no review is submitted. *)
Lemma C7_counterexample :
  reaches_report (sample_world (text_answer one_finding) failing_linter)
    sample_prDetails sample_comments (sample_trace failing_linter)
  /\ List.length sample_comments = 1%nat
  /\ getPylintScore (sample_world (text_answer one_finding) failing_linter)
       (sample_trace failing_linter)
     = (Throw (Rejected "Command failed: pylint app.py --exit-zero  --output-format=text"),
        sample_trace failing_linter
        ++ [GlobFiles; ConsoleLog "files"; Exec (pylint_command [lit "app.py"])])
  /\ review_submissions
       (run (sample_world (text_answer one_finding) failing_linter)) = [].
Proof.
  split; [apply sample_reaches_report|].
  repeat split; vm_compute; reflexivity.
Qed.

(** C1 (amended).  In a run that reaches the lint step with files to lint:
    when [execAsync] rejects, nothing catches the exception, the run stops
    there with neither lint comment nor review posted, and the process exits
    with status 1; when the linter exits normally, what it wrote to standard
    error is only logged and the run goes on to post the lint comment. *)
Theorem C1_linter_failure_aborts_run :
  forall (w : World) (prDetails : PRDetails) (comments : list Comment)
         (tr : trace) (files : list jsstring),
    reaches_report w prDetails comments tr ->
    glob w tr = Ok files ->
    files <> [] ->
    (forall e,
        execAsync w (tr ++ [GlobFiles; ConsoleLog "files"]) (pylint_command files)
        = Throw e ->
        run w = tr ++ [GlobFiles; ConsoleLog "files"; Exec (pylint_command files);
                       ConsoleError "Error:"; ProcessExit 1]
        /\ review_submissions (run w) = []
        /\ lint_comments (run w) = [])
    /\ (forall stdout stderr,
           execAsync w (tr ++ [GlobFiles; ConsoleLog "files"])
             (pylint_command files) = Ok (stdout, stderr) ->
           exists rest,
             run w = tr ++ [GlobFiles; ConsoleLog "files";
                            Exec (pylint_command files)]
                     ++ (if is_empty stderr then []
                         else [ConsoleError "Pylint error:"])
                     ++ IssuesCreateComment (owner prDetails) (repo prDetails)
                          (pull_number prDetails)
                          (scoreComment (parsePylint stdout)) :: rest).
Proof.
  intros w prDetails comments tr files Hreach Hglob Hfiles.
  pose proof (reaches_report_silent Hreach) as [Hrev Hlint].
  rewrite (run_of_report Hreach). split.
  - intros e He.
    assert (Hrep : reportResults w prDetails comments tr
                   = (Throw e, tr ++ [GlobFiles; ConsoleLog "files";
                                      Exec (pylint_command files)])).
    { unfold reportResults, bind at 1.
      now rewrite (getPylintScore_rejected _ _ Hglob Hfiles He). }
    rewrite Hrep, <- app_assoc. simpl. split; [reflexivity|].
    rewrite review_submissions_app, lint_comments_app, Hrev, Hlint.
    now split.
  - intros stdout stderr He.
    unfold reportResults, bind at 1.
    rewrite (getPylintScore_resolved _ _ Hglob Hfiles He).
    unfold bind at 1, addPullRequestComment, call.
    match goal with
    | |- context [issues_createComment ?a ?b ?c ?d ?e ?f] =>
        destruct (issues_createComment a b c d e f) as [[]|err]
    end.
    + destruct comments as [|c cs].
      * exists []. simpl. now rewrite <- !app_assoc.
      * unfold createReviewComment, call.
        match goal with
        | |- context [pulls_createReview ?a ?b ?c ?d ?e ?f ?g] =>
            destruct (pulls_createReview a b c d e f g) as [[]|err]
        end; eexists; rewrite <- !app_assoc; simpl; reflexivity.
    + eexists. rewrite <- !app_assoc. simpl. reflexivity.
Qed.

Lemma C1_witness :
  run (sample_world (text_answer one_finding) failing_linter)
  = sample_trace failing_linter
    ++ [GlobFiles; ConsoleLog "files"; Exec (pylint_command [lit "app.py"]);
        ConsoleError "Error:"; ProcessExit 1].
Proof.
  destruct (@C1_linter_failure_aborts_run
              (sample_world (text_answer one_finding) failing_linter)
              sample_prDetails sample_comments (sample_trace failing_linter)
              [lit "app.py"] (sample_reaches_report failing_linter) eq_refl)
    as [H _]; [discriminate|].
  destruct (H (Rejected "Command failed: pylint app.py --exit-zero  --output-format=text")
              eq_refl) as [Hrun _].
  exact Hrun.
Defined.

(** C1 as stated fails: the linter call rejects in a run that accumulated a
    comment; the run posts no review and no lint comment, and exits with
    status 1. *)
Lemma C1_counterexample :
  execAsync (sample_world (text_answer one_finding) failing_linter)
    (sample_trace failing_linter ++ [GlobFiles; ConsoleLog "files"])
    (pylint_command [lit "app.py"]) = failing_linter
  /\ reaches_report (sample_world (text_answer one_finding) failing_linter)
       sample_prDetails sample_comments (sample_trace failing_linter)
  /\ sample_comments <> []
  /\ review_submissions
       (run (sample_world (text_answer one_finding) failing_linter)) = []
  /\ lint_comments
       (run (sample_world (text_answer one_finding) failing_linter)) = []
  /\ last (run (sample_world (text_answer one_finding) failing_linter))
          GlobFiles = ProcessExit 1.
Proof.
  split; [reflexivity|].
  split; [apply sample_reaches_report|].
  split; [discriminate|].
  repeat split; vm_compute; reflexivity.
Qed.

(** ** Unsupported events *)

(** X3.  An event whose action is neither [opened] nor [synchronize] ends the run
    after the pull request was looked up: one log line, no other call, no
    exit status other than success (scenario B of the specification). *)
Lemma unsupported_event_is_a_no_op w prDetails tr text eventData kind :
  getPRDetails w [] = (Ok prDetails, tr) ->
  readFileSync w (event_path w) = Ok text ->
  JSON_parse text = Ok eventData ->
  Get eventData (lit "action") = Ok kind ->
  is_string kind (lit "opened") = false ->
  is_string kind (lit "synchronize") = false ->
  run w = tr ++ [ConsoleLog "Unsupported event:"]
  /\ exists o r n, tr = [PullsGet o r n].
Proof.
  intros H1 H2 H3 H4 H5 H6. split.
  - unfold run, action, try_catch, main, bind at 1. rewrite H1.
    unfold bind at 1, lift. rewrite H2.
    unfold bind at 1. rewrite H3.
    unfold bind at 1, fetchDiff, bind at 1, lift. rewrite H4, H5, H6.
    reflexivity.
  - revert H1. unfold getPRDetails. run_monad.
    repeat match goal with
           | |- context [match ?x with _ => _ end] => destruct x
           end; intros H; inversion H; eauto.
Qed.

Lemma unsupported_event_witness :
  run (sample_world_on "closed")
  = [PullsGet (VString (lit "octo")) (VString (lit "demo"))
       (VNumber (number_of_Z 7));
     ConsoleLog "Unsupported event:"].
Proof.
  destruct (@unsupported_event_is_a_no_op (sample_world_on "closed")
              sample_prDetails
              [PullsGet (VString (lit "octo")) (VString (lit "demo"))
                 (VNumber (number_of_Z 7))]
              (json_lit "{'action':'closed','number':7,'repository':{'name':'demo','owner':{'login':'octo'}}}")
              (VObject [(lit "action", VString (lit "closed"));
                        (lit "number", VNumber (number_of_Z 7));
                        (lit "repository",
                         VObject [(lit "name", VString (lit "demo"));
                                  (lit "owner",
                                   VObject [(lit "login", VString (lit "octo"))])])])
              (VString (lit "closed"))
              eq_refl eq_refl eq_refl eq_refl eq_refl eq_refl)
    as [H _].
  exact H.
Defined.

(** ** The calls of the model API *)

Lemma model_calls_app tr1 tr2 :
  model_calls (tr1 ++ tr2) = model_calls tr1 ++ model_calls tr2.
Proof.
  induction tr1 as [|e tr1 IH]; [reflexivity|].
  destruct e; simpl; rewrite IH; reflexivity.
Qed.

Lemma no_model_call_silent new :
  Forall no_model_call new -> model_calls new = [].
Proof.
  induction 1 as [|e new He _ IH]; [reflexivity|].
  destruct e; simpl in *; try contradiction; exact IH.
Qed.

Lemma emits_model_calls {A : Type} (c : M A) tr :
  emits_only no_model_call c -> model_calls (snd (c tr)) = model_calls tr.
Proof.
  intros H. destruct (H tr) as (new & -> & F).
  now rewrite model_calls_app, (no_model_call_silent F), app_nil_r.
Qed.

Lemma try_catch_call {A B : Type} e (answer : trace -> result A)
  (k : A -> M B) h tr :
  try_catch (bind (call e answer) k) h tr
  = match answer tr with
    | Ok r => try_catch (k r) h (tr ++ [e])
    | Throw err => h err (tr ++ [e])
    end.
Proof.
  unfold try_catch, bind, call. now destruct (answer tr).
Qed.

(** [getAIResponse] calls the model API once, with its prompt. *)
Lemma getAIResponse_calls w prompt tr :
  model_calls (snd (getAIResponse w prompt tr)) = model_calls tr ++ [prompt].
Proof.
  unfold getAIResponse. rewrite try_catch_call.
  assert (E : model_calls (tr ++ [MessagesCreate prompt])
              = model_calls tr ++ [prompt])
    by now rewrite model_calls_app.
  destruct (messages_create w tr prompt) as [response|err].
  - rewrite emits_model_calls; [exact E|].
    unfold parseWithRecovery, extractReviews, console_log, console_error.
    emits.
  - rewrite emits_model_calls; [exact E|].
    unfold console_error. emits.
Qed.

(** X7.  One invocation of [getAIResponse] is one call of the model API, with
    the prompt it was given, whatever the call and the parsers do: the
    recovery pass parses again, it does not ask again. *)
Theorem adapter_calls_the_model_once :
  forall (w : World) (prompt : jsstring) (tr : trace),
    model_calls (snd (getAIResponse w prompt tr)) = model_calls tr ++ [prompt].
Proof. intros w prompt tr. apply getAIResponse_calls. Qed.

Lemma analyzeChunks_calls w file prDetails cs :
  forall comments tr result tr',
    analyzeChunks w file prDetails cs comments tr = (Ok result, tr') ->
    model_calls tr'
    = model_calls tr
      ++ map (fun chunk => createPrompt w file chunk prDetails) cs.
Proof.
  induction cs as [|chunk rest IH]; intros comments tr result tr'; simpl.
  - unfold ret. intros H. injection H as _ <-. now rewrite app_nil_r.
  - unfold bind at 1.
    pose proof (getAIResponse_calls w (createPrompt w file chunk prDetails) tr)
      as Hc.
    destruct (getAIResponse w _ tr) as [[[findings|]|e] tr1]; simpl in Hc;
      [| |discriminate].
    + unfold bind at 1, lift.
      destruct (createComment file chunk findings) as [new|e]; [|discriminate].
      intros H. rewrite (IH _ _ _ _ H), Hc, <- app_assoc. reflexivity.
    + intros H. rewrite (IH _ _ _ _ H), Hc, <- app_assoc. reflexivity.
Qed.

Lemma analyzeFiles_calls w prDetails files :
  forall comments tr result tr',
    analyzeFiles w prDetails files comments tr = (Ok result, tr') ->
    model_calls tr' = model_calls tr ++ prompts_of w prDetails files.
Proof.
  induction files as [|file rest IH]; intros comments tr result tr'; simpl.
  - unfold ret. intros H. injection H as _ <-. now rewrite app_nil_r.
  - destruct (is_dev_null file).
    + apply IH.
    + unfold bind at 1.
      destruct (analyzeChunks w file prDetails (chunks file) comments tr)
        as [[comments'|e] tr1] eqn:Ea; [|discriminate].
      intros H. rewrite (IH _ _ _ _ H), (analyzeChunks_calls _ _ _ _ _ _ Ea).
      now rewrite <- app_assoc.
Qed.

(** X4.  When [analyzeCode] returns, it has called the model API once for
    every chunk of every file that is not deleted, in the order of the diff,
    each time with the prompt of that chunk. *)
Theorem analyzeCode_calls_model_once_per_chunk :
  forall (w : World) (parsedDiff : list File) (prDetails : PRDetails)
         (tr : trace) (comments : list Comment) (tr' : trace),
    analyzeCode w parsedDiff prDetails tr = (Ok comments, tr') ->
    model_calls tr' = model_calls tr ++ prompts_of w prDetails parsedDiff.
Proof.
  intros w parsedDiff prDetails tr comments tr' H.
  exact (analyzeFiles_calls _ _ _ _ _ H).
Qed.

(** The sample diff: a deleted file and one chunk of [app.py], one call. *)
Lemma analyzeCode_calls_witness :
  model_calls (sample_trace (Ok (sample_report, [])))
  = [createPrompt (sample_world (text_answer one_finding) (Ok (sample_report, [])))
       sample_file sample_chunk sample_prDetails].
Proof.
  apply (@analyzeCode_calls_model_once_per_chunk
           (sample_world (text_answer one_finding) (Ok (sample_report, [])))
           sample_diff sample_prDetails
           [PullsGet (owner sample_prDetails) (repo sample_prDetails)
              (pull_number sample_prDetails);
            PullsGetDiff (owner sample_prDetails) (repo sample_prDetails)
              (pull_number sample_prDetails)]
           sample_comments (sample_trace (Ok (sample_report, [])))).
  vm_compute. reflexivity.
Defined.


Lemma getAIResponse_emits_prompt w prompt :
  emits_only (fun e => match e with
                       | MessagesCreate p => p = prompt
                       | ConsoleLog _ | ConsoleError _ => True
                       | _ => False
                       end) (getAIResponse w prompt).
Proof.
  unfold getAIResponse, parseWithRecovery, extractReviews,
    console_log, console_error.
  emits. reflexivity.
Qed.

Lemma analyzeChunks_emits_among w prDetails files file :
  In file files -> is_dev_null file = false ->
  forall cs comments,
    (forall chunk, In chunk cs -> In chunk (chunks file)) ->
    emits_only (prompt_among w prDetails files)
      (analyzeChunks w file prDetails cs comments).
Proof.
  intros Hin Hd. induction cs as [|chunk rest IH]; intros comments Hcs; simpl.
  - apply emits_only_ret.
  - apply emits_only_bind.
    + eapply emits_only_weaken; [|apply getAIResponse_emits_prompt].
      intros [] He; try exact He. simpl. exists file, chunk.
      repeat split; try assumption. apply Hcs. now left.
    + assert (Hrest : forall c, In c rest -> In c (chunks file))
        by (intros c Hc; apply Hcs; now right).
      intros [findings|]; [|now apply IH].
      apply emits_only_bind; [apply emits_only_lift|]. intros ?. now apply IH.
Qed.

Lemma analyzeFiles_emits_among w prDetails all :
  forall files comments,
    (forall file, In file files -> In file all) ->
    emits_only (prompt_among w prDetails all)
      (analyzeFiles w prDetails files comments).
Proof.
  induction files as [|file rest IH]; intros comments Hall; simpl.
  - apply emits_only_ret.
  - assert (Hrest : forall f, In f rest -> In f all)
      by (intros f Hf; apply Hall; now right).
    destruct (is_dev_null file) eqn:Ed; [now apply IH|].
    apply emits_only_bind.
    + apply analyzeChunks_emits_among; [apply Hall; now left | exact Ed | auto].
    + intros ?. now apply IH.
Qed.

Lemma analyzeCode_emits_among w parsedDiff prDetails :
  emits_only (prompt_among w prDetails parsedDiff)
    (analyzeCode w parsedDiff prDetails).
Proof.
  unfold analyzeCode. apply analyzeFiles_emits_among. intros f Hf. exact Hf.
Qed.









Lemma analyzeChunks_model_down w file prDetails :
  (forall tr prompt, exists e, messages_create w tr prompt = Throw e) ->
  forall cs comments tr,
    fst (analyzeChunks w file prDetails cs comments tr) = Ok comments.
Proof.
  intros Hdown. induction cs as [|chunk rest IH]; intros comments tr; simpl.
  - reflexivity.
  - unfold bind at 1.
    destruct (Hdown tr (createPrompt w file chunk prDetails)) as [e He].
    pose proof (getAIResponse_rejected _ _ _ He) as Hr.
    destruct (getAIResponse w _ tr) as [r tr1]. simpl in Hr. subst r.
    apply IH.
Qed.

(** X6.  When every call of the model API fails, [analyzeCode] throws
    nothing and returns no comment. *)
Theorem model_outage_yields_no_comments :
  forall (w : World) (parsedDiff : list File) (prDetails : PRDetails)
         (tr : trace),
    (forall tr prompt, exists e, messages_create w tr prompt = Throw e) ->
    fst (analyzeCode w parsedDiff prDetails tr) = Ok [].
Proof.
  intros w parsedDiff prDetails tr Hdown. unfold analyzeCode.
  generalize (@nil Comment) as comments. revert tr.
  induction parsedDiff as [|file rest IH]; intros tr comments; simpl.
  - reflexivity.
  - destruct (is_dev_null file); [apply IH|].
    unfold bind at 1.
    pose proof (@analyzeChunks_model_down w file prDetails Hdown
                  (chunks file) comments tr) as Hc.
    destruct (analyzeChunks w file prDetails (chunks file) comments tr)
      as [r tr1]. simpl in Hc. subst r. apply IH.
Qed.

(** The sample diff with the model API down. *)
Lemma model_outage_witness :
  fst (analyzeCode (sample_world model_down (Ok (sample_report, [])))
         sample_diff sample_prDetails []) = Ok [].
Proof.
  apply (@model_outage_yields_no_comments
           (sample_world model_down (Ok (sample_report, [])))
           sample_diff sample_prDetails []).
  intros tr prompt. now exists (Rejected "503 Service Unavailable").
Defined.

(** ** What the adapter returns *)

Lemma sanitizeReview_string review f :
  finding_of review f -> sanitizeReview review = Ok f.
Proof.
  intros (Hn & s & Hs & Hc & Hf). unfold sanitizeReview.
  rewrite Hn, Hc. simpl. rewrite (json_round_trip_string Hs). simpl.
  destruct f as [n c]. simpl in *. now subst c.
Qed.

Lemma mapR_sanitizeReview elements findings :
  Forall2 finding_of elements findings ->
  mapR sanitizeReview elements = Ok findings.
Proof.
  induction 1 as [|review f elements findings H _ IH]; [reflexivity|].
  simpl. rewrite (sanitizeReview_string H), IH. reflexivity.
Qed.

(** X8.  When the response text is JSON with a [reviews] array whose
    elements all have a string for [reviewComment], [getAIResponse] returns
    one finding for each element, in order, with the [lineNumber] and the
    [reviewComment] of the element unchanged. *)
Theorem findings_with_text_comments_are_returned :
  forall (w : World) (prompt : jsstring) (tr : trace) (response : Message)
         (content : jsstring) (parsedContent : value)
         (elements : list value) (findings : list Finding),
    messages_create w tr prompt = Ok response ->
    first_text response = Ok content ->
    JSON_parse content = Ok parsedContent ->
    Get parsedContent (lit "reviews") = Ok (VArray elements) ->
    Forall2 finding_of elements findings ->
    fst (getAIResponse w prompt tr) = Ok (Some findings).
Proof.
  intros w prompt tr response content parsedContent elements findings
    Hr Hc Hp Hg Hf.
  rewrite (getAIResponse_fst _ _ _ Hr Hc), Hp. unfold reviewsOf. rewrite Hg.
  now rewrite (mapR_sanitizeReview Hf).
Qed.

(** The sample response. *)
Lemma findings_returned_witness :
  fst (getAIResponse
         (sample_world (text_answer one_finding) (Ok (sample_report, [])))
         (lit "prompt") [])
  = Ok (Some [finding_at "1"]).
Proof.
  apply (@findings_with_text_comments_are_returned
           (sample_world (text_answer one_finding) (Ok (sample_report, [])))
           (lit "prompt") [] {| content := [TextBlock one_finding] |}
           one_finding
           (VObject [(lit "reviews",
                      VArray [VObject [(lit "lineNumber", VString (lit "1"));
                                       (lit "reviewComment",
                                        VString (lit "Name the constant."))]])])
           [VObject [(lit "lineNumber", VString (lit "1"));
                     (lit "reviewComment", VString (lit "Name the constant."))]]
           [finding_at "1"]);
    try (vm_compute; reflexivity).
  constructor; [|constructor].
  split; [reflexivity|].
  exists (lit "Name the constant."). split; [|split; reflexivity].
  repeat constructor.
Defined.

(** X9.  A response whose content does not start with a text block gives
    [null]: without any block, reading the type of the first one throws;
    with another block first, the text is the empty string, which is no
    JSON. *)
Theorem response_without_leading_text_is_null :
  forall (w : World) (prompt : jsstring) (tr : trace) (response : Message),
    messages_create w tr prompt = Ok response ->
    (forall text rest, content response <> TextBlock text :: rest) ->
    fst (getAIResponse w prompt tr) = Ok None.
Proof.
  intros w prompt tr response Hr Hno.
  destruct (content response) as [|[text|] rest] eqn:Ec.
  - unfold getAIResponse. rewrite try_catch_call, Hr.
    unfold try_catch, bind at 1, lift, first_text. rewrite Ec. reflexivity.
  - now destruct (Hno text rest).
  - assert (Hf : first_text response = Ok []).
    { unfold first_text. now rewrite Ec. }
    rewrite (getAIResponse_fst _ _ _ Hr Hf). reflexivity.
Qed.

(** A response that starts with a block that is no text. *)
Lemma response_without_leading_text_witness :
  fst (getAIResponse (sample_world tool_answer (Ok ([], [])))
         (lit "prompt") []) = Ok None.
Proof.
  apply (@response_without_leading_text_is_null
           (sample_world tool_answer (Ok ([], [])))
           (lit "prompt") []
           {| content := [OtherBlock; TextBlock one_finding] |} eq_refl).
  intros text rest H. discriminate H.
Defined.

(** ** The recovery pass and control characters *)

Lemma replace_class_fixed cls r s :
  Forall (fun c => cls c = false) s -> replace_class cls r s = s.
Proof.
  induction 1 as [|c s Hc _ IH]; simpl; [reflexivity|].
  now rewrite Hc, IH.
Qed.

Lemma replace_class_removes cls s :
  Forall (fun c => cls c = false) (replace_class cls [] s).
Proof.
  induction s as [|c s IH]; simpl; [constructor|].
  destruct (cls c) eqn:E; [exact IH | now constructor].
Qed.

Lemma replace_class_Forall (P : char16 -> Prop) cls r s :
  Forall P r -> Forall P s -> Forall P (replace_class cls r s).
Proof.
  intros Hr. induction 1 as [|c s Hc _ IH]; simpl; [constructor|].
  destruct (cls c); [apply Forall_app; now split | now constructor].
Qed.

Lemma replace_pair_Forall (P : char16 -> Prop) a b r :
  Forall P r ->
  forall n s, (List.length s <= n)%nat -> Forall P s ->
              Forall P (replace_pair a b r s).
Proof.
  intros Hr. induction n as [|n IH]; intros s Hn Hs.
  - destruct s; [constructor | simpl in Hn; lia].
  - destruct s as [|c [|d s]]; [constructor | exact Hs |].
    rewrite replace_pair_cons2.
    inversion Hs as [|? ? Hc Hs']; subst.
    inversion Hs' as [|? ? Hd Hs'']; subst.
    destruct ((c =? a) && (d =? b))%N.
    + apply Forall_app. split; [exact Hr|].
      apply IH; [simpl in Hn; lia | exact Hs''].
    + constructor; [exact Hc|].
      apply IH; [simpl in Hn; simpl; lia | exact Hs'].
Qed.

(** X10.  The recovery pass deletes line breaks, tabs and form feeds instead
    of escaping them: the first replacement removes every control character,
    so the four replacements that follow it find nothing, and the cleaned
    text holds no control character. *)
Theorem recovery_pass_deletes_control_characters :
  forall content : jsstring,
    cleanContent content
    = replace_pair c_backslash c_apostrophe [c_apostrophe]
        (replace_class (N.eqb c_quote) [c_backslash; c_quote]
           (replace_class is_control [] content))
    /\ Forall (fun c => is_control c = false) (cleanContent content).
Proof.
  intros content.
  assert (H1 : Forall (fun c => is_control c = false)
                 (replace_class is_control [] content))
    by apply replace_class_removes.
  assert (Hfix : forall x r,
             is_control x = true ->
             replace_class (N.eqb x) r (replace_class is_control [] content)
             = replace_class is_control [] content).
  { intros x r Hx. apply replace_class_fixed.
    eapply Forall_impl; [|exact H1]. intros c Hc. simpl in Hc.
    destruct (x =? c)%N eqn:E; [|reflexivity].
    apply N.eqb_eq in E. subst c. now rewrite Hx in Hc. }
  assert (E : cleanContent content
              = replace_pair c_backslash c_apostrophe [c_apostrophe]
                  (replace_class (N.eqb c_quote) [c_backslash; c_quote]
                     (replace_class is_control [] content))).
  { unfold cleanContent. cbv zeta.
    rewrite (Hfix c_newline) by reflexivity.
    rewrite (Hfix c_return) by reflexivity.
    rewrite (Hfix c_tab) by reflexivity.
    rewrite (Hfix c_formfeed) by reflexivity.
    reflexivity. }
  split; [exact E|]. rewrite E.
  eapply replace_pair_Forall; [now repeat constructor | apply le_n |].
  apply replace_class_Forall; [now repeat constructor | exact H1].
Qed.

(** ** The comments of a review *)

(** X11.  For a file with a target path, [createComment] returns one
    comment for each finding, in order: its body is the [reviewComment], its
    path the target path of the file, its line [Number(lineNumber)]. *)
Theorem one_comment_per_finding :
  forall (file : File) (chunk : Chunk) (findings : list Finding)
         (comments : list Comment) (p : jsstring),
    createComment file chunk findings = Ok comments ->
    to file = Some p -> p <> [] ->
    Forall2 (fun f c => body c = reviewComment f
                        /\ path c = p
                        /\ ToNumber (lineNumber f) = Ok (line c))
            findings comments.
Proof.
  intros file chunk findings comments p H Hto Hp.
  apply createComment_spec in H. rewrite Hto in H.
  destruct p as [|c p]; [contradiction | exact H].
Qed.

(** The sample finding. *)
Lemma one_comment_per_finding_witness :
  Forall2 (fun f c => body c = reviewComment f
                      /\ path c = lit "app.py"
                      /\ ToNumber (lineNumber f) = Ok (line c))
          [finding_at "1"] sample_comments.
Proof.
  apply (@one_comment_per_finding sample_file sample_chunk
           [finding_at "1"] sample_comments (lit "app.py"));
    [reflexivity | reflexivity | discriminate].
Defined.

Lemma createComment_no_path file chunk findings :
  to file = None \/ to file = Some [] ->
  createComment file chunk findings = Ok [].
Proof.
  intros H. unfold createComment.
  assert (E : forall fs, mapR (fun _ : Finding => Ok (@nil Comment)) fs
                         = Ok (map (fun _ => []) fs)).
  { induction fs as [|f fs IH]; simpl; [reflexivity | now rewrite IH]. }
  destruct H as [-> | ->]; rewrite E; simpl; f_equal;
    induction findings; simpl; auto.
Qed.

Lemma analyzeChunks_no_path w file prDetails :
  to file = None \/ to file = Some [] ->
  forall cs comments tr,
    fst (analyzeChunks w file prDetails cs comments tr) = Ok comments.
Proof.
  intros Hto. induction cs as [|chunk rest IH]; intros comments tr; simpl.
  - reflexivity.
  - unfold bind at 1.
    destruct (getAIResponse_returns w (createPrompt w file chunk prDetails) tr)
      as (r & tr1 & ->).
    destruct r as [findings|]; [|apply IH].
    unfold bind at 1, lift. rewrite (createComment_no_path _ _ _ Hto).
    rewrite app_nil_r. apply IH.
Qed.

(** X12.  For a diff whose files all lack a target path, [analyzeCode] still
    calls the model API once for every chunk, and returns no comment. *)
Theorem files_without_target_path_yield_no_comments :
  forall (w : World) (parsedDiff : list File) (prDetails : PRDetails)
         (tr : trace),
    (forall file, In file parsedDiff -> to file = None \/ to file = Some []) ->
    exists tr',
      analyzeCode w parsedDiff prDetails tr = (Ok [], tr')
      /\ model_calls tr' = model_calls tr ++ prompts_of w prDetails parsedDiff.
Proof.
  intros w parsedDiff prDetails tr Hfiles.
  assert (H : fst (analyzeCode w parsedDiff prDetails tr) = Ok []).
  { unfold analyzeCode. generalize (@nil Comment) as comments. revert tr.
    induction parsedDiff as [|file rest IH]; intros tr comments; simpl.
    - reflexivity.
    - assert (Hrest : forall f, In f rest -> to f = None \/ to f = Some [])
        by (intros f Hf; apply Hfiles; now right).
      destruct (is_dev_null file); [now apply IH|].
      unfold bind at 1.
      pose proof (@analyzeChunks_no_path w file prDetails
                    (Hfiles file (or_introl eq_refl))
                    (chunks file) comments tr) as Hc.
      destruct (analyzeChunks w file prDetails (chunks file) comments tr)
        as [r tr1]. simpl in Hc. subst r. now apply IH. }
  destruct (analyzeCode w parsedDiff prDetails tr) as [r tr'] eqn:E.
  simpl in H. subst r. exists tr'. split; [reflexivity|].
  exact (analyzeFiles_calls _ _ _ _ _ E).
Qed.

(** A diff of one file without target path. *)
Lemma files_without_target_path_witness :
  exists tr',
    analyzeCode (sample_world (text_answer one_finding) (Ok (sample_report, [])))
      [nameless_file] sample_prDetails [] = (Ok [], tr')
    /\ model_calls tr'
       = model_calls []
         ++ prompts_of (sample_world (text_answer one_finding)
                          (Ok (sample_report, [])))
              sample_prDetails [nameless_file].
Proof.
  apply (@files_without_target_path_yield_no_comments
           (sample_world (text_answer one_finding) (Ok (sample_report, [])))
           [nameless_file] sample_prDetails []).
  intros file [<- | []]. now left.
Defined.

(** [ToString] raises no other exception than a TypeError. *)
Lemma ToString_TypeError : forall v e, ToString v = Throw e -> e = TypeError.
Proof.
  fix IH 1. intros [ | |b|x|s|elements|props] e; simpl; try discriminate.
  - induction elements as [|x rest IHl]; [discriminate|].
    assert (Hh : forall err,
               match x with
               | VUndefined | VNull => Ok []
               | _ => ToString x
               end = Throw err -> err = TypeError).
    { intros err Hx. apply (IH x). destruct x; try discriminate; exact Hx. }
    destruct (match x with
              | VUndefined | VNull => Ok []
              | _ => ToString x
              end) as [h|err].
    + destruct rest as [|z rest']; [discriminate|].
      match goal with
      | |- context [match ?t with Ok _ => _ | Throw _ => _ end] =>
          destruct t eqn:Et
      end; [discriminate|].
      intros H. injection H as <-. now apply IHl.
    + intros H. injection H as <-. now apply Hh.
  - destruct (lookup (lit "toString") props); [|discriminate].
    intros H. now injection H as <-.
Qed.

Lemma ToNumber_TypeError v e : ToNumber v = Throw e -> e = TypeError.
Proof.
  destruct v; unfold ToNumber; try discriminate.
  - destruct (ToString (VArray elements)) eqn:E; [discriminate|].
    intros H. injection H as <-. exact (ToString_TypeError _ E).
  - destruct (ToString (VObject properties)) eqn:E; [discriminate|].
    intros H. injection H as <-. exact (ToString_TypeError _ E).
Qed.

Lemma mapR_Throw_same {A B : Type} (f : A -> result B) xs x e err :
  (forall y e', f y = Throw e' -> e' = err) ->
  In x xs -> f x = Throw e -> mapR f xs = Throw err.
Proof.
  intros Hf. induction xs as [|y xs IH]; [contradiction|].
  intros [->|Hin] Hx; simpl.
  - rewrite Hx. simpl. now rewrite (Hf _ _ Hx).
  - destruct (f y) eqn:Ey; simpl; [|now rewrite (Hf _ _ Ey)].
    now rewrite (IH Hin Hx).
Qed.

(** A finding whose line number cannot be converted makes [createComment]
    throw. *)
Lemma createComment_opaque_line file chunk findings p f props x :
  to file = Some p -> p <> [] ->
  In f findings ->
  lineNumber f = VObject props ->
  lookup (lit "toString") props = Some x ->
  createComment file chunk findings = Throw TypeError.
Proof.
  intros Hto Hp Hin Hl Hx. unfold createComment. rewrite Hto.
  destruct p as [|c p]; [contradiction|].
  rewrite (@mapR_Throw_same _ _ _ findings f TypeError TypeError);
    [reflexivity| |exact Hin|].
  - intros y e'. destruct (ToNumber (lineNumber y)) eqn:E; simpl;
      [discriminate|]. intros H. injection H as <-.
    exact (ToNumber_TypeError _ E).
  - rewrite Hl. simpl. now rewrite Hx.
Qed.

(** X13.  A finding whose [lineNumber] is an object with a member
    [toString] makes [Number] throw a TypeError; nothing in the review loop
    catches it, so [analyzeCode] stops at that chunk and the comments
    accumulated so far are lost. *)
Theorem unconvertible_line_number_aborts_the_review :
  forall (w : World) (file : File) (prDetails : PRDetails) (chunk : Chunk)
         (rest : list Chunk) (comments : list Comment) (tr tr1 : trace)
         (findings : list Finding) (p : jsstring) (f : Finding)
         (props : list (jsstring * value)) (x : value),
    getAIResponse w (createPrompt w file chunk prDetails) tr
    = (Ok (Some findings), tr1) ->
    to file = Some p -> p <> [] ->
    In f findings ->
    lineNumber f = VObject props ->
    lookup (lit "toString") props = Some x ->
    analyzeChunks w file prDetails (chunk :: rest) comments tr
    = (Throw TypeError, tr1).
Proof.
  intros w file prDetails chunk rest comments tr tr1 findings p f props x
    Hr Hto Hp Hin Hl Hx.
  simpl. unfold bind at 1. rewrite Hr. unfold bind at 1, lift.
  now rewrite (@createComment_opaque_line file chunk findings p f props x
                 Hto Hp Hin Hl Hx).
Qed.

(** The sample file with such a finding. *)
Lemma unconvertible_line_number_witness :
  analyzeChunks
    (sample_world (text_answer opaque_line_finding) (Ok (sample_report, [])))
    sample_file sample_prDetails [sample_chunk] [] []
  = (Throw TypeError,
     [MessagesCreate
        (createPrompt
           (sample_world (text_answer opaque_line_finding)
              (Ok (sample_report, [])))
           sample_file sample_chunk sample_prDetails)]).
Proof.
  apply (@unconvertible_line_number_aborts_the_review
           (sample_world (text_answer opaque_line_finding)
              (Ok (sample_report, [])))
           sample_file sample_prDetails sample_chunk [] [] []
           _
           [ {| lineNumber := VObject [(lit "toString", VNumber (number_of_Z 1))];
                reviewComment := VString (lit "Name the constant.") |} ]
           (lit "app.py")
           {| lineNumber := VObject [(lit "toString", VNumber (number_of_Z 1))];
              reviewComment := VString (lit "Name the constant.") |}
           [(lit "toString", VNumber (number_of_Z 1))]
           (VNumber (number_of_Z 1)));
    try (vm_compute; reflexivity); try discriminate.
  now left.
Defined.

Lemma analyzeChunks_group w file prDetails cs :
  forall comments tr result tr',
    analyzeChunks w file prDetails cs comments tr = (Ok result, tr') ->
    exists new, result = comments ++ new /\ comments_of_file file new.
Proof.
  induction cs as [|chunk rest IH]; intros comments tr result tr'; simpl.
  - unfold ret. intros H. injection H as <- _. exists [].
    split; [now rewrite app_nil_r | constructor].
  - unfold bind at 1.
    destruct (getAIResponse w _ tr) as [[[findings|]|e] tr1]; [| |discriminate].
    + unfold bind at 1, lift.
      destruct (createComment file chunk findings) as [new|e] eqn:Ec;
        [|discriminate].
      intros H. destruct (IH _ _ _ _ H) as (more & -> & Hmore).
      exists (new ++ more). split; [now rewrite app_assoc|].
      apply Forall_app. split; [|exact Hmore].
      apply createComment_paths in Ec.
      eapply Forall_impl; [|exact Ec]. now intros c [Hc _].
    + apply IH.
Qed.

Lemma analyzeFiles_groups w prDetails files :
  forall comments tr result tr',
    analyzeFiles w prDetails files comments tr = (Ok result, tr') ->
    exists groups,
      result = comments ++ List.concat groups
      /\ Forall2 comments_of_file files groups.
Proof.
  induction files as [|file rest IH]; intros comments tr result tr'; simpl.
  - unfold ret. intros H. injection H as <- _. exists [].
    split; [now rewrite app_nil_r | constructor].
  - destruct (is_dev_null file).
    + intros H. destruct (IH _ _ _ _ H) as (groups & -> & Hg).
      exists ([] :: groups). split; [reflexivity|].
      constructor; [constructor | exact Hg].
    + unfold bind at 1.
      destruct (analyzeChunks w file prDetails (chunks file) comments tr)
        as [[comments'|e] tr1] eqn:Ea; [|discriminate].
      intros H. destruct (IH _ _ _ _ H) as (groups & -> & Hg).
      destruct (analyzeChunks_group _ _ _ _ _ _ Ea) as (new & -> & Hnew).
      exists (new :: groups). split; [simpl; now rewrite app_assoc|].
      constructor; assumption.
Qed.

(** X14.  The comments [analyzeCode] returns are grouped by file, the groups
    in the order of the diff: every comment of the group of a file carries
    the target path of that file. *)
Theorem comments_follow_the_order_of_the_diff :
  forall (w : World) (parsedDiff : list File) (prDetails : PRDetails)
         (tr : trace) (comments : list Comment) (tr' : trace),
    analyzeCode w parsedDiff prDetails tr = (Ok comments, tr') ->
    exists groups,
      comments = List.concat groups
      /\ Forall2 comments_of_file parsedDiff groups.
Proof.
  intros w parsedDiff prDetails tr comments tr' H.
  exact (analyzeFiles_groups _ _ _ _ _ H).
Qed.

(** The sample diff: no comment for the deleted file, one for [app.py]. *)
Lemma comments_order_witness :
  exists groups,
    sample_comments = List.concat groups
    /\ Forall2 comments_of_file sample_diff groups.
Proof.
  apply (@comments_follow_the_order_of_the_diff
           (sample_world (text_answer one_finding) (Ok (sample_report, [])))
           sample_diff sample_prDetails [] sample_comments
           [MessagesCreate
              (createPrompt
                 (sample_world (text_answer one_finding) (Ok (sample_report, [])))
                 sample_file sample_chunk sample_prDetails)]).
  vm_compute. reflexivity.
Defined.

(** ** The exclusion patterns *)

Lemma split_no_sep sep p : ~ In sep p -> split sep p = [p].
Proof.
  induction p as [|c p IH]; intros H; simpl; [reflexivity|].
  destruct (c =? sep)%N eqn:E.
  - apply N.eqb_eq in E. subst c. destruct H. now left.
  - rewrite IH; [reflexivity|]. intros Hin. apply H. now right.
Qed.

Lemma split_app_sep sep p s :
  ~ In sep p -> split sep (p ++ sep :: s) = p :: split sep s.
Proof.
  induction p as [|c p IH]; intros H; simpl.
  - now rewrite N.eqb_refl.
  - destruct (c =? sep)%N eqn:E.
    + apply N.eqb_eq in E. subst c. destruct H. now left.
    + rewrite IH; [reflexivity|]. intros Hin. apply H. now right.
Qed.

(** Splitting what [join] made of parts without separator gives the parts. *)
Lemma split_join sep ps :
  ps <> [] -> (forall p, In p ps -> ~ In sep p) ->
  split sep (join [sep] ps) = ps.
Proof.
  induction ps as [|p ps IH]; intros Hne Hps; [contradiction|].
  destruct ps as [|q ps].
  - simpl. apply split_no_sep, Hps. now left.
  - change (join [sep] (p :: q :: ps)) with (p ++ sep :: join [sep] (q :: ps)).
    rewrite split_app_sep by (apply Hps; now left).
    rewrite IH; [reflexivity | discriminate |].
    intros r Hr. apply Hps. now right.
Qed.

(** X15.  An [exclude] input that lists patterns separated by commas yields
    these patterns, each one trimmed: white space around a comma does not
    matter. *)
Theorem exclude_patterns_of_a_list :
  forall patterns : list jsstring,
    patterns <> [] ->
    (forall p, In p patterns -> ~ In (ch ",") p) ->
    excludePatterns (join (lit ",") patterns) = map trim patterns.
Proof.
  intros patterns Hne Hp. unfold excludePatterns.
  change (lit ",") with [ch ","]. now rewrite split_join.
Qed.

(** Three patterns, with spaces around the second. *)
Lemma exclude_patterns_witness :
  excludePatterns (lit "docs/**, *.md ,dist/*")
  = [lit "docs/**"; lit "*.md"; lit "dist/*"].
Proof.
  apply (@exclude_patterns_of_a_list [lit "docs/**"; lit " *.md "; lit "dist/*"]).
  - discriminate.
  - intros p [<- | [<- | [<- | []]]]; intros H; vm_compute in H;
      repeat (destruct H as [H|H]; [discriminate|]); exact H.
Defined.

Lemma split_nonempty sep s : split sep s <> [].
Proof.
  destruct s as [|c s]; simpl; [discriminate|].
  destruct (c =? sep)%N; [discriminate|].
  destruct (split sep s); discriminate.
Qed.

Lemma split_length sep s :
  List.length (split sep s) = S (List.length (filter (N.eqb sep) s)).
Proof.
  induction s as [|c s IH]; [reflexivity|]. simpl.
  rewrite (N.eqb_sym sep c).
  destruct (c =? sep)%N; simpl; [now rewrite IH|].
  destruct (split sep s) as [|cur more] eqn:E; [discriminate|].
  exact IH.
Qed.

Lemma split_pieces sep s : Forall (fun p => ~ In sep p) (split sep s).
Proof.
  induction s as [|c s IH]; simpl.
  - constructor; [intros [] | constructor].
  - destruct (c =? sep)%N eqn:E.
    + constructor; [intros [] | exact IH].
    + destruct (split sep s) as [|cur more]; [repeat constructor|].
      * intros [H|[]]. subst c. now rewrite N.eqb_refl in E.
      * inversion IH as [|? ? Hcur Hmore]; subst. constructor; [|exact Hmore].
        intros [H|H]; [subst c; now rewrite N.eqb_refl in E | now apply Hcur].
Qed.

Lemma trimStart_clean s : starts_clean (trimStart s).
Proof.
  induction s as [|c s IH]; simpl; [exact I|].
  destruct (is_trim_space c) eqn:E; [exact IH | exact E].
Qed.

Lemma trimStart_fixed s : starts_clean s -> trimStart s = s.
Proof. destruct s as [|c s]; simpl; [reflexivity|]. now intros ->. Qed.

Lemma trimStart_suffix s : exists pre, s = pre ++ trimStart s.
Proof.
  induction s as [|c s [pre IH]]; simpl; [now exists []|].
  destruct (is_trim_space c); [|now exists []].
  exists (c :: pre). simpl. now rewrite <- IH.
Qed.

Lemma trim_idempotent s : trim (trim s) = trim s.
Proof.
  unfold trim, trimEnd.
  pose proof (trimStart_clean s) as Hc.
  set (t := trimStart s) in *.
  destruct (trimStart_suffix (rev t)) as [pre Hpre].
  set (u := trimStart (rev t)) in *.
  assert (Ht : t = rev u ++ rev pre).
  { rewrite <- rev_app_distr, <- Hpre. now rewrite rev_involutive. }
  assert (Hr : starts_clean (rev u)).
  { destruct (rev u) as [|c r]; [exact I|]. rewrite Ht in Hc. exact Hc. }
  rewrite (trimStart_fixed _ Hr), rev_involutive.
  unfold u at 1. fold u.
  now rewrite (trimStart_fixed u (trimStart_clean (rev t))).
Qed.

Lemma trimStart_In c s : In c (trimStart s) -> In c s.
Proof.
  destruct (trimStart_suffix s) as [pre E]. intros H. rewrite E.
  apply in_or_app. now right.
Qed.

Lemma trim_In c s : In c (trim s) -> In c s.
Proof.
  unfold trim, trimEnd. intros H.
  apply in_rev, trimStart_In in H. apply in_rev in H.
  now apply trimStart_In.
Qed.

(** X16.  The [exclude] input always yields one pattern more than it has
    commas (so at least one), and every pattern is trimmed and holds no
    comma. *)
Theorem exclude_patterns_are_trimmed :
  forall exclude : jsstring,
    List.length (excludePatterns exclude) = S (commas exclude)
    /\ Forall (fun p => trim p = p /\ ~ In (ch ",") p)
              (excludePatterns exclude).
Proof.
  intros exclude. unfold excludePatterns. split.
  - rewrite length_map. apply split_length.
  - apply Forall_map.
    eapply Forall_impl; [|apply (split_pieces (ch ",") exclude)].
    intros p Hp. split; [apply trim_idempotent|].
    intros H. apply Hp. now apply trim_In.
Qed.

(** ** Ratings and the lint comment *)

(** X17.  The rating pattern does not match a rating with a sign: a
    sentence [Your code has been rated at -...] is passed over, and the score
    is what the rest of the report gives (0 when it holds no other rating). *)
Theorem signed_rating_is_skipped :
  forall pre post : jsstring,
    (forall i, (i < List.length pre)%nat ->
               match_rating_here
                 (skipn i (pre ++ rating_sentence ++ ch "-" :: post)) = None) ->
    parsePylint (pre ++ rating_sentence ++ ch "-" :: post) = parsePylint post.
Proof.
  intros pre post Hpre. unfold parsePylint.
  rewrite (match_rating_skip _ _ Hpre).
  change (rating_sentence ++ ch "-" :: post)
    with ((rating_sentence ++ [ch "-"]) ++ post).
  rewrite match_rating_skip; [reflexivity|].
  intros i Hi.
  do 29 (destruct i as [|i]; [reflexivity|]).
  simpl in Hi. lia.
Qed.

(** A negative rating reads as 0. *)
Lemma signed_rating_witness :
  parsePylint (lit "Your code has been rated at -2.50/10") = S754_zero false.
Proof.
  transitivity (parsePylint (lit "2.50/10")); [|vm_compute; reflexivity].
  apply (@signed_rating_is_skipped [] (lit "2.50/10")).
  intros i Hi. simpl in Hi. lia.
Defined.

Lemma ratings_print_back :
  forallb rating_prints_back (map Z.of_nat (seq 0 1001)) = true.
Proof. vm_compute. reflexivity. Qed.

Lemma rating_prints_back_ok k :
  (0 <= k <= 1000)%Z -> rating_prints_back k = true.
Proof.
  intros Hk. pose proof ratings_print_back as H.
  rewrite forallb_forall in H. apply H.
  replace k with (Z.of_nat (Z.to_nat k)) by lia.
  apply in_map, in_seq. lia.
Qed.

(** X18.  For every rating between 0.00 and 10.00 that the report states
    with two decimals in its leftmost rating sentence, the lint comment shows
    the same digits: parsing the numeral into a double and printing it with
    [toFixed(2)] gives the numeral back. *)
Theorem score_comment_shows_the_rating :
  forall (pre post : jsstring) (k : Z),
    (0 <= k <= 1000)%Z ->
    (forall i, (i < List.length pre)%nat ->
               match_rating_here
                 (skipn i (pre ++ rating_sentence ++ two_decimals k ++ post))
               = None) ->
    no_digit_ahead post ->
    scoreComment
      (parsePylint (pre ++ rating_sentence ++ two_decimals k ++ post))
    = lit "The pylint score for this pull request is: "
      ++ two_decimals k ++ lit "/10".
Proof.
  intros pre post k Hk Hpre Hpost.
  pose proof (rating_prints_back_ok Hk) as H. unfold rating_prints_back in H.
  cbv zeta in H.
  set (ip := decimal_digits (k / 100)) in *.
  set (fp := decimal_digits ((k / 10) mod 10) ++ decimal_digits (k mod 10)) in *.
  repeat rewrite andb_true_iff in H.
  destruct H as ((((Hi & Hf) & Di) & Df) & Hfix).
  apply jsstring_eqb_eq in Hfix.
  assert (E : two_decimals k ++ post = ip ++ lit "." ++ fp ++ post).
  { unfold two_decimals, ip, fp. now rewrite <- !app_assoc. }
  assert (E' : two_decimals k = ip ++ lit "." ++ fp) by reflexivity.
  unfold scoreComment, parsePylint.
  rewrite (match_rating_skip _ _ Hpre), E.
  rewrite (@match_rating_head _ (ip ++ lit "." ++ fp)).
  - now rewrite Hfix, E'.
  - apply match_rating_here_sentence; try assumption.
    + intros ->. discriminate.
    + intros ->. discriminate.
Qed.

(** The sample report. *)
Lemma score_comment_witness :
  scoreComment (parsePylint sample_report)
  = lit "The pylint score for this pull request is: 7.50/10".
Proof.
  apply (@score_comment_shows_the_rating
           (lit "************* Module app" ++ [c_newline])
           (lit "/10 (previous run: 5.00/10, +2.50)") 750%Z).
  - lia.
  - intros i Hi.
    do 25 (destruct i as [|i]; [vm_compute; reflexivity|]).
    simpl in Hi. lia.
  - reflexivity.
Defined.

(** ** Runs that end early, and the order of the posts *)

(** A property of every event emitted is kept by the trace. *)
Lemma emits_forall (P : event -> Prop) {A : Type} (c : M A) tr r tr' :
  emits_only P c -> c tr = (r, tr') -> Forall P tr -> Forall P tr'.
Proof.
  intros Hc E Htr. destruct (Hc tr) as (new & E' & F).
  rewrite E in E'. simpl in E'. subst tr'. apply Forall_app. now split.
Qed.

Lemma reaches_report_quiet w prDetails comments tr :
  reaches_report w prDetails comments tr -> Forall posts_nothing tr.
Proof.
  intros (text & eventData & diff & parsedDiff & filteredDiff & tr1 & tr2
          & H1 & _ & _ & H2 & _ & _ & _ & H3).
  eapply emits_forall; [apply analyzeCode_emits | exact H3 |].
  eapply emits_forall; [apply fetchDiff_emits | exact H2 |].
  eapply emits_forall; [apply getPRDetails_emits | exact H1 | constructor].
Qed.

(** A run either ends before line 393 without having posted anything, or
    reaches the report. *)
Lemma main_cases_quiet w :
  (exists r tr, main w [] = (r, tr) /\ Forall posts_nothing tr)
  \/ (exists prDetails comments tr, reaches_report w prDetails comments tr).
Proof.
  unfold main, reaches_report.
  destruct (getPRDetails w []) as [[prDetails|e] tr1] eqn:E1.
  2: { left. exists (Throw e), tr1. unfold bind at 1. rewrite E1.
       split; [reflexivity|].
       exact (emits_forall (getPRDetails_emits w) E1 (Forall_nil _)). }
  pose proof (emits_forall (getPRDetails_emits w) E1 (Forall_nil _)) as S1.
  unfold bind at 1. rewrite E1.
  destruct (readFileSync w (event_path w)) as [text|e] eqn:E2.
  2: { left. exists (Throw e), tr1. now split. }
  unfold bind at 1, lift.
  destruct (JSON_parse text) as [eventData|e] eqn:E3.
  2: { left. exists (Throw e), tr1. now split. }
  unfold bind at 1.
  destruct (fetchDiff w prDetails eventData tr1) as [[fetched|e] tr2] eqn:E4.
  2: { left. exists (Throw e), tr2. unfold bind at 1. rewrite E4.
       split; [reflexivity|].
       exact (emits_forall (fetchDiff_emits w prDetails eventData) E4 S1). }
  pose proof (emits_forall (fetchDiff_emits w prDetails eventData) E4 S1) as S2.
  unfold bind at 1. rewrite E4.
  destruct fetched as [[[|c diff]|]|].
  - left. eexists _, _. split; [reflexivity|].
    apply Forall_app. split; [exact S2 | now repeat constructor].
  - destruct (parseDiff w (c :: diff)) as [parsedDiff|e] eqn:E6.
    2: { left. exists (Throw e), tr2. now split. }
    unfold bind at 1, lift.
    destruct (filterDiff (glob_match w) (excludePatterns (input_exclude w))
                parsedDiff) as [filteredDiff|e] eqn:Ef.
    2: { left. exists (Throw e), tr2. now split. }
    unfold bind at 1.
    match goal with
    | |- context [analyzeCode w ?fd prDetails] =>
        destruct (analyzeCode w fd prDetails tr2) as [[comments|e] tr3] eqn:E7
    end.
    + right. exists prDetails, comments, tr3, text, eventData, (c :: diff),
        parsedDiff, filteredDiff, tr1, tr2.
      repeat split; try assumption. discriminate.
    + left. exists (Throw e), tr3. unfold bind at 1. rewrite E7.
      split; [reflexivity|].
      exact (emits_forall (analyzeCode_emits w _ prDetails) E7 S2).
  - left. eexists _, _. split; [reflexivity|].
    apply Forall_app. split; [exact S2 | now repeat constructor].
  - left. eexists _, _. split; [reflexivity|]. exact S2.
Qed.

Lemma reaches_report_no_exec w prDetails comments tr :
  reaches_report w prDetails comments tr -> Forall no_exec tr.
Proof.
  intros (text & eventData & diff & parsedDiff & filteredDiff & tr1 & tr2
          & H1 & _ & _ & H2 & _ & _ & _ & H3).
  eapply emits_forall; [|exact H3|].
  { eapply emits_only_weaken; [|apply analyzeCode_emits_among].
    intros []; simpl; tauto. }
  eapply emits_forall; [|exact H2|].
  { unfold fetchDiff, getDiff, console_log. emits. }
  eapply emits_forall; [|exact H1|constructor].
  unfold getPRDetails. emits.
Qed.

(** X19.  In a run that reaches the lint step and finds no Python file, no
    command is run at all, and the lint comment posted reads 10.00/10. *)
Theorem no_python_files_score_perfect :
  forall (w : World) (prDetails : PRDetails) (comments : list Comment)
         (tr : trace),
    reaches_report w prDetails comments tr ->
    glob w tr = Ok [] ->
    Forall no_exec (run w)
    /\ exists rest,
         run w = tr ++ [GlobFiles; ConsoleLog "files";
                        ConsoleLog "No Python files found in the repository.";
                        IssuesCreateComment (owner prDetails) (repo prDetails)
                          (pull_number prDetails)
                          (lit "The pylint score for this pull request is: 10.00/10")]
                 ++ rest.
Proof.
  intros w prDetails comments tr R Hg.
  pose proof (reaches_report_no_exec R) as S.
  assert (E : exists rest,
             run w = tr ++ [GlobFiles; ConsoleLog "files";
                            ConsoleLog "No Python files found in the repository.";
                            IssuesCreateComment (owner prDetails) (repo prDetails)
                              (pull_number prDetails)
                              (lit "The pylint score for this pull request is: 10.00/10")]
                     ++ rest
             /\ Forall no_exec rest).
  { rewrite (run_of_report R). unfold reportResults, bind at 1.
    rewrite (getPylintScore_no_files _ _ Hg).
    change (scoreComment (number_of_Z 10))
      with (lit "The pylint score for this pull request is: 10.00/10").
    unfold bind, addPullRequestComment, createReviewComment, call, ret.
    match goal with
    | |- context [issues_createComment ?a ?b ?c ?d ?e ?f] =>
        destruct (issues_createComment a b c d e f) as [[]|err]
    end.
    - destruct comments as [|c cs].
      + exists []. rewrite <- !app_assoc. simpl. split; [reflexivity|constructor].
      + match goal with
        | |- context [pulls_createReview ?a ?b ?c ?d ?e ?f ?g] =>
            destruct (pulls_createReview a b c d e f g) as [[]|err]
        end; eexists; rewrite <- !app_assoc; simpl;
          (split; [reflexivity|]); repeat constructor.
    - eexists. rewrite <- !app_assoc. simpl.
      split; [reflexivity|]. repeat constructor. }
  destruct E as (rest & E & F). split; [|now exists rest].
  rewrite E. repeat (apply Forall_app; split); try assumption.
  repeat constructor.
Qed.

Lemma without_python_reaches_report :
  reaches_report
    (without_python (sample_world (text_answer one_finding)
                       (Ok (sample_report, []))))
    sample_prDetails sample_comments (sample_trace (Ok (sample_report, []))).
Proof.
  unfold reaches_report.
  do 7 eexists.
  split; [vm_compute; reflexivity|].
  split; [vm_compute; reflexivity|].
  split; [vm_compute; reflexivity|].
  split; [vm_compute; reflexivity|].
  split; [discriminate|].
  split; [vm_compute; reflexivity|].
  split; [vm_compute; reflexivity|].
  vm_compute. reflexivity.
Qed.

(** The sample run on a repository without Python files. *)
Lemma no_python_files_witness :
  Forall no_exec
    (run (without_python (sample_world (text_answer one_finding)
                            (Ok (sample_report, [])))))
  /\ exists rest,
       run (without_python (sample_world (text_answer one_finding)
                              (Ok (sample_report, []))))
       = sample_trace (Ok (sample_report, []))
         ++ [GlobFiles; ConsoleLog "files";
             ConsoleLog "No Python files found in the repository.";
             IssuesCreateComment (owner sample_prDetails)
               (repo sample_prDetails) (pull_number sample_prDetails)
               (lit "The pylint score for this pull request is: 10.00/10")]
         ++ rest.
Proof.
  apply (@no_python_files_score_perfect
           (without_python (sample_world (text_answer one_finding)
                              (Ok (sample_report, []))))
           sample_prDetails sample_comments
           (sample_trace (Ok (sample_report, [])))
           without_python_reaches_report).
  reflexivity.
Defined.

(** X20.  When the event file cannot be read, is no JSON, or names no
    repository owner, the run makes no call at all: the error is logged and
    the process exits with status 1. *)
Theorem unusable_event_payload_stops_the_run :
  forall (w : World) (e : error),
    event_login w = Throw e ->
    run w = [ConsoleError "Error:"; ProcessExit 1].
Proof.
  intros w e. unfold event_login, run, action, try_catch, main, getPRDetails.
  unfold bind at 1. unfold bind at 1, lift.
  destruct (readFileSync w (event_path w)) as [text|e1]; simpl; [|reflexivity].
  unfold bind at 1.
  destruct (JSON_parse text) as [payload|e2]; simpl; [|reflexivity].
  unfold bind at 1.
  destruct (Get payload (lit "repository")) as [repository|e3] eqn:E3; simpl;
    [|reflexivity].
  unfold bind at 1.
  assert (En : exists n, Get payload (lit "number") = Ok n).
  { destruct payload; try discriminate; simpl; eauto.
    destruct (lookup _ _); eauto. }
  destruct En as [n ->].
  unfold bind at 1.
  destruct (Get repository (lit "owner")) as [repo_owner|e4]; simpl;
    [|reflexivity].
  unfold bind at 1.
  destruct (Get repo_owner (lit "login")) as [login|e5]; simpl;
    [discriminate | reflexivity].
Qed.

(** An event payload without [repository]. *)
Lemma unusable_event_payload_witness :
  run (sample_world_payload (json_lit "{'action':'opened','number':7}"))
  = [ConsoleError "Error:"; ProcessExit 1].
Proof.
  apply (@unusable_event_payload_stops_the_run
           (sample_world_payload (json_lit "{'action':'opened','number':7}"))
           TypeError).
  vm_compute. reflexivity.
Defined.

(** [getPRDetails] makes one call, for the pull request it returns. *)
Lemma getPRDetails_trace w prDetails tr :
  getPRDetails w [] = (Ok prDetails, tr) ->
  tr = [PullsGet (owner prDetails) (repo prDetails) (pull_number prDetails)].
Proof.
  unfold getPRDetails. run_monad.
  repeat match goal with
         | |- context [match ?x with _ => _ end] => destruct x
         end; intros H; inversion H; reflexivity.
Qed.

(** [fetchDiff] makes one call when it returns a diff. *)
Lemma fetchDiff_trace w prDetails eventData tr diff tr' :
  fetchDiff w prDetails eventData tr = (Ok (Some diff), tr') ->
  exists fetch,
    tr' = tr ++ [fetch]
    /\ (fetch = PullsGetDiff (owner prDetails) (repo prDetails)
                  (pull_number prDetails)
        \/ exists base head,
             fetch = CompareCommits (owner prDetails) (repo prDetails)
                       base head).
Proof.
  unfold fetchDiff, getDiff. run_monad.
  destruct (Get eventData (lit "action")) as [kind|e]; [|discriminate].
  destruct (is_string kind (lit "opened")).
  - destruct (pulls_get_diff w tr _ _ _); [|discriminate].
    intros H. inversion H. eexists. split; [reflexivity|]. now left.
  - destruct (is_string kind (lit "synchronize")); [|discriminate].
    destruct (Get eventData (lit "before")) as [b|e]; [|discriminate].
    destruct (Get eventData (lit "after")) as [h|e]; [|discriminate].
    destruct (compare_commits w tr _ _ _ _); [|discriminate].
    intros H. inversion H. eexists. split; [reflexivity|]. right. eauto.
Qed.

(** X21.  When the diff fetched for the event is [null] or the empty string,
    the run ends after the log line [No diff found]: the model API is not
    called, the linter is not run, and nothing is posted. *)
Theorem empty_diff_ends_the_run :
  forall (w : World) (prDetails : PRDetails) (tr1 tr2 : trace)
         (text : jsstring) (eventData : value) (diff : option jsstring),
    getPRDetails w [] = (Ok prDetails, tr1) ->
    readFileSync w (event_path w) = Ok text ->
    JSON_parse text = Ok eventData ->
    fetchDiff w prDetails eventData tr1 = (Ok (Some diff), tr2) ->
    diff = None \/ diff = Some [] ->
    exists fetch,
      run w = [PullsGet (owner prDetails) (repo prDetails)
                 (pull_number prDetails);
               fetch; ConsoleLog "No diff found"]
      /\ (fetch = PullsGetDiff (owner prDetails) (repo prDetails)
                    (pull_number prDetails)
          \/ exists base head,
               fetch = CompareCommits (owner prDetails) (repo prDetails)
                         base head).
Proof.
  intros w prDetails tr1 tr2 text eventData diff H1 H2 H3 H4 Hd.
  destruct (fetchDiff_trace _ _ _ _ H4) as (fetch & E & Hf).
  exists fetch. split; [|exact Hf].
  rewrite (getPRDetails_trace _ H1) in E. simpl in E. subst tr2.
  unfold run, action, try_catch, main, bind at 1. rewrite H1.
  unfold bind at 1, lift. rewrite H2.
  unfold bind at 1. rewrite H3.
  unfold bind at 1. rewrite H4.
  destruct Hd as [-> | ->]; reflexivity.
Qed.

(** The sample run on an empty diff. *)
Lemma empty_diff_witness :
  exists fetch,
    run (without_diff (sample_world (text_answer one_finding)
                         (Ok (sample_report, []))))
    = [PullsGet (owner sample_prDetails) (repo sample_prDetails)
         (pull_number sample_prDetails);
       fetch; ConsoleLog "No diff found"]
    /\ (fetch = PullsGetDiff (owner sample_prDetails) (repo sample_prDetails)
                  (pull_number sample_prDetails)
        \/ exists base head,
             fetch = CompareCommits (owner sample_prDetails)
                       (repo sample_prDetails) base head).
Proof.
  apply (@empty_diff_ends_the_run
           (without_diff (sample_world (text_answer one_finding)
                            (Ok (sample_report, []))))
           sample_prDetails
           [PullsGet (owner sample_prDetails) (repo sample_prDetails)
              (pull_number sample_prDetails)]
           [PullsGet (owner sample_prDetails) (repo sample_prDetails)
              (pull_number sample_prDetails);
            PullsGetDiff (owner sample_prDetails) (repo sample_prDetails)
              (pull_number sample_prDetails)]
           (json_lit "{'action':'opened','number':7,'repository':{'name':'demo','owner':{'login':'octo'}}}")
           (VObject [(lit "action", VString (lit "opened"));
                     (lit "number", VNumber (number_of_Z 7));
                     (lit "repository",
                      VObject [(lit "name", VString (lit "demo"));
                               (lit "owner",
                                VObject [(lit "login", VString (lit "octo"))])])])
           (Some []));
    try (vm_compute; reflexivity).
  now right.
Defined.

(** X22.  A run posts nothing, or it posts exactly one lint comment, of the
    form [The pylint score for this pull request is: .../10], before which
    it posts nothing: a review is only ever submitted after the lint
    comment. *)
Theorem lint_comment_precedes_review :
  forall w : World,
    Forall posts_nothing (run w)
    \/ exists before owner repo pull_number score after,
         run w = before
                 ++ IssuesCreateComment owner repo pull_number
                      (scoreComment score) :: after
         /\ Forall posts_nothing before
         /\ lint_comments after = [].
Proof.
  intros w.
  destruct (main_cases_quiet w)
    as [(r & tr & E & S) | (prDetails & comments & tr & R)].
  - left. unfold run, action, try_catch. rewrite E.
    destruct r as [[]|e]; [exact S|].
    unfold console_error, emit, bind. simpl.
    repeat (apply Forall_app; split); try exact S; now repeat constructor.
  - pose proof (reaches_report_quiet R) as S.
    pose proof (run_of_report R) as Erun.
    unfold reportResults, bind at 1 in Erun.
    destruct (getPylintScore w tr) as [[score|e] tr1] eqn:E1.
    2: { left. rewrite Erun. apply Forall_app. split; [|now repeat constructor].
         exact (emits_forall (getPylintScore_emits w) E1 S). }
    pose proof (emits_forall (getPylintScore_emits w) E1 S) as S1.
    right. exists tr1, (owner prDetails), (repo prDetails),
             (pull_number prDetails), score.
    unfold bind, addPullRequestComment, createReviewComment, call, ret in Erun.
    destruct (issues_createComment w tr1 (owner prDetails) (repo prDetails)
                (pull_number prDetails) (scoreComment score)) as [[]|err].
    2: { eexists. rewrite Erun, <- app_assoc. simpl.
         split; [reflexivity|]. split; [exact S1 | reflexivity]. }
    destruct comments as [|c cs].
    + exists []. rewrite Erun. split; [reflexivity|].
      split; [exact S1 | reflexivity].
    + match type of Erun with
      | context [pulls_createReview ?a ?b ?c ?d ?e ?f ?g] =>
          destruct (pulls_createReview a b c d e f g) as [[]|err]
      end; eexists; rewrite Erun, <- !app_assoc; simpl;
        (split; [reflexivity|]); (split; [exact S1 | reflexivity]).
Qed.

(** X23.  When the host refuses the lint comment, the accumulated review
    comments are not submitted: the exception leaves [main], and the process
    exits with status 1. *)
Theorem lint_comment_failure_loses_the_review :
  forall (w : World) (prDetails : PRDetails) (comments : list Comment)
         (tr tr1 : trace) (score : number) (e : error),
    reaches_report w prDetails comments tr ->
    getPylintScore w tr = (Ok score, tr1) ->
    issues_createComment w tr1 (owner prDetails) (repo prDetails)
      (pull_number prDetails) (scoreComment score) = Throw e ->
    run w = tr1 ++ [IssuesCreateComment (owner prDetails) (repo prDetails)
                      (pull_number prDetails) (scoreComment score);
                    ConsoleError "Error:"; ProcessExit 1]
    /\ review_submissions (run w) = [].
Proof.
  intros w prDetails comments tr tr1 score e R Hs He.
  assert (Erun : run w
                 = tr1 ++ [IssuesCreateComment (owner prDetails) (repo prDetails)
                             (pull_number prDetails) (scoreComment score);
                           ConsoleError "Error:"; ProcessExit 1]).
  { rewrite (run_of_report R). unfold reportResults, bind at 1. rewrite Hs.
    unfold bind at 1, addPullRequestComment, call. rewrite He.
    now rewrite <- app_assoc. }
  split; [exact Erun|]. rewrite Erun, review_submissions_app.
  destruct (reaches_report_silent R) as [S _].
  now rewrite (@emits_silent _ _ _ _ _ (getPylintScore_emits w) Hs S).
Qed.

Lemma refusing_reaches_report :
  reaches_report
    (refusing_comments (sample_world (text_answer one_finding)
                          (Ok (sample_report, []))))
    sample_prDetails sample_comments (sample_trace (Ok (sample_report, []))).
Proof.
  unfold reaches_report.
  do 7 eexists.
  split; [vm_compute; reflexivity|].
  split; [vm_compute; reflexivity|].
  split; [vm_compute; reflexivity|].
  split; [vm_compute; reflexivity|].
  split; [discriminate|].
  split; [vm_compute; reflexivity|].
  split; [vm_compute; reflexivity|].
  vm_compute. reflexivity.
Qed.

(** The sample run on a host that refuses the lint comment. *)
Lemma lint_comment_failure_witness :
  run (refusing_comments (sample_world (text_answer one_finding)
                            (Ok (sample_report, []))))
  = (sample_trace (Ok (sample_report, []))
     ++ [GlobFiles; ConsoleLog "files"; Exec (pylint_command [lit "app.py"])])
    ++ [IssuesCreateComment (owner sample_prDetails) (repo sample_prDetails)
          (pull_number sample_prDetails)
          (scoreComment (parsePylint sample_report));
        ConsoleError "Error:"; ProcessExit 1]
  /\ review_submissions
       (run (refusing_comments (sample_world (text_answer one_finding)
                                  (Ok (sample_report, []))))) = [].
Proof.
  apply (@lint_comment_failure_loses_the_review
           (refusing_comments (sample_world (text_answer one_finding)
                                 (Ok (sample_report, []))))
           sample_prDetails sample_comments
           (sample_trace (Ok (sample_report, [])))
           (sample_trace (Ok (sample_report, []))
            ++ [GlobFiles; ConsoleLog "files";
                Exec (pylint_command [lit "app.py"])])
           (parsePylint sample_report)
           (Rejected "403 Forbidden")
           refusing_reaches_report);
    vm_compute; reflexivity.
Defined.

Lemma getAIResponse_no_exit w prompt : emits_only no_exit (getAIResponse w prompt).
Proof.
  unfold getAIResponse, parseWithRecovery, extractReviews,
    console_log, console_error.
  emits.
Qed.

Lemma analyzeCode_no_exit w parsedDiff prDetails :
  emits_only no_exit (analyzeCode w parsedDiff prDetails).
Proof.
  eapply emits_only_weaken; [|apply analyzeCode_emits_among].
  intros []; simpl; tauto.
Qed.

Lemma main_no_exit w : emits_only no_exit (main w).
Proof.
  unfold main, getPRDetails, fetchDiff, getDiff, console_log.
  apply emits_only_bind; [emits|]. intros prDetails.
  apply emits_only_bind; [apply emits_only_lift|]. intros text.
  apply emits_only_bind; [apply emits_only_lift|]. intros eventData.
  apply emits_only_bind; [emits|].
  intros [[[|c diff]|]|]; unfold console_log; try (emits; fail).
  apply emits_only_bind; [apply emits_only_lift|]. intros parsedDiff.
  apply emits_only_bind; [apply emits_only_lift|]. intros filteredDiff.
  apply emits_only_bind; [apply analyzeCode_no_exit|]. intros comments.
  unfold reportResults, getPylintScore, addPullRequestComment,
    createReviewComment, console_log, console_error.
  emits.
Qed.

(** X24.  The process exits with status 1 exactly when an exception leaves
    [main], as the last event of the run, after the error was logged;
    nothing else in the run exits the process. *)
Theorem exit_status_reflects_main :
  forall w : World,
    exists tr,
      Forall no_exit tr
      /\ ((exists u, main w [] = (Ok u, tr) /\ run w = tr)
          \/ (exists e, main w [] = (Throw e, tr)
                        /\ run w = tr ++ [ConsoleError "Error:"; ProcessExit 1])).
Proof.
  intros w. destruct (main_no_exit w []) as (new & E & F).
  unfold run, action, try_catch.
  destruct (main w []) as [[u|e] tr]; simpl in E; subst tr; exists new;
    (split; [exact F|]).
  - left. now exists u.
  - right. exists e. split; [reflexivity|].
    unfold console_error, emit, bind. simpl. now rewrite <- app_assoc.
Qed.

(** ** The source of the diff *)

Lemma fetchDiff_opened w prDetails eventData kind tr :
  Get eventData (lit "action") = Ok kind ->
  is_string kind (lit "opened") = true ->
  exists r,
    fetchDiff w prDetails eventData tr
    = (r, tr ++ [PullsGetDiff (owner prDetails) (repo prDetails)
                   (pull_number prDetails)]).
Proof.
  intros Hk Ho. unfold fetchDiff, getDiff. run_monad. rewrite Hk, Ho.
  destruct (pulls_get_diff w tr _ _ _); eauto.
Qed.

Lemma fetchDiff_synchronize w prDetails eventData kind tr :
  Get eventData (lit "action") = Ok kind ->
  is_string kind (lit "synchronize") = true ->
  exists before after r,
    Get eventData (lit "before") = Ok before
    /\ Get eventData (lit "after") = Ok after
    /\ fetchDiff w prDetails eventData tr
       = (r, tr ++ [CompareCommits (owner prDetails) (repo prDetails)
                      before after]).
Proof.
  intros Hk Hs.
  assert (Ho : is_string kind (lit "opened") = false).
  { destruct kind as [ | | | |t| | ]; try discriminate.
    apply jsstring_eqb_eq in Hs. now subst t. }
  assert (Hg : forall key, exists v, Get eventData key = Ok v).
  { intros key. destruct eventData; try discriminate; simpl; eauto.
    destruct (lookup key properties); eauto. }
  destruct (Hg (lit "before")) as [before Hb].
  destruct (Hg (lit "after")) as [after Ha].
  exists before, after.
  unfold fetchDiff. run_monad. rewrite Hk, Ho, Hs, Hb, Ha.
  destruct (compare_commits w tr _ _ _ _); eauto.
Qed.

Lemma reportResults_no_diff_fetch w prDetails comments :
  emits_only no_diff_fetch (reportResults w prDetails comments).
Proof.
  unfold reportResults, getPylintScore, addPullRequestComment,
    createReviewComment, console_log, console_error.
  emits.
Qed.

(** What follows the fetch of the diff fetches no other. *)
Lemma run_after_fetch w prDetails tr1 text eventData r tr2 :
  getPRDetails w [] = (Ok prDetails, tr1) ->
  readFileSync w (event_path w) = Ok text ->
  JSON_parse text = Ok eventData ->
  fetchDiff w prDetails eventData tr1 = (r, tr2) ->
  exists rest, run w = tr2 ++ rest /\ Forall no_diff_fetch rest.
Proof.
  intros H1 H2 H3 H4.
  unfold run, action, try_catch, main, bind at 1. rewrite H1.
  unfold bind at 1, lift. rewrite H2.
  unfold bind at 1. rewrite H3.
  unfold bind at 1. rewrite H4.
  assert (Hexit : Forall no_diff_fetch [ConsoleError "Error:"; ProcessExit 1])
    by now repeat constructor.
  destruct r as [[[[|c diff]|]|]|e].
  - exists [ConsoleLog "No diff found"]. split; [reflexivity|].
    now repeat constructor.
  - unfold bind at 1, lift.
    destruct (parseDiff w (c :: diff)) as [parsedDiff|e].
    2: { exists [ConsoleError "Error:"; ProcessExit 1].
         unfold console_error, emit, bind. simpl.
         rewrite <- !app_assoc. now split. }
    unfold bind at 1.
    destruct (filterDiff (glob_match w) (excludePatterns (input_exclude w))
                parsedDiff) as [filteredDiff|e].
    2: { exists [ConsoleError "Error:"; ProcessExit 1].
         unfold console_error, emit, bind. simpl.
         rewrite <- !app_assoc. now split. }
    unfold bind at 1.
    match goal with
    | |- context [analyzeCode w ?fd prDetails] =>
        destruct (analyzeCode_emits_among w fd prDetails tr2) as (n3 & E3 & F3);
        destruct (analyzeCode w fd prDetails tr2) as [[comments|e] tr3]
    end; simpl in E3; subst tr3.
    2: { exists (n3 ++ [ConsoleError "Error:"; ProcessExit 1]).
         unfold console_error, emit, bind. simpl.
         rewrite <- !app_assoc. split; [reflexivity|].
         apply Forall_app. split; [|exact Hexit].
         eapply Forall_impl; [|exact F3]. intros []; simpl; tauto. }
    assert (F3' : Forall no_diff_fetch n3).
    { eapply Forall_impl; [|exact F3]. intros []; simpl; tauto. }
    destruct (reportResults_no_diff_fetch w prDetails comments (tr2 ++ n3))
      as (n4 & E4 & F4).
    destruct (reportResults w prDetails comments (tr2 ++ n3))
      as [[[]|e] tr4]; simpl in E4; subst tr4.
    + exists (n3 ++ n4). rewrite <- app_assoc. split; [reflexivity|].
      apply Forall_app. now split.
    + exists (n3 ++ n4 ++ [ConsoleError "Error:"; ProcessExit 1]).
      unfold console_error, emit, bind. simpl.
      rewrite <- !app_assoc. split; [reflexivity|].
      repeat (apply Forall_app; split); assumption.
  - exists [ConsoleLog "No diff found"]. split; [reflexivity|].
    now repeat constructor.
  - exists []. rewrite app_nil_r. split; [reflexivity | constructor].
  - exists [ConsoleError "Error:"; ProcessExit 1].
    unfold console_error, emit, bind. simpl.
    rewrite <- !app_assoc. now split.
Qed.

(** X25.  The event decides where the diff comes from.  On [opened] the run
    fetches the diff of the pull request; on [synchronize] it compares the
    commits [before] and [after] of the payload ([undefined] when the
    payload lacks them).  Either way this is the second call of the run,
    after the lookup of the pull request, and no other diff is fetched. *)
Theorem diff_source_follows_the_event :
  forall (w : World) (prDetails : PRDetails) (tr1 : trace) (text : jsstring)
         (eventData kind : value),
    getPRDetails w [] = (Ok prDetails, tr1) ->
    readFileSync w (event_path w) = Ok text ->
    JSON_parse text = Ok eventData ->
    Get eventData (lit "action") = Ok kind ->
    is_string kind (lit "opened") = true
    \/ is_string kind (lit "synchronize") = true ->
    exists fetch rest,
      run w = [PullsGet (owner prDetails) (repo prDetails)
                 (pull_number prDetails); fetch] ++ rest
      /\ Forall no_diff_fetch rest
      /\ (if is_string kind (lit "opened")
          then fetch = PullsGetDiff (owner prDetails) (repo prDetails)
                         (pull_number prDetails)
          else exists before after,
                 Get eventData (lit "before") = Ok before
                 /\ Get eventData (lit "after") = Ok after
                 /\ fetch = CompareCommits (owner prDetails) (repo prDetails)
                              before after).
Proof.
  intros w prDetails tr1 text eventData kind H1 H2 H3 Hk Hkind.
  pose proof (getPRDetails_trace _ H1) as Etr1.
  destruct (is_string kind (lit "opened")) eqn:Ho.
  - destruct (fetchDiff_opened w prDetails eventData tr1 Hk Ho) as [r H4].
    destruct (run_after_fetch _ H1 H2 H3 H4) as (rest & E & F).
    eexists _, rest. split; [|split; [exact F | reflexivity]].
    rewrite E, Etr1. reflexivity.
  - destruct Hkind as [Hkind | Hs]; [discriminate|].
    destruct (fetchDiff_synchronize w prDetails eventData tr1 Hk Hs)
      as (before & after & r & Hb & Ha & H4).
    destruct (run_after_fetch _ H1 H2 H3 H4) as (rest & E & F).
    eexists _, rest. split; [|split; [exact F | eauto]].
    rewrite E, Etr1. reflexivity.
Qed.

(** A push to the sample pull request. *)
Lemma diff_source_witness :
  exists fetch rest,
    run (sample_world_payload synchronize_payload)
    = [PullsGet (owner sample_prDetails) (repo sample_prDetails)
         (pull_number sample_prDetails); fetch] ++ rest
    /\ Forall no_diff_fetch rest
    /\ exists before after,
         Get (VObject [(lit "action", VString (lit "synchronize"));
                       (lit "before", VString (lit "1f2e"));
                       (lit "after", VString (lit "9a8b"));
                       (lit "number", VNumber (number_of_Z 7));
                       (lit "repository",
                        VObject [(lit "name", VString (lit "demo"));
                                 (lit "owner",
                                  VObject [(lit "login", VString (lit "octo"))])])])
           (lit "before") = Ok before
         /\ Get (VObject [(lit "action", VString (lit "synchronize"));
                          (lit "before", VString (lit "1f2e"));
                          (lit "after", VString (lit "9a8b"));
                          (lit "number", VNumber (number_of_Z 7));
                          (lit "repository",
                           VObject [(lit "name", VString (lit "demo"));
                                    (lit "owner",
                                     VObject [(lit "login", VString (lit "octo"))])])])
              (lit "after") = Ok after
         /\ fetch = CompareCommits (owner sample_prDetails)
                      (repo sample_prDetails) before after.
Proof.
  apply (@diff_source_follows_the_event
           (sample_world_payload synchronize_payload)
           sample_prDetails
           [PullsGet (owner sample_prDetails) (repo sample_prDetails)
              (pull_number sample_prDetails)]
           synchronize_payload
           (VObject [(lit "action", VString (lit "synchronize"));
                     (lit "before", VString (lit "1f2e"));
                     (lit "after", VString (lit "9a8b"));
                     (lit "number", VNumber (number_of_Z 7));
                     (lit "repository",
                      VObject [(lit "name", VString (lit "demo"));
                               (lit "owner",
                                VObject [(lit "login", VString (lit "octo"))])])])
           (VString (lit "synchronize")));
    try (vm_compute; reflexivity).
  now right.
Defined.
